(** * Lumina backend: generation pipeline, credit ledger, poller, hub

    A shallow embedding of the Go sources

    - [services/minimax.go]: [CalculateOptimalSpeed], the request
      builders of [GenerateTTSWithSpeed] and [GenerateVideo],
      [WaitForCompletion];
    - [services/minimax.go]: [GenerateImage] as far as its outcome
      goes, [GetTaskStatus] and [GetFileDownloadURL] as the poller calls
      them;
    - [handlers/generation.go]: [WSHub], the [GenerateMusic] and
      [GenerateVideo] handlers with their background pipelines,
      [GetGenerations], [GetGeneration], [DeleteGeneration],
      [ToggleFavorite], [TogglePublic];
    - [middleware/rate_limiter.go]: [newRateLimiter], [cleanup],
      [isAllowed];
    - [middleware]: the validator's [SanitizeInput];
    - [cache]: the key pattern passed to [DeletePattern];
    - [models]: [User], [Generation], [CreditTransaction];
    - of Go's library, what these call: [strings.TrimSpace],
      [strings.ReplaceAll], [strings.NewReplacer] on one-byte keys,
      [strconv.ParseUint] in base 10, [time.Time.Sub] and [Add].

    Go's [float64] is IEEE 754 binary64 with round-to-nearest-even; it is
    modelled by the standard library's [spec_float] at precision 53 and
    maximal exponent 1024, whose operations compute. Go's [int] and [uint]
    are 64-bit; they are carried by [Z] and [N]. *)

From Stdlib Require Import ZArith Bool List String Ascii Lia.
From Stdlib Require Import SpecFloat.
From stdpp Require Import base option list gmap strings pretty.

Local Open Scope Z_scope.

(* ===================================================================== *)
(** ** Go's [float64] *)
(* ===================================================================== *)

Module F64.

Definition prec : Z := 53.
Definition emax : Z := 1024.

Definition float64 : Type := spec_float.

(** [float64(n)] for an integer [n]: the nearest double. *)
Definition of_int (n : Z) : float64 := binary_normalize prec emax n 0 false.

Definition div (x y : float64) : float64 := SFdiv prec emax x y.
Definition mul (x y : float64) : float64 := SFmul prec emax x y.
Definition sub (x y : float64) : float64 := SFsub prec emax x y.

(** Go's comparison operators; each is false as soon as one side is NaN. *)
Definition lt (x y : float64) : bool := SFltb x y.
Definition le (x y : float64) : bool := SFleb x y.
Definition gt (x y : float64) : bool := SFltb y x.

(** A decimal literal [p/q] with [p] and [q] exactly representable: the
    correctly rounded quotient is the double the compiler picks. *)
Definition lit (p q : Z) : float64 := div (of_int p) (of_int q).

Definition c0_5 : float64 := Eval vm_compute in lit 1 2.
Definition c1_0 : float64 := Eval vm_compute in lit 1 1.
Definition c1_3 : float64 := Eval vm_compute in lit 13 10.
Definition c1_5 : float64 := Eval vm_compute in lit 3 2.
Definition c2_0 : float64 := Eval vm_compute in lit 2 1.
Definition c2_5 : float64 := Eval vm_compute in lit 5 2.
Definition c10 : float64 := Eval vm_compute in lit 10 1.
Definition zero : float64 := S754_zero false.

Definition is_nan (x : float64) : bool :=
  match x with S754_nan => true | _ => false end.
Definition is_inf (x : float64) : bool :=
  match x with S754_infinity _ => true | _ => false end.

Definition min_int64 : Z := - 2 ^ 63.
Definition max_int64 : Z := 2 ^ 63 - 1.

(** The integer part of a finite double, towards zero. *)
Definition trunc (x : float64) : Z :=
  match x with
  | S754_finite s m e =>
      let a := if 0 <=? e then Z.shiftl (Zpos m) e
               else Z.shiftr (Zpos m) (- e) in
      if s then - a else a
  | _ => 0
  end.

(** The integer part of a finite double, towards minus infinity. *)
Definition floor (x : float64) : Z :=
  match x with
  | S754_finite s m e =>
      let a := if s then Zneg m else Zpos m in
      if 0 <=? e then Z.shiftl a e else Z.shiftr a (- e)
  | _ => 0
  end.

(** [int(x)]: truncation towards zero. Go leaves the result unspecified
    when the value does not fit; amd64 yields the least int64
    ("integer indefinite"), which is what is modelled here. *)
Definition int_with (round : float64 -> Z) (x : float64) : Z :=
  if is_nan x || is_inf x then min_int64
  else let v := round x in
       if (min_int64 <=? v) && (v <=? max_int64) then v else min_int64.

Definition to_int (x : float64) : Z := int_with trunc x.

(** The sign bit is clear, or the value is NaN. *)
Definition sign_clear (x : float64) : bool :=
  match x with
  | S754_zero s | S754_infinity s | S754_finite s _ _ => negb s
  | S754_nan => true
  end.

End F64.

(* ===================================================================== *)
(** ** Go's [strings.Fields] *)
(* ===================================================================== *)

Module GoStrings.

Definition rune : Type := N.
Definition RuneError : rune := 65533%N.

Definition in_range (lo hi b : N) : bool := ((lo <=? b) && (b <=? hi))%N.

(** [utf8.DecodeRuneInString]: the first rune of a byte sequence and its
    width; an invalid or truncated encoding is [RuneError] of width 1. *)
Definition DecodeRune (bs : list N) : rune * nat :=
  let bad := (RuneError, 1%nat) in
  match bs with
  | [] => (RuneError, 0%nat)
  | b0 :: t =>
      if (b0 <? 128)%N then (b0, 1%nat)
      else if ((b0 <? 194) || (244 <? b0))%N then bad
      else if (b0 <? 224)%N then
        match t with
        | b1 :: _ =>
            if in_range 128 191 b1
            then (N.lor (N.shiftl (N.land b0 31) 6) (N.land b1 63), 2%nat)
            else bad
        | _ => bad
        end
      else if (b0 <? 240)%N then
        let lo := if (b0 =? 224)%N then 160%N else 128%N in
        let hi := if (b0 =? 237)%N then 159%N else 191%N in
        match t with
        | b1 :: b2 :: _ =>
            if in_range lo hi b1 && in_range 128 191 b2
            then (N.lor (N.shiftl (N.land b0 15) 12)
                    (N.lor (N.shiftl (N.land b1 63) 6) (N.land b2 63)), 3%nat)
            else bad
        | _ => bad
        end
      else
        let lo := if (b0 =? 240)%N then 144%N else 128%N in
        let hi := if (b0 =? 244)%N then 143%N else 191%N in
        match t with
        | b1 :: b2 :: b3 :: _ =>
            if in_range lo hi b1 && in_range 128 191 b2 && in_range 128 191 b3
            then (N.lor (N.shiftl (N.land b0 7) 18)
                    (N.lor (N.shiftl (N.land b1 63) 12)
                       (N.lor (N.shiftl (N.land b2 63) 6) (N.land b3 63))), 4%nat)
            else bad
        | _ => bad
        end
  end.

(** [for _, r := range s]: the runes of [s], each with the bytes it
    spans. [skip] counts the bytes still covered by the last rune. *)
Fixpoint range_string (skip : nat) (bs : list ascii) : list (rune * list ascii) :=
  match bs with
  | [] => []
  | _ :: rest =>
      match skip with
      | S k => range_string k rest
      | O =>
          let '(r, w) := DecodeRune (map N_of_ascii (firstn 4 bs)) in
          (r, firstn w bs) :: range_string (w - 1) rest
      end
  end.

(** [unicode.IsSpace]. *)
Definition IsSpace (r : rune) : bool :=
  if (r <=? 255)%N then
    in_range 9 13 r || (r =? 32)%N || (r =? 133)%N || (r =? 160)%N
  else
    (r =? 5760)%N || in_range 8192 8202 r || in_range 8232 8233 r
    || (r =? 8239)%N || (r =? 8287)%N || (r =? 12288)%N.

(** The loop of [strings.FieldsFunc]: [start] is the field being read. *)
Fixpoint fields_loop (f : rune -> bool) (start : option (list ascii))
    (rs : list (rune * list ascii)) : list (list ascii) :=
  match rs with
  | [] => match start with Some w => [w] | None => [] end
  | (r, b) :: rs' =>
      if f r then
        match start with
        | Some w => w :: fields_loop f None rs'
        | None => fields_loop f None rs'
        end
      else
        match start with
        | Some w => fields_loop f (Some (w ++ b)) rs'
        | None => fields_loop f (Some b) rs'
        end
  end.

Definition FieldsFunc (s : string) (f : rune -> bool) : list string :=
  map string_of_list_ascii
    (fields_loop f None (range_string 0 (list_ascii_of_string s))).

(** [strings.Fields]; its ASCII fast path computes the same split. *)
Definition Fields (s : string) : list string := FieldsFunc s IsSpace.

End GoStrings.

(* ===================================================================== *)
(** ** [services]: the MiniMax client *)
(* ===================================================================== *)

Module services.
Import F64.

Inductive error : Type :=
| ErrMiniMaxAPIKeyMissing
| ErrMiniMaxRequestFailed (status_msg : string)
| ErrMiniMaxJobFailed
| ErrNarrationTooLong
| ErrTimeout                      (* errors.New("timeout") *)
| ErrOther (msg : string).        (* transport, JSON and file errors *)

(** [err.Error()]. *)
Definition Error (e : error) : string :=
  match e with
  | ErrMiniMaxAPIKeyMissing => "MiniMax API key is not configured"
  | ErrMiniMaxRequestFailed m => "MiniMax API request failed: " ++ m
  | ErrMiniMaxJobFailed => "MiniMax job failed"
  | ErrNarrationTooLong => "narration too long for video duration"
  | ErrTimeout => "timeout"
  | ErrOther m => m
  end.

Record MiniMaxService : Type := {
  apiKey : string;
  groupID : string;
}.

Definition NewMiniMaxService (key group : string) : MiniMaxService :=
  {| apiKey := key; groupID := group |}.

Definition IsConfigured (s : MiniMaxService) : bool :=
  negb (String.eqb (apiKey s) "").

(** *** The narration speed calculator *)

Definition EstimateTTSDuration (text : string) : float64 :=
  let words := Z.of_nat (length (GoStrings.Fields text)) in
  div (of_int words) c2_5.

(** The Go function returns a pair [(float64, error)]; [None] is [nil]. *)
Definition CalculateOptimalSpeed (text : string) (videoDuration : Z)
  : float64 * option error :=
  let estimatedDuration := EstimateTTSDuration text in
  let targetDuration := sub (of_int videoDuration) c0_5 in
  let targetDuration :=
    if le targetDuration zero then of_int videoDuration else targetDuration in
  if le estimatedDuration targetDuration then (c1_0, None)
  else
    let requiredSpeed := div estimatedDuration targetDuration in
    if gt requiredSpeed c1_3 then
      if gt requiredSpeed c1_5 then (zero, Some ErrNarrationTooLong)
      else (c1_3, None)
    else (div (of_int (to_int (mul requiredSpeed c10))) c10, None).

(** *** Text to speech *)

Record TTSVoiceSetting : Type := {
  VoiceID : string; Speed : float64; Vol : float64; Pitch : Z;
}.
Record TTSAudioSetting : Type := {
  tts_SampleRate : Z; tts_Bitrate : Z; tts_Format : string;
}.
Record TTSRequest : Type := {
  tts_Model : string; Text : string;
  VoiceSetting : TTSVoiceSetting; AudioSetting : TTSAudioSetting;
}.
Record BaseResp : Type := { StatusCode : Z; StatusMsg : string }.
Record TTSResponse : Type := { tts_BaseResp : BaseResp; tts_Audio : string }.

(** [encoding/json] refuses NaN and the infinities; the clamp leaves no
    infinity, so the one value refused is NaN. *)
Definition json_float_ok (x : float64) : bool := negb (is_nan x || is_inf x).

(** The body [GenerateTTSWithSpeed] marshals and posts. *)
Definition ttsRequestBody (text voiceID : string) (speed : float64) : TTSRequest :=
  let voiceID := if String.eqb voiceID "" then "male-qn-qingse" else voiceID in
  let speed := if lt speed c0_5 then c0_5 else speed in
  let speed := if gt speed c2_0 then c2_0 else speed in
  {| tts_Model := "speech-01-turbo";
     Text := text;
     VoiceSetting := {| VoiceID := voiceID; Speed := speed; Vol := c1_0; Pitch := 0 |};
     AudioSetting := {| tts_SampleRate := 32000; tts_Bitrate := 128000;
                        tts_Format := "mp3" |} |}.

(** [post] stands for [httpClient.Do] followed by reading and parsing the
    reply: the provider's answer to the body it is handed. *)
Definition GenerateTTSWithSpeed (s : MiniMaxService)
    (post : TTSRequest -> error + TTSResponse)
    (text voiceID : string) (speed : float64) : error + TTSResponse :=
  if negb (IsConfigured s) then inl ErrMiniMaxAPIKeyMissing
  else
    let reqBody := ttsRequestBody text voiceID speed in
    if negb (json_float_ok (Speed (VoiceSetting reqBody)))
    then inl (ErrOther "json: unsupported value: NaN")
    else
      match post reqBody with
      | inl e => inl e
      | inr result =>
          if negb (StatusCode (tts_BaseResp result) =? 0)
          then inl (ErrMiniMaxRequestFailed (StatusMsg (tts_BaseResp result)))
          else inr result
      end.

Definition GenerateTTS (s : MiniMaxService)
    (post : TTSRequest -> error + TTSResponse) (text voiceID : string)
  : error + TTSResponse :=
  GenerateTTSWithSpeed s post text voiceID c1_0.

(** *** Video generation *)

(** [Resolution] carries [omitempty]: the empty string is not sent. *)
Record VideoGenerationRequest : Type := {
  vid_Model : string; vid_Prompt : string; vid_Duration : Z;
  vid_Resolution : string;
}.
Record VideoResponse : Type := { vid_BaseResp : BaseResp; TaskID : string }.

(** [model == "MiniMax-Hailuo-02" || model == "hailuo-02"], the test
    [GenerateVideo] makes for the cap and again for the resolution. *)
Definition isHailuo02 (model : string) : bool :=
  String.eqb model "MiniMax-Hailuo-02" || String.eqb model "hailuo-02".

(** The body [GenerateVideo] marshals and posts. *)
Definition videoRequestBody (prompt : string) (duration : Z)
    (resolution model : string) : VideoGenerationRequest :=
  let model := if String.eqb model "" then "video-01" else model in
  let maxDuration :=
    if isHailuo02 model && negb (String.eqb resolution "1080P") then 10 else 6 in
  let duration := if duration <=? 0 then 6 else duration in
  let duration := if maxDuration <? duration then maxDuration else duration in
  let resolution := if 6 <? duration then "768P" else resolution in
  let reqBody :=
    {| vid_Model := model; vid_Prompt := prompt; vid_Duration := duration;
       vid_Resolution := "" |} in
  if isHailuo02 model then
    let resolution := if String.eqb resolution "" then "768P" else resolution in
    {| vid_Model := vid_Model reqBody; vid_Prompt := vid_Prompt reqBody;
       vid_Duration := vid_Duration reqBody; vid_Resolution := resolution |}
  else reqBody.

Definition GenerateVideo (s : MiniMaxService)
    (post : VideoGenerationRequest -> error + VideoResponse)
    (prompt : string) (duration : Z) (resolution model : string)
  : error + VideoResponse :=
  if negb (IsConfigured s) then inl ErrMiniMaxAPIKeyMissing
  else
    match post (videoRequestBody prompt duration resolution model) with
    | inl e => inl e
    | inr result =>
        if negb (StatusCode (vid_BaseResp result) =? 0)
        then inl (ErrMiniMaxRequestFailed (StatusMsg (vid_BaseResp result)))
        else inr result
    end.

(** *** The task poller *)

Record MiniMaxTaskStatus : Type := {
  st_BaseResp : BaseResp;
  Status : string;
  FileID : string;
  File_DownloadURL : string;
}.

Definition GetTaskStatus (s : MiniMaxService)
    (get : string -> error + MiniMaxTaskStatus) (taskID : string)
  : error + MiniMaxTaskStatus :=
  if negb (IsConfigured s) then inl ErrMiniMaxAPIKeyMissing
  else
    match get taskID with
    | inl e => inl e
    | inr result =>
        if negb (StatusCode (st_BaseResp result) =? 0)
        then inl (ErrMiniMaxRequestFailed (StatusMsg (st_BaseResp result)))
        else inr result
    end.

Record FileRetrieveResponse : Type := {
  fr_BaseResp : BaseResp; fr_DownloadURL : string;
}.

Definition GetFileDownloadURL (s : MiniMaxService)
    (get : string -> error + FileRetrieveResponse) (fileID : string)
  : error + string :=
  if negb (IsConfigured s) then inl ErrMiniMaxAPIKeyMissing
  else
    match get fileID with
    | inl e => inl e
    | inr result =>
        if negb (StatusCode (fr_BaseResp result) =? 0)
        then inl (ErrMiniMaxRequestFailed (StatusMsg (fr_BaseResp result)))
        else inr (fr_DownloadURL result)
    end.

(** One delivery of the 5-second ticker as the loop sees it: the clock
    when the tick is handled and what the provider would answer to the
    status query and to the file lookup made during that tick. *)
Record Tick : Type := {
  now : Z;
  status_reply : string -> error + MiniMaxTaskStatus;
  file_reply : string -> error + FileRetrieveResponse;
}.

Definition set_DownloadURL (st : MiniMaxTaskStatus) (url : string)
  : MiniMaxTaskStatus :=
  {| st_BaseResp := st_BaseResp st; Status := Status st; FileID := FileID st;
     File_DownloadURL := url |}.

(** The body of the [for { select { case <-ticker.C: ... } }] loop for one
    tick: [None] is [continue], [Some r] is [return r]. *)
Definition poll_tick (s : MiniMaxService) (taskID : string) (deadline : Z)
    (t : Tick) : option (error + MiniMaxTaskStatus) :=
  if deadline <? now t then Some (inl ErrTimeout)
  else
    match GetTaskStatus s (status_reply t) taskID with
    | inl _ => None
    | inr status =>
        if String.eqb (Status status) "Success"
           || String.eqb (Status status) "Completed" then
          if negb (String.eqb (FileID status) "") then
            match GetFileDownloadURL s (file_reply t) (FileID status) with
            | inl e => Some (inl e)
            | inr url => Some (inr (set_DownloadURL status url))
            end
          else Some (inr status)
        else if String.eqb (Status status) "Failed"
                || String.eqb (Status status) "Error" then
          Some (inl ErrMiniMaxJobFailed)
        else None
    end.

(** [WaitForCompletion] over the ticks delivered so far; [None] when the
    loop is still waiting for the next tick after the last one listed.
    [start] is [time.Now()] at the call; times and [timeout] share a unit. *)
Fixpoint poll_loop (s : MiniMaxService) (taskID : string) (deadline : Z)
    (ticks : list Tick) : option (error + MiniMaxTaskStatus) :=
  match ticks with
  | [] => None
  | t :: rest =>
      match poll_tick s taskID deadline t with
      | Some r => Some r
      | None => poll_loop s taskID deadline rest
      end
  end.

Definition WaitForCompletion (s : MiniMaxService) (start : Z)
    (ticks : list Tick) (taskID : string) (timeout : Z)
  : option (error + MiniMaxTaskStatus) :=
  let deadline := start + timeout in
  poll_loop s taskID deadline ticks.

(** *** Music, cover art and muxing *)

Record AudioSetting_ : Type := {
  Channel : Z; SampleRate : Z; Bitrate : Z; Format : string;
}.
Record MusicGenerationRequest : Type := {
  mus_Model : string; mus_Prompt : string; mus_Lyrics : string;
  mus_AudioSetting : AudioSetting_;
}.
Record MusicResponse : Type := {
  mus_BaseResp : BaseResp; mus_Audio : string; ExtraInfo : string;
}.

Definition GenerateMusic (s : MiniMaxService)
    (post : MusicGenerationRequest -> error + MusicResponse)
    (prompt lyrics format model : string) (bitrate : Z)
  : error + MusicResponse :=
  if negb (IsConfigured s) then inl ErrMiniMaxAPIKeyMissing
  else
    let reqBody :=
      {| mus_Model := model; mus_Prompt := prompt; mus_Lyrics := lyrics;
         mus_AudioSetting := {| SampleRate := 44100; Channel := 2;
                                Bitrate := bitrate; Format := format |} |} in
    match post reqBody with
    | inl e => inl e
    | inr result =>
        if negb (StatusCode (mus_BaseResp result) =? 0)
        then inl (ErrMiniMaxRequestFailed (StatusMsg (mus_BaseResp result)))
        else inr result
    end.

Record ImageGenerationRequest : Type := {
  img_Model : string; img_Prompt : string; AspectRatio : string;
}.
Record ImageGenerationResponse : Type := {
  img_BaseResp : BaseResp; ImageURLs : list string;
}.
(** A reply body: its length in bytes and what [json.Unmarshal] makes of
    it (the decoder's error text when it does not parse). *)
Record ImageReply : Type := {
  body_len : nat; decoded : string + ImageGenerationResponse;
}.

(** A call either returns or panics (a run-time fault of the goroutine). *)
Inductive call (A : Type) : Type := Panic | Return (r : A).
Arguments Panic {A}.
Arguments Return {A} r.

(** [GenerateImage] logs [string(body)[:200]], which faults on a body
    shorter than 200 bytes. *)
Definition GenerateImage (s : MiniMaxService)
    (post : ImageGenerationRequest -> error + ImageReply) (prompt : string)
  : call (error + string) :=
  if negb (IsConfigured s) then Return (inl ErrMiniMaxAPIKeyMissing)
  else
    let reqBody :=
      {| img_Model := "image-01"; img_Prompt := prompt; AspectRatio := "1:1" |} in
    match post reqBody with
    | inl e => Return (inl e)
    | inr reply =>
        if (body_len reply <? 200)%nat then Panic
        else
          match decoded reply with
          | inl msg =>
              Return (inl (ErrOther ("failed to parse image response: " ++ msg)))
          | inr result =>
              if negb (StatusCode (img_BaseResp result) =? 0)
              then Return (inl (ErrMiniMaxRequestFailed
                                  (StatusMsg (img_BaseResp result))))
              else
                match ImageURLs result with
                | url :: _ => Return (inr url)
                | [] => Return (inl (ErrOther "no image generated"))
                end
          end
    end.

End services.

(* ===================================================================== *)
(** ** [models]: the persisted records *)
(* ===================================================================== *)

Module models.

Inductive GenerationType : Type := TypeMusic | TypeVideo.

Inductive GenerationStatus : Type :=
| StatusPending | StatusProcessing | StatusCompleted | StatusFailed.

(** The columns of [User] the generation handlers read or write. *)
Record User : Type := { user_ID : N; Credits : Z }.

Record Generation : Type := {
  ID : N; UserID : N; Type_ : GenerationType; Status : GenerationStatus;
  Title : string; Prompt : string; Lyrics : string; Narration : string;
  VoiceID : string; Style : string; Duration : Z; Resolution : string;
  Model : string; OutputURL : string; ThumbnailURL : string;
  MiniMaxJobID : string; ErrorMessage : string; Metadata : string;
  CreditsCost : Z;
}.

Definition set_ID (v : N) (g : Generation) : Generation :=
  let '(Build_Generation _ b c d e f g0 h i j k l m n o p q r s) := g in
  Build_Generation v b c d e f g0 h i j k l m n o p q r s.
Definition set_Status (v : GenerationStatus) (g : Generation) : Generation :=
  let '(Build_Generation a b c _ e f g0 h i j k l m n o p q r s) := g in
  Build_Generation a b c v e f g0 h i j k l m n o p q r s.
Definition set_OutputURL (v : string) (g : Generation) : Generation :=
  let '(Build_Generation a b c d e f g0 h i j k l m _ o p q r s) := g in
  Build_Generation a b c d e f g0 h i j k l m v o p q r s.
Definition set_ThumbnailURL (v : string) (g : Generation) : Generation :=
  let '(Build_Generation a b c d e f g0 h i j k l m n _ p q r s) := g in
  Build_Generation a b c d e f g0 h i j k l m n v p q r s.
Definition set_MiniMaxJobID (v : string) (g : Generation) : Generation :=
  let '(Build_Generation a b c d e f g0 h i j k l m n o _ q r s) := g in
  Build_Generation a b c d e f g0 h i j k l m n o v q r s.
Definition set_ErrorMessage (v : string) (g : Generation) : Generation :=
  let '(Build_Generation a b c d e f g0 h i j k l m n o p _ r s) := g in
  Build_Generation a b c d e f g0 h i j k l m n o p v r s.
Definition set_Metadata (v : string) (g : Generation) : Generation :=
  let '(Build_Generation a b c d e f g0 h i j k l m n o p q _ s) := g in
  Build_Generation a b c d e f g0 h i j k l m n o p q v s.

(** [GenerationResponse] repeats the fields of [Generation] except
    [Metadata]; the snapshot is kept as a [Generation] with that field
    blank. *)
Definition ToResponse (g : Generation) : Generation := set_Metadata "" g.

Record CreditTransaction : Type := {
  tx_UserID : N; Amount : Z; tx_Type : string; Description : string;
  GenerationID : option N; BalanceBefore : Z; BalanceAfter : Z;
}.

Record GenerateMusicRequest : Type := {
  mreq_Model : string; mreq_Format : string; mreq_Bitrate : Z;
  mreq_Title : string; mreq_Prompt : string; mreq_Lyrics : string;
  mreq_Style : string;
}.

Record GenerateVideoRequest : Type := {
  vreq_Title : string; vreq_Prompt : string; vreq_Duration : Z;
  vreq_Resolution : string; vreq_Model : string; vreq_Narration : string;
  vreq_VoiceID : string;
}.

End models.

(** Go's 64-bit [int] arithmetic on [Z]. *)
Module Int64.
Definition wrap (z : Z) : Z := (z + 2 ^ 63) mod 2 ^ 64 - 2 ^ 63.
Definition sub (a b : Z) : Z := wrap (a - b).
Definition neg (a : Z) : Z := wrap (- a).
End Int64.

(* ===================================================================== *)
(** ** [handlers]: the WebSocket hub *)
(* ===================================================================== *)

Module hub.

(** A [*websocket.Conn] is a handle. *)
Definition conn : Type := N.

Record WSClient : Type := { Conn : conn; UserID : N }.

(** [WSHub.clients]; the lock plays no part in a sequential run. *)
Definition WSHub : Type := gmap conn WSClient.

Definition empty : WSHub := ∅.

Definition Register (h : WSHub) (c : conn) (userID : N) : WSHub :=
  <[c := {| Conn := c; UserID := userID |}]> h.

Definition Unregister (h : WSHub) (c : conn) : WSHub := delete c h.

(** One [client.Conn.WriteJSON(message)]: the connection written to and
    whether the write went through. [SendToUser] drops the error. *)
Record Write : Type := { to : conn; delivered : bool }.

(** The [for _, client := range h.clients] loop over the clients in the
    order the runtime enumerates them; [write_ok c] tells whether a write
    to [c] succeeds. The result lists the writes made, in order. *)
Fixpoint send_loop (write_ok : conn -> bool) (userID : N)
    (clients : list (conn * WSClient)) : list Write :=
  match clients with
  | [] => []
  | (_, client) :: rest =>
      if (UserID client =? userID)%N
      then {| to := Conn client; delivered := write_ok (Conn client) |}
           :: send_loop write_ok userID rest
      else send_loop write_ok userID rest
  end.

(** Go enumerates a map in an unspecified order: [order] is any
    enumeration of [h]. *)
Definition enumerates (order : list (conn * WSClient)) (h : WSHub) : Prop :=
  order ≡ₚ map_to_list h.

Definition SendToUser (h : WSHub) (write_ok : conn -> bool) (userID : N)
  : list Write :=
  send_loop write_ok userID (map_to_list h).

(** The hubs the program builds: from the empty registry by [Register]
    and [Unregister]. *)
Inductive built : WSHub -> Prop :=
| built_empty : built empty
| built_Register h c u : built h -> built (Register h c u)
| built_Unregister h c : built h -> built (Unregister h c).

End hub.

(* ===================================================================== *)
(** ** [handlers]: storage, notifications and helpers *)
(* ===================================================================== *)

Module handlers.

Inductive jval : Type := JStr (s : string) | JInt (z : Z).

(** A [fiber.Map] pushed through the hub: its ["type"], its
    ["generation"] snapshot and the remaining keys. *)
Record WSMessage : Type := {
  msg_type : string;
  msg_generation : models.Generation;
  msg_fields : list (string * jval);
}.

Inductive Body : Type :=
| ErrorBody (error message : string)
| ValidationFailed
| GenerationBody (message : string) (generation : models.Generation).

Record Response : Type := { code : Z; body : Body }.

(** What the handlers and pipelines act on: the [users.credits] column,
    the [generations] table with its next primary key, the
    [credit_transactions] table in insertion order, the Redis cache
    ([None] when [cache.Cache] is nil, else the patterns deleted so far)
    and the calls made to [hub.SendToUser]. The storage statements whose
    result the code drops ([db.Save], the credit [Update], the ledger
    [Create], the cache delete) are taken to go through; the one result
    the code does test, that of [db.Create(&generation)], is an input of
    the handlers. *)
Record World : Type := {
  users : gmap N Z;
  generations : gmap N models.Generation;
  next_generation : N;
  credit_transactions : list models.CreditTransaction;
  cache : option (list string);
  sent : list (N * WSMessage);
}.

(** [db.First(&user, userID)]. *)
Definition db_First_user (userID : N) (w : World) : option models.User :=
  match users w !! userID with
  | Some c => Some {| models.user_ID := userID; models.Credits := c |}
  | None => None
  end.

(** [db.Create(&generation)]: the row gets the next primary key. *)
Definition db_Create_generation (g : models.Generation) (w : World)
  : models.Generation * World :=
  let g := models.set_ID (next_generation w) g in
  (g, {| users := users w;
         generations := <[models.ID g := g]> (generations w);
         next_generation := N.succ (next_generation w);
         credit_transactions := credit_transactions w;
         cache := cache w; sent := sent w |}).

(** [db.Save(&generation)]. *)
Definition db_Save_generation (g : models.Generation) (w : World) : World :=
  {| users := users w;
     generations := <[models.ID g := g]> (generations w);
     next_generation := next_generation w;
     credit_transactions := credit_transactions w;
     cache := cache w; sent := sent w |}.

(** [db.Model(&user).Update("credits", gorm.Expr("credits - ?", n))]:
    one SQL statement, [UPDATE users SET credits = credits - n WHERE
    id = user.ID]. The Go variable [user] keeps the value it was loaded
    with. *)
Definition db_Update_credits (user : models.User) (n : Z) (w : World) : World :=
  {| users := alter (fun c => c - n) (models.user_ID user) (users w);
     generations := generations w;
     next_generation := next_generation w;
     credit_transactions := credit_transactions w;
     cache := cache w; sent := sent w |}.

(** [db.Create(&models.CreditTransaction{...})]. *)
Definition db_Create_transaction (tx : models.CreditTransaction) (w : World)
  : World :=
  {| users := users w; generations := generations w;
     next_generation := next_generation w;
     credit_transactions := credit_transactions w ++ [tx];
     cache := cache w; sent := sent w |}.

(** [if cache.Cache != nil { cache.Cache.DeletePattern(
    fmt.Sprintf("generations:%d:*", userID)) }]. *)
Definition invalidate (userID : N) (w : World) : World :=
  {| users := users w; generations := generations w;
     next_generation := next_generation w;
     credit_transactions := credit_transactions w;
     cache :=
       match cache w with
       | Some deleted =>
           Some (deleted ++ ["generations:" +:+ pretty userID +:+ ":*"])
       | None => None
       end;
     sent := sent w |}.

(** [hub.SendToUser(userID, message)]. *)
Definition SendToUser (userID : N) (m : WSMessage) (w : World) : World :=
  {| users := users w; generations := generations w;
     next_generation := next_generation w;
     credit_transactions := credit_transactions w;
     cache := cache w; sent := sent w ++ [(userID, m)] |}.

(** [hex.DecodeString] succeeds on an even number of hexadecimal digits. *)
Definition is_hex (a : ascii) : bool :=
  let n := N_of_ascii a in
  (((48 <=? n) && (n <=? 57)) || ((97 <=? n) && (n <=? 102))
   || ((65 <=? n) && (n <=? 70)))%N.

Definition hex_ok (s : string) : bool :=
  Nat.even (String.length s) && forallb is_hex (list_ascii_of_string s).

Definition colors : list string :=
  ["6366f1"; "8b5cf6"; "ec4899"; "f43f5e"; "f97316"; "eab308"; "22c55e";
   "14b8a6"; "06b6d4"; "3b82f6"].

(** The glyph bytes of the placeholder's [text] parameter as they stand
    in the source file. *)
Definition glyph : string :=
  string_of_list_ascii
    (map ascii_of_N [195; 162; 226; 132; 162; 194; 170]%N).

(** The outcome of a background pipeline: it ran to its end, it faulted,
    or it is still inside the poll loop. Each carries the world as the
    pipeline left it. *)
Inductive Outcome : Type :=
| Done (w : World) | Crashed (w : World) | Waiting (w : World).

Definition world_of (o : Outcome) : World :=
  match o with Done w | Crashed w | Waiting w => w end.

(** A goroutine started by a handler, with the variables it closes over. *)
Inductive Task : Type :=
| MusicTask (userID : N) (user : models.User) (generation : models.Generation)
    (req : models.GenerateMusicRequest)
| VideoTask (userID : N) (user : models.User) (generation : models.Generation)
    (req : models.GenerateVideoRequest) (model : string) (duration : Z)
    (resolution : string) (creditCost : Z).

(** What the provider, the file system and the clock do during one run
    of a pipeline. *)
Record MusicEnv : Type := {
  music_post : services.MusicGenerationRequest ->
               services.error + services.MusicResponse;
  write_file : string -> option services.error;
  image_post : services.ImageGenerationRequest ->
               services.error + services.ImageReply;
}.

Record VideoEnv : Type := {
  video_post : services.VideoGenerationRequest ->
               services.error + services.VideoResponse;
  start : Z;
  ticks : list services.Tick;
  tts_post : services.TTSRequest -> services.error + services.TTSResponse;
  combine : string -> string -> string -> option services.error;
}.

(** The failure epilogue each pipeline repeats: mark the job failed,
    save it, drop the cached listings, notify. *)
Definition fail_generation (userID : N) (generation : models.Generation)
    (msg : string) (w : World) : World :=
  let generation := models.set_Status models.StatusFailed generation in
  let generation := models.set_ErrorMessage msg generation in
  let w := db_Save_generation generation w in
  let w := invalidate userID w in
  SendToUser userID
    {| msg_type := "generation_failed";
       msg_generation := models.ToResponse generation;
       msg_fields := [("error", JStr msg)] |} w.

Definition progress (userID : N) (generation : models.Generation)
    (message : string) (step totalSteps : Z) (w : World) : World :=
  SendToUser userID
    {| msg_type := "generation_progress";
       msg_generation := models.ToResponse generation;
       msg_fields := [("message", JStr message); ("step", JInt step);
                      ("totalSteps", JInt totalSteps)] |} w.

(** The goroutine of [GenerateMusic]. *)
Definition music_pipeline (minimax : services.MiniMaxService) (env : MusicEnv)
    (userID : N) (user : models.User) (generation : models.Generation)
    (req : models.GenerateMusicRequest) (w : World) : Outcome :=
  let fullPrompt :=
    if negb (String.eqb (models.mreq_Style req) "")
    then models.mreq_Style req +:+ ", " +:+ models.mreq_Prompt req
    else models.mreq_Prompt req in
  let w := progress userID generation "Creating music..." 1 2 w in
  let format :=
    if String.eqb (models.mreq_Format req) "" then "mp3"
    else models.mreq_Format req in
  let bitrate :=
    if models.mreq_Bitrate req <=? 0 then 256000 else models.mreq_Bitrate req in
  let model :=
    if String.eqb (models.mreq_Model req) "" then "music-2.0"
    else models.mreq_Model req in
  match services.GenerateMusic minimax (music_post env) fullPrompt
          (models.mreq_Lyrics req) format model bitrate with
  | inl err => Done (fail_generation userID generation (services.Error err) w)
  | inr resp =>
      let audioData := services.mus_Audio resp in
      let fileName := pretty (models.ID generation) +:+ ".mp3" in
      let filePath := "uploads/audio/" +:+ fileName in
      let audio : string + string :=
        if negb (String.eqb audioData "") then
          if String.prefix "http" audioData then inr audioData
          else if negb (hex_ok audioData) then inl "Failed to decode audio data"
          else
            match write_file env filePath with
            | Some _ => inl "Failed to save audio file"
            | None => inr ("/uploads/audio/" +:+ fileName)
            end
        else inr "" in
      match audio with
      | inl msg => Done (fail_generation userID generation msg w)
      | inr audioURL =>
          let generation := models.set_OutputURL audioURL generation in
          let w := progress userID generation "Creating album art..." 2 2 w in
          let artPrompt :=
            "Album cover art, " +:+ models.mreq_Style req +:+ " music, "
            +:+ models.mreq_Title req
            +:+ ", modern design, professional artwork, high quality, artistic, beautiful colors" in
          match services.GenerateImage minimax (image_post env) artPrompt with
          | services.Panic => Crashed w
          | services.Return art =>
              let generation :=
                match art with
                | inl _ =>
                    let colorIdx :=
                      N.to_nat (models.ID generation mod N.of_nat (length colors)) in
                    models.set_ThumbnailURL
                      ("https://placehold.co/400x400/" +:+ nth colorIdx colors ""
                       +:+ "/white?text=" +:+ glyph) generation
                | inr albumArtURL => models.set_ThumbnailURL albumArtURL generation
                end in
              let generation :=
                models.set_Status models.StatusCompleted generation in
              let generation :=
                models.set_Metadata (services.ExtraInfo resp) generation in
              let w := db_Save_generation generation w in
              let w := invalidate userID w in
              let w := db_Update_credits user 1 w in
              let w :=
                db_Create_transaction
                  {| models.tx_UserID := userID;
                     models.Amount := -1;
                     models.tx_Type := "usage";
                     models.Description := "Music generation";
                     models.GenerationID := Some (models.ID generation);
                     models.BalanceBefore := models.Credits user;
                     models.BalanceAfter := Int64.sub (models.Credits user) 1 |} w in
              Done (SendToUser userID
                      {| msg_type := "generation_completed";
                         msg_generation := models.ToResponse generation;
                         msg_fields := [("audioUrl", JStr audioURL)] |} w)
          end
      end
  end.

(** The poll timeout the video goroutine picks, in seconds. *)
Definition timeout (model : string) : Z :=
  if String.eqb model "MiniMax-Hailuo-02" then 600 else 300.

(** The narration step of the video goroutine: the job (its
    [ErrorMessage] may be set), the video URL to publish and the world. *)
Definition narrate (minimax : services.MiniMaxService) (env : VideoEnv)
    (userID : N) (generation : models.Generation)
    (req : models.GenerateVideoRequest) (duration : Z) (videoURL : string)
    (w : World) : models.Generation * string * World :=
  let w := progress userID generation "Generating voiceover..." 2 3 w in
  let optimalSpeed :=
    fst (services.CalculateOptimalSpeed (models.vreq_Narration req) duration) in
  let optimalSpeed :=
    if F64.lt optimalSpeed F64.c1_0 then F64.c1_0 else optimalSpeed in
  match services.GenerateTTSWithSpeed minimax (tts_post env)
          (models.vreq_Narration req) (models.vreq_VoiceID req) optimalSpeed with
  | inl err =>
      (models.set_ErrorMessage ("TTS failed: " +:+ services.Error err) generation,
       videoURL, w)
  | inr ttsResp =>
      let w :=
        progress userID generation "Combining video with voiceover..." 3 3 w in
      let outputFileName := pretty (models.ID generation) +:+ "_with_audio.mp4" in
      let outputPath := "uploads/video/" +:+ outputFileName in
      match combine env videoURL (services.tts_Audio ttsResp) outputPath with
      | Some err =>
          (models.set_ErrorMessage ("Combine failed: " +:+ services.Error err)
             generation, videoURL, w)
      | None => (generation, "/uploads/video/" +:+ outputFileName, w)
      end
  end.

(** The goroutine of [GenerateVideo]. *)
Definition video_pipeline (minimax : services.MiniMaxService) (env : VideoEnv)
    (userID : N) (user : models.User) (generation : models.Generation)
    (req : models.GenerateVideoRequest) (model : string) (duration : Z)
    (resolution : string) (creditCost : Z) (w : World) : Outcome :=
  let totalSteps :=
    if negb (String.eqb (models.vreq_Narration req) "") then 3 else 2 in
  let w := progress userID generation "Generating video..." 1 totalSteps w in
  match services.GenerateVideo minimax (video_post env)
          (models.vreq_Prompt req) duration resolution model with
  | inl err => Done (fail_generation userID generation (services.Error err) w)
  | inr resp =>
      let generation :=
        models.set_MiniMaxJobID (services.TaskID resp) generation in
      let w := db_Save_generation generation w in
      let w := invalidate userID w in
      match services.WaitForCompletion minimax (start env) (ticks env)
              (services.TaskID resp) (timeout model) with
      | None => Waiting w
      | Some (inl err) =>
          Done (fail_generation userID generation (services.Error err) w)
      | Some (inr status) =>
          let videoURL := services.File_DownloadURL status in
          let '(generation, videoURL, w) :=
            if negb (String.eqb (models.vreq_Narration req) "")
            then narrate minimax env userID generation req duration videoURL w
            else (generation, videoURL, w) in
          let generation :=
            models.set_Status models.StatusCompleted generation in
          let generation := models.set_OutputURL videoURL generation in
          let w := db_Save_generation generation w in
          let w := invalidate userID w in
          let w := db_Update_credits user creditCost w in
          let w :=
            db_Create_transaction
              {| models.tx_UserID := userID;
                 models.Amount := Int64.neg creditCost;
                 models.tx_Type := "usage";
                 models.Description := "Video generation";
                 models.GenerationID := Some (models.ID generation);
                 models.BalanceBefore := models.Credits user;
                 models.BalanceAfter :=
                   Int64.sub (models.Credits user) creditCost |} w in
          Done (SendToUser userID
                  {| msg_type := "generation_completed";
                     msg_generation := models.ToResponse generation;
                     msg_fields := [("videoUrl", JStr videoURL)] |} w)
      end
  end.

Section Handlers.

(** Request validation and sanitising belong to [middleware]; the
    handlers are modelled for any such functions. *)
Variable SanitizeInput : string -> string.
Variable music_valid : models.GenerateMusicRequest -> bool.
Variable video_valid : models.GenerateVideoRequest -> bool.

(** The synchronous part of the [GenerateMusic] handler. [body] is the
    parsed request ([None] when [BodyParser] fails) and [db_up] tells
    whether [db.Create(&generation)] succeeds. The result is the reply,
    the world after the handler, and the goroutine it started. *)
Definition GenerateMusic (minimax : services.MiniMaxService) (userID : N)
    (body : option models.GenerateMusicRequest) (db_up : bool) (w : World)
  : Response * World * option Task :=
  match body with
  | None =>
      ({| code := 400; body := ErrorBody "Bad Request" "Invalid request body" |},
       w, None)
  | Some req =>
      if negb (music_valid req) then
        ({| code := 400; body := ValidationFailed |}, w, None)
      else
        match db_First_user userID w with
        | None =>
            ({| code := 404; body := ErrorBody "Not Found" "User not found" |},
             w, None)
        | Some user =>
            if models.Credits user <? 1 then
              ({| code := 402;
                  body := ErrorBody "Payment Required"
                            "Insufficient credits. Please upgrade your plan." |},
               w, None)
            else
              let generation :=
                {| models.ID := 0%N; models.UserID := userID;
                   models.Type_ := models.TypeMusic;
                   models.Status := models.StatusProcessing;
                   models.Title := SanitizeInput (models.mreq_Title req);
                   models.Prompt := SanitizeInput (models.mreq_Prompt req);
                   models.Lyrics := SanitizeInput (models.mreq_Lyrics req);
                   models.Narration := ""; models.VoiceID := "";
                   models.Style := SanitizeInput (models.mreq_Style req);
                   models.Duration := 0; models.Resolution := "";
                   models.Model := ""; models.OutputURL := "";
                   models.ThumbnailURL := ""; models.MiniMaxJobID := "";
                   models.ErrorMessage := ""; models.Metadata := "";
                   models.CreditsCost := 1 |} in
              if negb db_up then
                ({| code := 500;
                    body := ErrorBody "Internal Server Error"
                              "Failed to create generation" |}, w, None)
              else
                let '(generation, w) := db_Create_generation generation w in
                let w :=
                  SendToUser userID
                    {| msg_type := "generation_started";
                       msg_generation := models.ToResponse generation;
                       msg_fields := [] |} w in
                if negb (services.IsConfigured minimax) then
                  let generation :=
                    models.set_Status models.StatusCompleted generation in
                  let generation :=
                    models.set_OutputURL
                      "https://www.soundhelix.com/examples/mp3/SoundHelix-Song-1.mp3"
                      generation in
                  let w := db_Save_generation generation w in
                  let w := invalidate userID w in
                  let w :=
                    SendToUser userID
                      {| msg_type := "generation_completed";
                         msg_generation := models.ToResponse generation;
                         msg_fields := [] |} w in
                  ({| code := 200;
                      body := GenerationBody "Music generated (demo mode)"
                                (models.ToResponse generation) |}, w, None)
                else
                  ({| code := 202;
                      body := GenerationBody "Music generation started"
                                (models.ToResponse generation) |},
                   w, Some (MusicTask userID user generation req))
        end
  end.

(** The text of the 400 reply to a narration that cannot fit. *)
Definition narration_too_long_message (narration : string) (duration : Z)
  : string :=
  let wordCount := Z.of_nat (length (GoStrings.Fields narration)) in
  let maxWords :=
    F64.to_int (F64.mul (F64.mul (F64.of_int duration) F64.c2_5) F64.c1_3) in
  "Narration has " +:+ pretty wordCount +:+ " words, max ~"
  +:+ pretty maxWords +:+ " words for " +:+ pretty duration +:+ "s video.".

(** The synchronous part of the [GenerateVideo] handler. *)
Definition GenerateVideo (minimax : services.MiniMaxService) (userID : N)
    (body : option models.GenerateVideoRequest) (db_up : bool) (w : World)
  : Response * World * option Task :=
  match body with
  | None =>
      ({| code := 400; body := ErrorBody "Bad Request" "Invalid request body" |},
       w, None)
  | Some req =>
      if negb (video_valid req) then
        ({| code := 400; body := ValidationFailed |}, w, None)
      else
        match db_First_user userID w with
        | None =>
            ({| code := 404; body := ErrorBody "Not Found" "User not found" |},
             w, None)
        | Some user =>
            let creditCost :=
              if negb (String.eqb (models.vreq_Narration req) "") then 3 else 2 in
            if models.Credits user <? creditCost then
              ({| code := 402;
                  body := ErrorBody "Payment Required"
                            "Insufficient credits. Please upgrade your plan." |},
               w, None)
            else
              let model :=
                if String.eqb (models.vreq_Model req) "" then "video-01"
                else models.vreq_Model req in
              let duration :=
                if models.vreq_Duration req =? 0 then 6
                else models.vreq_Duration req in
              let resolution :=
                if String.eqb (models.vreq_Resolution req) "" then "768P"
                else models.vreq_Resolution req in
              if negb (String.eqb (models.vreq_Narration req) "")
                 && match snd (services.CalculateOptimalSpeed
                                 (models.vreq_Narration req) duration) with
                    | Some services.ErrNarrationTooLong => true
                    | _ => false
                    end
              then
                ({| code := 400;
                    body := ErrorBody "Narration Too Long"
                              (narration_too_long_message
                                 (models.vreq_Narration req) duration) |},
                 w, None)
              else
                let generation :=
                  {| models.ID := 0%N; models.UserID := userID;
                     models.Type_ := models.TypeVideo;
                     models.Status := models.StatusProcessing;
                     models.Title := SanitizeInput (models.vreq_Title req);
                     models.Prompt := SanitizeInput (models.vreq_Prompt req);
                     models.Lyrics := "";
                     models.Narration :=
                       SanitizeInput (models.vreq_Narration req);
                     models.VoiceID := models.vreq_VoiceID req;
                     models.Style := ""; models.Duration := duration;
                     models.Resolution := resolution; models.Model := model;
                     models.OutputURL := ""; models.ThumbnailURL := "";
                     models.MiniMaxJobID := ""; models.ErrorMessage := "";
                     models.Metadata := "";
                     models.CreditsCost := creditCost |} in
                if negb db_up then
                  ({| code := 500;
                      body := ErrorBody "Internal Server Error"
                                "Failed to create generation" |}, w, None)
                else
                  let '(generation, w) := db_Create_generation generation w in
                  let w :=
                    SendToUser userID
                      {| msg_type := "generation_started";
                         msg_generation := models.ToResponse generation;
                         msg_fields := [] |} w in
                  if negb (services.IsConfigured minimax) then
                    let generation :=
                      models.set_Status models.StatusCompleted generation in
                    let generation :=
                      models.set_OutputURL
                        "https://www.w3schools.com/html/mov_bbb.mp4" generation in
                    let w := db_Save_generation generation w in
                    let w := invalidate userID w in
                    let w :=
                      SendToUser userID
                        {| msg_type := "generation_completed";
                           msg_generation := models.ToResponse generation;
                           msg_fields := [] |} w in
                    ({| code := 200;
                        body := GenerationBody "Video generated (demo mode)"
                                  (models.ToResponse generation) |}, w, None)
                  else
                    ({| code := 202;
                        body := GenerationBody "Video generation started"
                                  (models.ToResponse generation) |},
                     w, Some (VideoTask userID user generation req model
                                duration resolution creditCost))
        end
  end.

End Handlers.

End handlers.

(* ===================================================================== *)
(** ** The running service: requests and goroutines interleaved *)
(* ===================================================================== *)

Module system.
Import handlers.

(** The world together with the goroutines started and not yet run. *)
Record System : Type := { world : World; tasks : list Task }.

Definition init (credits : gmap N Z) (redis : bool) : System :=
  {| world := {| users := credits; generations := ∅; next_generation := 1%N;
                 credit_transactions := [];
                 cache := if redis then Some [] else None; sent := [] |};
     tasks := [] |}.

Definition spawn (t : option Task) (ts : list Task) : list Task :=
  match t with Some t => ts ++ [t] | None => ts end.

(** The system once a handler has replied: its world, and the goroutine
    it started added to the others. *)
Definition after_handler (r : Response * World * option Task)
    (ts : list Task) : System :=
  {| world := snd (fst r); tasks := spawn (snd r) ts |}.

Definition task_generation (t : Task) : models.Generation :=
  match t with
  | MusicTask _ _ g _ => g
  | VideoTask _ _ g _ _ _ _ _ => g
  end.

Section Run.

Variable SanitizeInput : string -> string.
Variable music_valid : models.GenerateMusicRequest -> bool.
Variable video_valid : models.GenerateVideoRequest -> bool.
(** The one client every handler shares, built from the configuration. *)
Variable minimax : services.MiniMaxService.

(** The goroutine body of a task. *)
Definition run (t : Task) (menv : MusicEnv) (venv : VideoEnv) (w : World)
  : Outcome :=
  match t with
  | MusicTask userID user generation req =>
      music_pipeline minimax menv userID user generation req w
  | VideoTask userID user generation req model duration resolution creditCost =>
      video_pipeline minimax venv userID user generation req model duration
        resolution creditCost w
  end.

(** One atomic move of the service: a request is handled up to its
    reply, or a started goroutine runs from its first statement to its
    last. Goroutines of different jobs write disjoint rows but for the
    single-statement credit update, so a run is taken in one piece. A
    run that faults ends the Go process; the moves listed after it are
    those of the service started again over the same tables. *)
Inductive step : System -> System -> Prop :=
| step_music s userID body db_up :
    step s (after_handler
              (GenerateMusic SanitizeInput music_valid minimax userID body
                 db_up (world s)) (tasks s))
| step_video s userID body db_up :
    step s (after_handler
              (GenerateVideo SanitizeInput video_valid minimax userID body
                 db_up (world s)) (tasks s))
| step_run w pre t post menv venv :
    step {| world := w; tasks := pre ++ t :: post |}
         {| world := world_of (run t menv venv w); tasks := pre ++ post |}.

Definition reachable (s0 s : System) : Prop := rtc step s0 s.

(** A schedule names the moves one after the other: a request, or the
    run of the [n]-th goroutine in waiting. *)
Inductive Move : Type :=
| MusicRequest (userID : N) (body : option models.GenerateMusicRequest)
    (db_up : bool)
| VideoRequest (userID : N) (body : option models.GenerateVideoRequest)
    (db_up : bool)
| RunTask (n : nat) (menv : MusicEnv) (venv : VideoEnv).

Definition move (m : Move) (s : System) : option System :=
  match m with
  | MusicRequest userID body db_up =>
      Some (after_handler
              (GenerateMusic SanitizeInput music_valid minimax userID body
                 db_up (world s)) (tasks s))
  | VideoRequest userID body db_up =>
      Some (after_handler
              (GenerateVideo SanitizeInput video_valid minimax userID body
                 db_up (world s)) (tasks s))
  | RunTask n menv venv =>
      match tasks s !! n with
      | Some t =>
          Some {| world := world_of (run t menv venv (world s));
                  tasks := take n (tasks s) ++ drop (S n) (tasks s) |}
      | None => None
      end
  end.

Fixpoint schedule (ms : list Move) (s : System) : option System :=
  match ms with
  | [] => Some s
  | m :: rest =>
      match move m s with
      | Some s' => schedule rest s'
      | None => None
      end
  end.

End Run.

(** A ledger row of the job with the given amount exists. *)
Definition has_entry (id : N) (amount : Z) (w : World) : Prop :=
  ∃ tx, tx ∈ credit_transactions w
        ∧ models.GenerationID tx = Some id ∧ models.Amount tx = amount.

(** The sum of the amounts of a user's ledger rows. *)
Definition ledger_sum (userID : N) (w : World) : Z :=
  foldr Z.add 0
    (map models.Amount
       (filter (fun tx => models.tx_UserID tx = userID) (credit_transactions w))).

(** The user's most recent ledger row. *)
Definition last_entry (userID : N) (w : World) : option models.CreditTransaction :=
  last (filter (fun tx => models.tx_UserID tx = userID) (credit_transactions w)).

End system.

(* ===================================================================== *)
(** ** The design's wording of the speed calculator *)
(* ===================================================================== *)

Module design.
Import F64.

Inductive speed : Type := Speed (s : float64) | NarrationTooLong.

(** What a caller of the Go function observes. *)
Definition observed (r : float64 * option services.error) : speed :=
  match snd r with
  | Some _ => NarrationTooLong
  | None => Speed (fst r)
  end.

(** [EstimateSpeed] in the order the design lists its cases; [int_part]
    is the rounding used to cut [required] to one decimal place. *)
Definition EstimateSpeed (int_part : float64 -> Z) (text : string)
    (videoDurationSeconds : Z) : speed :=
  let wordCount := Z.of_nat (length (GoStrings.Fields text)) in
  let estimatedSeconds := div (of_int wordCount) c2_5 in
  let target := sub (of_int videoDurationSeconds) c0_5 in
  let target :=
    if le target zero then of_int videoDurationSeconds else target in
  if le estimatedSeconds target then Speed c1_0
  else
    let required := div estimatedSeconds target in
    if gt required c1_5 then NarrationTooLong
    else if gt required c1_3 then Speed c1_3
    else Speed (div (of_int (int_with int_part (mul required c10))) c10).

(** The claim with "truncated downward" read as the floor. *)
Definition floors_everywhere : Prop :=
  ∀ text d, observed (services.CalculateOptimalSpeed text d)
            = EstimateSpeed floor text d.

End design.

(* ===================================================================== *)
(** ** The speed and the voice put in a text-to-speech request *)
(* ===================================================================== *)

Module speech.
Import F64.

(** The speed put in the request body. *)
Definition sent_speed (text voiceID : string) (speed : float64) : float64 :=
  services.Speed (services.VoiceSetting (services.ttsRequestBody text voiceID speed)).

Definition sent_voice (text voiceID : string) (speed : float64) : string :=
  services.VoiceID (services.VoiceSetting (services.ttsRequestBody text voiceID speed)).

End speech.

(* ===================================================================== *)
(** ** The duration cap of a video request *)
(* ===================================================================== *)

Module clamps.


End clamps.

(* ===================================================================== *)
(** ** Labels and ticks of the poll loop *)
(* ===================================================================== *)

Module polling.
Import services.

Definition success_label (l : string) : bool :=
  String.eqb l "Success" || String.eqb l "Completed".

Definition failure_label (l : string) : bool :=
  String.eqb l "Failed" || String.eqb l "Error".

(** Ticks that leave the loop running. *)
Definition continues (s : MiniMaxService) (taskID : string) (deadline : Z)
    (t : Tick) : Prop :=
  poll_tick s taskID deadline t = None.

(** The claim's first clause, as stated: a success label ends the loop
    with a success. *)
Definition success_label_succeeds : Prop :=
  ∀ s taskID start timeout t rest status,
    now t <= start + timeout →
    GetTaskStatus s (status_reply t) taskID = inr status →
    success_label (Status status) = true →
    ∃ final, WaitForCompletion s start (t :: rest) taskID timeout
             = Some (inr final).

Definition ok : BaseResp := {| StatusCode := 0; StatusMsg := "" |}.

(** A tick at second 5 on which the task reports "Success" with a file
    identifier whose lookup is refused. *)
Definition refused_lookup : Tick :=
  {| now := 5;
     status_reply := fun _ =>
       inr {| st_BaseResp := ok; Status := "Success"; FileID := "f-1";
              File_DownloadURL := "" |};
     file_reply := fun _ => inl (ErrOther "connection reset") |}.

(** A tick at second [at_] on which the task reports "Processing". *)
Definition processing (at_ : Z) : Tick :=
  {| now := at_;
     status_reply := fun _ =>
       inr {| st_BaseResp := ok; Status := "Processing"; FileID := "";
              File_DownloadURL := "" |};
     file_reply := fun _ => inl (ErrOther "unused") |}.

End polling.

(* ===================================================================== *)
(** ** Writes of a broadcast *)
(* ===================================================================== *)

Module fanout.
Import hub.

Definition write_to (write_ok : conn → bool) (client : WSClient) : Write :=
  {| to := Conn client; delivered := write_ok (Conn client) |}.

(** The number of writes made to a connection. *)
Definition writes_to (c : conn) (ws : list Write) : nat :=
  length (filter (fun wr => to wr = c) ws).

(** Three live connections of user 7, the second of which fails on send,
    and one connection of user 8. *)
Definition three_live : WSHub :=
  Register (Register (Register (Register empty 1%N 7%N) 2%N 7%N) 3%N 7%N)
    4%N 8%N.

Definition second_fails (c : conn) : bool := negb (c =? 2)%N.

End fanout.

(* ===================================================================== *)
(** ** Replies and costs of a submission *)
(* ===================================================================== *)

Module submission.
Import handlers.

Definition payment_required : Response :=
  {| code := 402;
     body := ErrorBody "Payment Required"
               "Insufficient credits. Please upgrade your plan." |}.

(** The cost of a video job. *)
Definition video_cost (req : models.GenerateVideoRequest) : Z :=
  if String.eqb (models.vreq_Narration req) "" then 2 else 3.

(** The duration the video handler works with. *)
Definition effective_duration (req : models.GenerateVideoRequest) : Z :=
  if models.vreq_Duration req =? 0 then 6 else models.vreq_Duration req.

Definition too_long (req : models.GenerateVideoRequest) : Prop :=
  snd (services.CalculateOptimalSpeed (models.vreq_Narration req)
         (effective_duration req)) = Some services.ErrNarrationTooLong.

(** The word limit the 400 reply states for a duration. *)
Definition stated_limit (duration : Z) : Z :=
  F64.to_int (F64.mul (F64.mul (F64.of_int duration) F64.c2_5) F64.c1_3).

(** The claim's last clause, as stated: the limit in the message is the
    maximum the speed calculator allows for the duration, so a narration
    is reported too long exactly when it has more words than that. *)
Definition message_states_maximum : Prop :=
  ∀ req, models.vreq_Narration req ≠ "" →
    (too_long req
     ↔ stated_limit (effective_duration req)
       < Z.of_nat (length (GoStrings.Fields (models.vreq_Narration req)))).

(** The job a reply carries has the given kind and cost, and so has the
    row stored under its key. *)
Definition replies_job (resp : Response) (w' : World)
    (kind : models.GenerationType) (cost : Z) : Prop :=
  ∀ msg g, body resp = GenerationBody msg g →
    models.Type_ g = kind ∧ models.CreditsCost g = cost
    ∧ ∃ g', generations w' !! models.ID g = Some g'
            ∧ models.Type_ g' = kind ∧ models.CreditsCost g' = cost.

End submission.

(* ===================================================================== *)
(** ** Jobs, goroutines and the ledger: effects and invariants *)
(* ===================================================================== *)

Module books.
Import handlers system.

(** The job, the cost, the user identifier and the user record a
    goroutine closes over. *)
Definition task_id (t : Task) : N := models.ID (task_generation t).

Definition task_cost (t : Task) : Z :=
  match t with
  | MusicTask _ _ _ _ => 1
  | VideoTask _ _ _ _ _ _ _ creditCost => creditCost
  end.

(** The job a goroutine holds is in progress, recorded with the cost the
    goroutine will debit, which is 1, 2 or 3. *)
Definition task_ok (t : Task) : Prop :=
  models.CreditsCost (task_generation t) = task_cost t
  ∧ models.Status (task_generation t) = models.StatusProcessing
  ∧ (task_cost t = 1 ∨ task_cost t = 2 ∨ task_cost t = 3)
  ∧ match t with
    | MusicTask _ _ _ _ => True
    | VideoTask _ _ _ _ _ _ _ creditCost => creditCost = 2 ∨ creditCost = 3
    end.

Definition task_userID (t : Task) : N :=
  match t with
  | MusicTask userID _ _ _ => userID
  | VideoTask userID _ _ _ _ _ _ _ => userID
  end.

Definition task_user (t : Task) : models.User :=
  match t with
  | MusicTask _ user _ _ => user
  | VideoTask _ user _ _ _ _ _ _ => user
  end.

(** What one run of a job's goroutine does to the tables: nothing; or
    the job's row is rewritten, keeping key and cost, and either the row
    is completed and exactly one ledger row of minus the cost is
    appended for the job, or the row is not completed and the ledger is
    as before. *)
Definition job_effect (id : N) (cost : Z) (w w' : World) : Prop :=
  next_generation w' = next_generation w
  ∧ ((generations w' = generations w
      ∧ credit_transactions w' = credit_transactions w)
     ∨ ∃ g', generations w' = <[id := g']> (generations w)
             ∧ models.ID g' = id ∧ models.CreditsCost g' = cost
             ∧ ((models.Status g' = models.StatusCompleted
                 ∧ ∃ tx, credit_transactions w' = credit_transactions w ++ [tx]
                         ∧ models.GenerationID tx = Some id
                         ∧ models.Amount tx = - cost)
                ∨ (models.Status g' ≠ models.StatusCompleted
                   ∧ credit_transactions w' = credit_transactions w))).

(** What a handler does to the tables: nothing, with no goroutine
    started; or it inserts one row under the next key and, when the
    provider is configured, leaves it in progress and starts its
    goroutine, else completes it on the spot. The ledger is untouched. *)
Definition submit_effect (configured : bool) (w : World)
    (r : Response * World * option Task) : Prop :=
  (snd (fst r) = w ∧ snd r = None)
  ∨ (next_generation (snd (fst r)) = N.succ (next_generation w)
     ∧ credit_transactions (snd (fst r)) = credit_transactions w
     ∧ users (snd (fst r)) = users w
     ∧ ∃ g, models.ID g = next_generation w
            ∧ generations (snd (fst r))
              = <[next_generation w := g]> (generations w)
            ∧ if configured
              then models.Status g = models.StatusProcessing
                   ∧ ∃ t, snd r = Some t ∧ task_generation t = g ∧ task_ok t
              else models.Status g = models.StatusCompleted ∧ snd r = None).

(** What one run of a goroutine does to the balance and the ledger:
    nothing, or one debit of the cost together with one ledger row filled
    from the user record the goroutine holds. *)
Definition debit_effect (userID : N) (user : models.User) (cost : Z)
    (w w' : World) : Prop :=
  (credit_transactions w' = credit_transactions w ∧ users w' = users w)
  ∨ ∃ tx, credit_transactions w' = credit_transactions w ++ [tx]
          ∧ users w' = alter (fun c => c - cost) (models.user_ID user) (users w)
          ∧ models.tx_UserID tx = userID
          ∧ models.Amount tx = - cost
          ∧ models.BalanceBefore tx = models.Credits user
          ∧ models.BalanceAfter tx = Int64.sub (models.Credits user) cost.

(** The goroutine a handler starts holds the user's row as it stands at
    that moment, and the balance in it covers the cost. *)
Definition task_funded (w : World) (t : Task) : Prop :=
  models.user_ID (task_user t) = task_userID t
  ∧ users w !! task_userID t = Some (models.Credits (task_user t))
  ∧ 1 <= task_cost t <= models.Credits (task_user t)
  ∧ task_ok t.

(** The invariant tying job rows, ledger rows and waiting goroutines:
    rows sit under their own key below the next key; every ledger row
    belongs to a completed job and carries minus its cost; with the
    provider configured every completed job has such a row; a waiting
    goroutine's job is stored in progress, and no two goroutines share a
    job; with the provider unconfigured there is no goroutine, no ledger
    row, and every job is completed. *)
Record Inv (configured : bool) (s : System) : Prop := {
  inv_key : ∀ id g, generations (world s) !! id = Some g →
              models.ID g = id ∧ (id < next_generation (world s))%N;
  inv_tx : ∀ tx, tx ∈ credit_transactions (world s) →
             ∃ id g, models.GenerationID tx = Some id
                     ∧ generations (world s) !! id = Some g
                     ∧ models.Status g = models.StatusCompleted
                     ∧ models.Amount tx = - models.CreditsCost g;
  inv_done : configured = true →
             ∀ id g, generations (world s) !! id = Some g →
               models.Status g = models.StatusCompleted →
               has_entry id (- models.CreditsCost g) (world s);
  inv_task : ∀ t, t ∈ tasks s →
               task_ok t
               ∧ ∃ g, generations (world s) !! task_id t = Some g
                      ∧ models.Status g = models.StatusProcessing;
  inv_nodup : NoDup (task_id <$> tasks s);
  inv_demo : configured = false →
             tasks s = [] ∧ credit_transactions (world s) = []
             ∧ ∀ id g, generations (world s) !! id = Some g →
                 models.Status g = models.StatusCompleted;
}.

(** The books of the service started with the balances [credits0]. *)
Record Books (credits0 : gmap N Z) (s : System) : Prop := {
  books_rows : ∀ tx, tx ∈ credit_transactions (world s) →
                 models.BalanceAfter tx
                 = models.BalanceBefore tx + models.Amount tx;
  books_sum : ∀ u, users (world s) !! u
                   = (fun c0 => c0 + ledger_sum u (world s)) <$> credits0 !! u;
  books_bound : ∀ u c, users (world s) !! u = Some c → c <= F64.max_int64;
  books_task : ∀ t, t ∈ tasks s →
                 models.user_ID (task_user t) = task_userID t
                 ∧ 1 <= task_cost t <= models.Credits (task_user t)
                 ∧ models.Credits (task_user t) <= F64.max_int64
                 ∧ task_ok t;
}.

(** The claim as stated: on every path, a ledger row of minus the cost
    exists for a job exactly when the job is completed. *)
Definition entry_iff_completed_on_every_path : Prop :=
  ∀ SanitizeInput music_valid video_valid minimax credits redis s id g,
    reachable SanitizeInput music_valid video_valid minimax
      (init credits redis) s →
    generations (world s) !! id = Some g →
    (has_entry id (- models.CreditsCost g) (world s)
     ↔ models.Status g = models.StatusCompleted).

(** The claim's last clause, as stated: a user's balance is the
    balance-after of the user's latest ledger row. *)
Definition latest_row_is_balance : Prop :=
  ∀ SanitizeInput music_valid video_valid minimax credits redis s u tx,
    reachable SanitizeInput music_valid video_valid minimax
      (init credits redis) s →
    last_entry u (world s) = Some tx →
    users (world s) !! u = Some (models.BalanceAfter tx).

(** The claim as stated: every model of the Hailuo-02 family is polled
    for 600 seconds. *)
Definition family_polls_600 : Prop :=
  ∀ model, services.isHailuo02 model = true → timeout model = 600.

End books.

(* ===================================================================== *)
(** ** Concrete users, requests, providers and schedules *)
(* ===================================================================== *)

Module runs.
Import handlers system.

(** [n] one-letter words separated by single spaces. *)
Fixpoint words (n : nat) : string :=
  match n with
  | O => ""
  | S k => String "w" (String " " (words k))
  end.

(** Middleware that accepts every request and leaves text as it is. *)
Definition keep (s : string) : string := s.

Definition any_music (_ : models.GenerateMusicRequest) : bool := true.

Definition any_video (_ : models.GenerateVideoRequest) : bool := true.

Definition configured : services.MiniMaxService :=
  services.NewMiniMaxService "key" "group".

Definition unconfigured : services.MiniMaxService :=
  services.NewMiniMaxService "" "".

Definition ok : services.BaseResp :=
  {| services.StatusCode := 0; services.StatusMsg := "" |}.

(** User 1 with 10 credits. *)
Definition ten_credits : System := init {[ 1%N := 10 ]} true.

Definition song : models.GenerateMusicRequest :=
  {| models.mreq_Model := ""; models.mreq_Format := ""; models.mreq_Bitrate := 0;
     models.mreq_Title := "Calm"; models.mreq_Prompt := "a calm piano piece";
     models.mreq_Lyrics := "a calm piano piece"; models.mreq_Style := "piano" |}.

(** A provider that answers every call. *)
Definition music_ok : MusicEnv :=
  {| music_post := fun _ =>
       inr {| services.mus_BaseResp := ok;
              services.mus_Audio := "https://cdn.example/song.mp3";
              services.ExtraInfo := "{}" |};
     write_file := fun _ => None;
     image_post := fun _ =>
       inr {| services.body_len := 240;
              services.decoded :=
                inr {| services.img_BaseResp := ok;
                        services.ImageURLs := ["https://cdn.example/art.png"] |} |} |}.

(** A tick at second [t] on which the task reports "Success" with a
    direct download URL. *)
Definition success_at (t : Z) : services.Tick :=
  {| services.now := t;
     services.status_reply := fun _ =>
       inr {| services.st_BaseResp := ok; services.Status := "Success";
              services.FileID := "";
              services.File_DownloadURL := "https://cdn.example/clip.mp4" |};
     services.file_reply := fun _ => inl (services.ErrOther "unused") |}.

(** A provider whose video is ready 305 seconds after the call. *)
Definition video_ready_at_305 : VideoEnv :=
  {| video_post := fun _ =>
       inr {| services.vid_BaseResp := ok; services.TaskID := "task-1" |};
     start := 0;
     ticks := [success_at 305];
     tts_post := fun _ => inl (services.ErrOther "unused");
     combine := fun _ _ _ => None |}.

(** Schedules and reachability under that middleware. *)
Definition run_schedule (minimax : services.MiniMaxService) (ms : list Move)
    (s : System) : option System :=
  schedule keep any_music any_video minimax ms s.

Definition reachable_from (minimax : services.MiniMaxService)
    (s0 s : System) : Prop :=
  reachable keep any_music any_video minimax s0 s.

(** One song submitted with the provider unconfigured. *)
Definition demo_song : System :=
  default ten_credits
    (run_schedule unconfigured [MusicRequest 1 (Some song) true] ten_credits).

(** Two songs of user 1 submitted one after the other, then their two
    goroutines run one after the other. *)
Definition two_songs : System :=
  default ten_credits
    (run_schedule configured
       [MusicRequest 1 (Some song) true; MusicRequest 1 (Some song) true;
        RunTask 0 music_ok video_ready_at_305;
        RunTask 0 music_ok video_ready_at_305] ten_credits).

(** A six-second clip without narration for the given model. *)
Definition clip (model : string) : models.GenerateVideoRequest :=
  {| models.vreq_Title := "Fox"; models.vreq_Prompt := "a red fox running";
     models.vreq_Duration := 6; models.vreq_Resolution := "768P";
     models.vreq_Model := model; models.vreq_Narration := "";
     models.vreq_VoiceID := "" |}.

(** The job after one video request of user 1 whose goroutine runs
    against a provider that reports success 305 seconds in. *)
Definition clip_job (model : string) : option models.Generation :=
  s ← run_schedule configured
        [VideoRequest 1 (Some (clip model)) true;
         RunTask 0 music_ok video_ready_at_305] ten_credits;
  generations (world s) !! 1%N.

(** User 1 with no credit left. *)
Definition no_credits : World := world (init {[ 1%N := 0 ]} true).

(** A clip of the given duration with [n] words of narration. *)
Definition spoken (duration : Z) (n : nat) : models.GenerateVideoRequest :=
  {| models.vreq_Title := "Fox"; models.vreq_Prompt := "a red fox running";
     models.vreq_Duration := duration; models.vreq_Resolution := "";
     models.vreq_Model := "";
     models.vreq_Narration := words n;
     models.vreq_VoiceID := "" |}.

(** Twenty-one words of narration for a six-second clip. *)
Definition narrated : models.GenerateVideoRequest :=
  {| models.vreq_Title := "Fox"; models.vreq_Prompt := "a red fox running";
     models.vreq_Duration := 0; models.vreq_Resolution := "";
     models.vreq_Model := "";
     models.vreq_Narration := words 21;
     models.vreq_VoiceID := "" |}.

End runs.

(* ===================================================================== *)
(** ** What a job keeps, what a run may write, what a run announces *)
(* ===================================================================== *)

Module audit.
Import handlers system books.

(** The columns of a job that no pipeline assigns. *)
Definition identity (g : models.Generation) :=
  (models.UserID g, models.Type_ g, models.Title g, models.Prompt g,
   models.Lyrics g, models.Narration g, models.VoiceID g, models.Style g,
   models.Duration g, models.Resolution g, models.Model g,
   models.CreditsCost g).

(** A music job costs 1 credit, a video job 2 or 3. *)
Definition kind_cost (g : models.Generation) : Prop :=
  match models.Type_ g with
  | models.TypeMusic => models.CreditsCost g = 1
  | models.TypeVideo => models.CreditsCost g = 2 ∨ models.CreditsCost g = 3
  end.

(** What a handler leaves behind: nothing; or one row under the next
    key, of the caller, priced by its kind, and held by the goroutine
    started for it. *)
Definition submitted (userID : N) (w : World)
    (r : Response * World * option Task) : Prop :=
  (snd (fst r) = w ∧ snd r = None)
  ∨ ∃ g, generations (snd (fst r)) = <[next_generation w := g]> (generations w)
         ∧ credit_transactions (snd (fst r)) = credit_transactions w
         ∧ models.UserID g = userID
         ∧ kind_cost g
         ∧ ∀ t, snd r = Some t →
             task_generation t = g ∧ task_id t = next_generation w
             ∧ task_userID t = userID.

(** What a run of a goroutine writes: at most its own job's row, with
    the columns of [identity] as the goroutine holds them; at most one
    ledger row, of kind "usage", for its user and its job. *)
Definition rewritten (t : Task) (w w' : World) : Prop :=
  (generations w' = generations w
   ∨ ∃ g', generations w' = <[task_id t := g']> (generations w)
           ∧ identity g' = identity (task_generation t))
  ∧ (credit_transactions w' = credit_transactions w
     ∨ ∃ tx, credit_transactions w' = credit_transactions w ++ [tx]
             ∧ models.tx_Type tx = "usage"
             ∧ models.tx_UserID tx = task_userID t
             ∧ models.GenerationID tx = Some (task_id t)).

(** The invariant on owners and prices: a waiting goroutine holds its
    job's row as stored, and its user is the job's owner; every row is
    priced by its kind; every ledger row is a usage row naming a stored
    job and charging that job's owner; no two ledger rows name the same
    job. *)
Record Audit (s : System) : Prop := {
  audit_task : ∀ t, t ∈ tasks s →
                 generations (world s) !! task_id t = Some (task_generation t)
                 ∧ task_userID t = models.UserID (task_generation t);
  audit_cost : ∀ id g, generations (world s) !! id = Some g → kind_cost g;
  audit_tx : ∀ tx, tx ∈ credit_transactions (world s) →
               models.tx_Type tx = "usage"
               ∧ ∃ id g, models.GenerationID tx = Some id
                         ∧ generations (world s) !! id = Some g
                         ∧ models.tx_UserID tx = models.UserID g;
  audit_once : NoDup (models.GenerationID <$> credit_transactions (world s));
}.

(** The ledger rows naming a job. *)
Definition entries_of (id : N) (w : World) : list models.CreditTransaction :=
  filter (fun tx => models.GenerationID tx = Some id) (credit_transactions w).

#[export] Instance GenerationStatus_eq_dec : EqDecision models.GenerationStatus.
Proof. solve_decision. Defined.


(** The messages pushed between two worlds. *)
Definition pushed (w w' : World) : list (N * WSMessage) :=
  drop (length (sent w)) (sent w').

(** A message for the given user about the given job. *)
Definition about (userID id : N) (m : N * WSMessage) : Prop :=
  fst m = userID ∧ models.ID (msg_generation (snd m)) = id.

Definition is_progress (m : N * WSMessage) : Prop :=
  msg_type (snd m) = "generation_progress".

(** The closing message of a run that reached its end: it tells the
    outcome the job's row was saved with, and carries that row. *)
Definition closes (id : N) (w' : World) (m : N * WSMessage) : Prop :=
  ∃ g', generations w' !! id = Some g'
        ∧ msg_generation (snd m) = models.ToResponse g'
        ∧ ((msg_type (snd m) = "generation_completed"
            ∧ models.Status g' = models.StatusCompleted)
           ∨ (msg_type (snd m) = "generation_failed"
              ∧ models.Status g' = models.StatusFailed
              ∧ msg_fields (snd m)
                = [("error", JStr (models.ErrorMessage g'))])).

(** What a run pushes: messages for its user about its job, all of them
    progress notes but the last one of a run that reached its end, which
    tells the outcome. *)
Definition announces (userID id : N) (w : World) (o : Outcome) : Prop :=
  ∃ msgs, sent (world_of o) = sent w ++ msgs
          ∧ Forall (about userID id) msgs
          ∧ match o with
            | Done w' =>
                ∃ front m, msgs = front ++ [m] ∧ Forall is_progress front
                           ∧ closes id w' m
            | Crashed _ | Waiting _ => Forall is_progress msgs
            end.

(** The speed the video goroutine asks the voice-over at. *)
Definition narration_speed (req : models.GenerateVideoRequest) (duration : Z)
  : F64.float64 :=
  let optimalSpeed :=
    fst (services.CalculateOptimalSpeed (models.vreq_Narration req) duration) in
  if F64.lt optimalSpeed F64.c1_0 then F64.c1_0 else optimalSpeed.

(** What goes wrong in the narration step, if anything: the text the
    goroutine stores as the job's error message. *)
Definition narration_failure (minimax : services.MiniMaxService)
    (env : VideoEnv) (req : models.GenerateVideoRequest) (duration : Z)
    (videoURL : string) (id : N) : option string :=
  match services.GenerateTTSWithSpeed minimax (tts_post env)
          (models.vreq_Narration req) (models.vreq_VoiceID req)
          (narration_speed req duration) with
  | inl err => Some ("TTS failed: " +:+ services.Error err)
  | inr ttsResp =>
      match combine env videoURL (services.tts_Audio ttsResp)
              ("uploads/video/" +:+ pretty id +:+ "_with_audio.mp4") with
      | Some err => Some ("Combine failed: " +:+ services.Error err)
      | None => None
      end
  end.

(** The tables of two worlds agree. *)
Definition same_tables (w w' : World) : Prop :=
  users w' = users w ∧ generations w' = generations w
  ∧ next_generation w' = next_generation w
  ∧ credit_transactions w' = credit_transactions w ∧ cache w' = cache w.

(** The body [GenerateImage] posts. *)
Definition image_request (prompt : string) : services.ImageGenerationRequest :=
  {| services.img_Model := "image-01"; services.img_Prompt := prompt;
     services.AspectRatio := "1:1" |}.

(** A handler's reply is one of its refusals: an error code, and no
    job in the body. *)
Definition refused (resp : Response) : Prop :=
  match body resp with
  | GenerationBody _ _ => False
  | _ => code resp = 400 ∨ code resp = 402 ∨ code resp = 404 ∨ code resp = 500
  end.

(** What a handler's reply tells about what the handler did: a refusal
    left the world as it was and started nothing; 202 stored the job in
    progress under the next key and started its goroutine; 200 (demo
    mode) stored it completed and started nothing. In both cases the
    reply carries the stored row and one "generation_started" message
    was pushed first. *)
Definition reply_tells (minimax : services.MiniMaxService) (userID : N)
    (w : World) (r : Response * World * option Task) : Prop :=
  let '(resp, w', t) := r in
  (refused resp ∧ w' = w ∧ t = None)
  ∨ (∃ msg g, body resp = GenerationBody msg (models.ToResponse g)
              ∧ generations w' = <[next_generation w := g]> (generations w)
              ∧ models.ID g = next_generation w
              ∧ models.UserID g = userID
              ∧ users w' = users w
              ∧ credit_transactions w' = credit_transactions w
              ∧ (∃ m rest, pushed w w' = (userID, m) :: rest
                           ∧ msg_type m = "generation_started")
              ∧ ((code resp = 202 ∧ services.IsConfigured minimax = true
                  ∧ models.Status g = models.StatusProcessing
                  ∧ ∃ task, t = Some task ∧ task_generation task = g)
                 ∨ (code resp = 200 ∧ services.IsConfigured minimax = false
                    ∧ models.Status g = models.StatusCompleted
                    ∧ t = None))).

(** A six-second clip with a three-word narration. *)
Definition voiced : models.GenerateVideoRequest :=
  {| models.vreq_Title := "Fox"; models.vreq_Prompt := "a red fox running";
     models.vreq_Duration := 6; models.vreq_Resolution := "768P";
     models.vreq_Model := "MiniMax-Hailuo-02";
     models.vreq_Narration := runs.words 3;
     models.vreq_VoiceID := "" |}.

(** The row of that clip as the handler stores it for user 1. *)
Definition voiced_row : models.Generation :=
  {| models.ID := 1%N; models.UserID := 1%N; models.Type_ := models.TypeVideo;
     models.Status := models.StatusProcessing; models.Title := "Fox";
     models.Prompt := "a red fox running"; models.Lyrics := "";
     models.Narration := runs.words 3; models.VoiceID := "";
     models.Style := ""; models.Duration := 6; models.Resolution := "768P";
     models.Model := "MiniMax-Hailuo-02"; models.OutputURL := "";
     models.ThumbnailURL := ""; models.MiniMaxJobID := "";
     models.ErrorMessage := ""; models.Metadata := "";
     models.CreditsCost := 3 |}.

(** User 1 as loaded by that request. *)
Definition user_one : models.User :=
  {| models.user_ID := 1%N; models.Credits := 10 |}.

(** The system after user 1 submitted that clip. *)
Definition voiced_waiting : System :=
  default runs.ten_credits
    (runs.run_schedule runs.configured
       [VideoRequest 1 (Some voiced) true] runs.ten_credits).

(** A provider whose cover-art reply is 120 bytes long. *)
Definition short_art_reply : MusicEnv :=
  {| music_post := music_post runs.music_ok;
     write_file := write_file runs.music_ok;
     image_post := fun _ =>
       inr {| services.body_len := 120;
              services.decoded := inl "unexpected end of JSON input" |} |}.

(** One song of user 1 submitted, before its goroutine runs. *)
Definition song_waiting : System :=
  default runs.ten_credits
    (runs.run_schedule runs.configured
       [MusicRequest 1 (Some runs.song) true] runs.ten_credits).

(** That song once its goroutine has run to the end. *)
Definition song_done : System :=
  default runs.ten_credits
    (runs.run_schedule runs.configured
       [MusicRequest 1 (Some runs.song) true;
        RunTask 0 runs.music_ok runs.video_ready_at_305] runs.ten_credits).

End audit.

(* ===================================================================== *)
(** ** Why a poll ended *)
(* ===================================================================== *)

Module verdicts.
Import services polling.

(** The tick [t] accounts for the result [r] of a poll of [taskID] with
    the given deadline. *)
Definition accounts_for (s : MiniMaxService) (taskID : string) (deadline : Z)
    (t : Tick) (r : error + MiniMaxTaskStatus) : Prop :=
  match r with
  | inr final =>
      now t <= deadline
      ∧ ∃ status, GetTaskStatus s (status_reply t) taskID = inr status
                  ∧ success_label (Status status) = true
                  ∧ ((FileID status = "" ∧ final = status)
                     ∨ (FileID status ≠ ""
                        ∧ ∃ url, GetFileDownloadURL s (file_reply t)
                                   (FileID status) = inr url
                                 ∧ final = set_DownloadURL status url))
  | inl e =>
      (deadline < now t ∧ e = ErrTimeout)
      ∨ (now t <= deadline
         ∧ ∃ status, GetTaskStatus s (status_reply t) taskID = inr status
                     ∧ ((success_label (Status status) = false
                         ∧ failure_label (Status status) = true
                         ∧ e = ErrMiniMaxJobFailed)
                        ∨ (success_label (Status status) = true
                           ∧ FileID status ≠ ""
                           ∧ GetFileDownloadURL s (file_reply t)
                               (FileID status) = inl e)))
  end.

(** The tick leaves the loop running for a reason the loop accepts: it
    came in time, and its status query failed or named a state that is
    neither a success nor a failure. *)
Definition passes (s : MiniMaxService) (taskID : string) (deadline : Z)
    (t : Tick) : Prop :=
  now t <= deadline
  ∧ match GetTaskStatus s (status_reply t) taskID with
    | inl _ => True
    | inr status =>
        success_label (Status status) = false
        ∧ failure_label (Status status) = false
    end.

End verdicts.

(* ===================================================================== *)
(** ** Go's [strings.TrimSpace], [strings.ReplaceAll], [strings.Replacer] *)
(* ===================================================================== *)

Module GoText.
Import GoStrings.

Definition byte_at (bs : list ascii) (i : Z) : N :=
  N_of_ascii (nth (Z.to_nat i) bs zero).

(** [utf8.RuneStart]: the byte is not a continuation byte. *)
Definition RuneStart (b : N) : bool := negb (N.land b 192 =? 128)%N.

(** The loop of [utf8.DecodeLastRuneInString] that walks back to the
    start of the last rune: [for start--; start >= lim; start--], left
    at the first byte that starts a rune. It tests at most four
    positions. *)
Fixpoint walk_back (bs : list ascii) (lim : Z) (tests : nat) (start : Z) : Z :=
  match tests with
  | O => start
  | S k =>
      if start <? lim then start
      else if RuneStart (byte_at bs start) then start
      else walk_back bs lim k (start - 1)
  end.

(** [utf8.DecodeLastRuneInString]: the last rune of a byte sequence and
    its width. *)
Definition DecodeLastRune (bs : list ascii) : rune * nat :=
  let end_ := Z.of_nat (length bs) in
  if end_ =? 0 then (RuneError, 0%nat)
  else
    let start := end_ - 1 in
    let r := byte_at bs start in
    if (r <? 128)%N then (r, 1%nat)
    else
      let lim := Z.max 0 (end_ - 4) in
      let start := walk_back bs lim 4 (start - 1) in
      let start := Z.max 0 start in
      let '(r, size) :=
        DecodeRune (map N_of_ascii (firstn 4 (drop (Z.to_nat start) bs))) in
      if negb (start + Z.of_nat size =? end_) then (RuneError, 1%nat)
      else (r, size).

(** [indexFunc(s, f, truth)]: the index of the first rune on which [f]
    answers [truth], or -1. *)
Fixpoint indexFunc_loop (f : rune -> bool) (truth : bool)
    (rs : list (rune * list ascii)) (i : nat) : Z :=
  match rs with
  | [] => -1
  | (r, b) :: rest =>
      if Bool.eqb (f r) truth then Z.of_nat i
      else indexFunc_loop f truth rest (i + length b)
  end.

Definition indexFunc (bs : list ascii) (f : rune -> bool) (truth : bool) : Z :=
  indexFunc_loop f truth (range_string 0 bs) 0.

(** [lastIndexFunc(s, f, truth)]: the index of the last rune on which
    [f] answers [truth], or -1. Each turn of the loop takes at least one
    byte off [i]. *)
Fixpoint lastIndexFunc_loop (f : rune -> bool) (truth : bool)
    (bs : list ascii) (turns : nat) (i : nat) : Z :=
  match turns with
  | O => -1
  | S k =>
      if (i =? 0)%nat then -1
      else
        let '(r, size) := DecodeLastRune (take i bs) in
        let i := (i - size)%nat in
        if Bool.eqb (f r) truth then Z.of_nat i
        else lastIndexFunc_loop f truth bs k i
  end.

Definition lastIndexFunc (bs : list ascii) (f : rune -> bool) (truth : bool)
  : Z :=
  lastIndexFunc_loop f truth bs (length bs) (length bs).

Definition TrimLeftFunc (bs : list ascii) (f : rune -> bool) : list ascii :=
  let i := indexFunc bs f false in
  if i =? -1 then [] else drop (Z.to_nat i) bs.

Definition TrimRightFunc (bs : list ascii) (f : rune -> bool) : list ascii :=
  let i := lastIndexFunc bs f false in
  let i :=
    if (0 <=? i) && (128 <=? byte_at bs i)%N then
      i + Z.of_nat (snd (DecodeRune
                           (map N_of_ascii (firstn 4 (drop (Z.to_nat i) bs)))))
    else i + 1 in
  take (Z.to_nat i) bs.

Definition TrimFunc (bs : list ascii) (f : rune -> bool) : list ascii :=
  TrimRightFunc (TrimLeftFunc bs f) f.

(** [strings.TrimSpace]; its ASCII fast path computes the same slice. *)
Definition TrimSpace (s : string) : string :=
  string_of_list_ascii (TrimFunc (list_ascii_of_string s) IsSpace).

(** [strings.ReplaceAll(s, old, new)] for an [old] of one byte. *)
Definition ReplaceAll (s : string) (old : ascii) (new : string) : string :=
  string_of_list_ascii
    (concat (map (fun b => if Ascii.eqb b old then list_ascii_of_string new
                           else [b])
               (list_ascii_of_string s))).

(** [strings.NewReplacer(oldnew...).Replace(s)] when every [old] is one
    byte: each byte of [s] is replaced, once, by the [new] of the first
    pair whose [old] it is. *)
Fixpoint replacement (oldnew : list (ascii * string)) (b : ascii)
  : option string :=
  match oldnew with
  | [] => None
  | (old, new) :: rest =>
      if Ascii.eqb b old then Some new else replacement rest b
  end.

Definition Replace (oldnew : list (ascii * string)) (s : string) : string :=
  string_of_list_ascii
    (concat (map (fun b => match replacement oldnew b with
                           | Some new => list_ascii_of_string new
                           | None => [b]
                           end)
               (list_ascii_of_string s))).

End GoText.

(* ===================================================================== *)
(** ** [middleware]: the rate limiter *)
(* ===================================================================== *)

Module middleware.

(** A [time.Time] is an instant and a [time.Duration] a span, both
    counted in nanoseconds. *)
Definition Time : Type := Z.
Definition Duration : Type := Z.

Definition minDuration : Duration := - 2 ^ 63.
Definition maxDuration : Duration := 2 ^ 63 - 1.

(** [t.Sub(u)]: the span from [u] to [t], cut to what a [Duration]
    holds. *)
Definition Sub (t u : Time) : Duration :=
  Z.max minDuration (Z.min maxDuration (t - u)).

(** [t.Add(d)]. *)
Definition Add (t : Time) (d : Duration) : Time := t + d.

Record clientInfo : Type := { count : Z; lastReset : Time }.

(** The mutex plays no part in a sequential run. *)
Record rateLimiter : Type := {
  requests : gmap string clientInfo;
  limit : Z;
  window : Duration;
}.

(** [newRateLimiter]; the goroutine it starts calls [cleanup] on every
    tick of a ticker of period [window] ([time.NewTicker] faults on a
    period that is not positive). *)
Definition newRateLimiter (limit : Z) (window : Duration) : rateLimiter :=
  {| requests := ∅; limit := limit; window := window |}.

Definition set_requests (m : gmap string clientInfo) (rl : rateLimiter)
  : rateLimiter :=
  {| requests := m; limit := limit rl; window := window rl |}.

(** [now.Sub(info.lastReset) > rl.window]. *)
Definition expired (rl : rateLimiter) (now : Time) (info : clientInfo) : bool :=
  window rl <? Sub now (lastReset info).

(** [cleanup], with [now] the clock it reads. *)
Definition cleanup (rl : rateLimiter) (now : Time) : rateLimiter :=
  set_requests
    (filter (fun kv => expired rl now (snd kv) = false) (requests rl)) rl.

(** The three results of [isAllowed]. *)
Record verdict : Type := { allowed : bool; remaining : Z; resetTime : Time }.

(** [isAllowed], with [now] the clock it reads: the results and the
    limiter as the call leaves it. *)
Definition isAllowed (rl : rateLimiter) (clientID : string) (now : Time)
  : verdict * rateLimiter :=
  match requests rl !! clientID with
  | None =>
      ({| allowed := true; remaining := Int64.sub (limit rl) 1;
          resetTime := Add now (window rl) |},
       set_requests
         (<[clientID := {| count := 1; lastReset := now |}]> (requests rl)) rl)
  | Some info =>
      if expired rl now info then
        ({| allowed := true; remaining := Int64.sub (limit rl) 1;
            resetTime := Add now (window rl) |},
         set_requests
           (<[clientID := {| count := 1; lastReset := now |}]> (requests rl)) rl)
      else if limit rl <=? count info then
        ({| allowed := false; remaining := 0;
            resetTime := Add (lastReset info) (window rl) |}, rl)
      else
        let info :=
          {| count := Int64.wrap (count info + 1);
             lastReset := lastReset info |} in
        ({| allowed := true; remaining := Int64.sub (limit rl) (count info);
            resetTime := Add (lastReset info) (window rl) |},
         set_requests (<[clientID := info]> (requests rl)) rl)
  end.

(** What happens to a limiter: a request of a client, or a tick of the
    cleanup ticker, each at the instant the clock shows. *)
Inductive event : Type :=
| Request (clientID : string) (now : Time)
| Sweep (now : Time).

Definition at_ (e : event) : Time :=
  match e with Request _ now | Sweep now => now end.

(** The verdicts given to the requests among the events, in order. *)
Fixpoint verdicts (rl : rateLimiter) (es : list event)
  : list (string * verdict) :=
  match es with
  | [] => []
  | Request c now :: rest =>
      (c, fst (isAllowed rl c now)) :: verdicts (snd (isAllowed rl c now)) rest
  | Sweep now :: rest => verdicts (cleanup rl now) rest
  end.

(** The limiter after the events. *)
Fixpoint after (rl : rateLimiter) (es : list event) : rateLimiter :=
  match es with
  | [] => rl
  | Request c now :: rest => after (snd (isAllowed rl c now)) rest
  | Sweep now :: rest => after (cleanup rl now) rest
  end.

(** The verdicts given to one client. *)
Definition replies (c : string) (vs : list (string * verdict)) : list verdict :=
  map snd (filter (fun cv => fst cv = c) vs).

(** The event is a request of the client. *)
Definition by_client (c : string) (e : event) : bool :=
  match e with Request c' _ => String.eqb c' c | Sweep _ => false end.

Definition requests_of (c : string) (es : list event) : nat :=
  length (filter (fun e => by_client c e = true) es).

(** The event is a request of the client or a tick of the ticker. *)
Definition concerns (c : string) (e : event) : bool :=
  match e with Request c' _ => String.eqb c' c | Sweep _ => true end.

(** The event, when it is a request of the client or a tick, comes no
    later than one window after [t0]. *)
Definition in_window (window : Duration) (c : string) (t0 : Time) (e : event)
  : Prop :=
  match e with
  | Request c' t => c' = c → Sub t t0 <= window
  | Sweep t => Sub t t0 <= window
  end.

(** Every entry counts at least one request and at most [limit]. *)
Definition counted (rl : rateLimiter) : Prop :=
  ∀ c info, requests rl !! c = Some info → 1 <= count info <= limit rl.

(** The headers of a verdict are in step with the entry the call left:
    the remaining count is the limit less the requests counted, within
    0 and [limit - 1], 0 on a refusal; the reset time is one window
    after the entry's start and not before [now]. *)
Definition in_step (rl' : rateLimiter) (c : string) (now : Time) (v : verdict)
  : Prop :=
  (∃ info, requests rl' !! c = Some info
           ∧ remaining v = limit rl' - count info
           ∧ resetTime v = lastReset info + window rl')
  ∧ 0 <= remaining v <= limit rl' - 1
  ∧ (allowed v = false → remaining v = 0)
  ∧ now <= resetTime v.

(** The answers to the first [n] requests of a window: the first is
    admitted, the others as long as fewer than [limit] came before. *)
Definition first_pass (limit : Z) (n : nat) : list bool :=
  map (fun k => (k =? 0)%nat || (Z.of_nat k <? limit)) (seq 0 n).

(** Five requests of one address and two of another within a minute,
    with a tick of the ticker in between; instants in seconds. *)
Definition burst : list event :=
  [Request "10.0.0.1" 0; Request "10.0.0.2" 1; Request "10.0.0.1" 2;
   Request "10.0.0.1" 3; Sweep 30; Request "10.0.0.1" 40;
   Request "10.0.0.2" 50; Request "10.0.0.1" 59].

(** *** Sanitising text *)

Definition SanitizeInput (input : string) : string :=
  let input := GoText.ReplaceAll input "000"%char "" in
  let input := GoText.TrimSpace input in
  GoText.Replace
    [("<"%char, "&lt;"); (">"%char, "&gt;"); ("034"%char, "&quot;");
     ("'"%char, "&#39;"); ("&"%char, "&amp;")] input.

(** The bytes a sanitised text must not hold: the angle brackets, the
    two quotes and NUL. *)
Definition markup (c : ascii) : bool :=
  Ascii.eqb c "<" || Ascii.eqb c ">" || Ascii.eqb c "034" || Ascii.eqb c "'"
  || Ascii.eqb c "000".

Definition clean (s : string) : Prop :=
  Forall (fun c => markup c = false) (list_ascii_of_string s).

(** The texts of a job that the handlers sanitise. *)
Definition texts (g : models.Generation) : list string :=
  [models.Title g; models.Prompt g; models.Lyrics g; models.Narration g;
   models.Style g].

(** Each text of the job is empty or came out of [sanitise]. *)
Definition sanitised_by (sanitise : string -> string) (g : models.Generation)
  : Prop :=
  Forall (fun x => x = "" ∨ ∃ y, x = sanitise y) (texts g).

(** A song whose title carries tags. *)
Definition tagged_song : models.GenerateMusicRequest :=
  {| models.mreq_Model := ""; models.mreq_Format := ""; models.mreq_Bitrate := 0;
     models.mreq_Title := " <b>Calm</b> ";
     models.mreq_Prompt := "a calm piano piece";
     models.mreq_Lyrics := "it's a calm piano piece";
     models.mreq_Style := "piano & strings" |}.

(** The service after user 1 submitted that song. *)
Definition tagged_waiting : system.System :=
  default runs.ten_credits
    (system.schedule SanitizeInput runs.any_music runs.any_video
       runs.configured [system.MusicRequest 1 (Some tagged_song) true]
       runs.ten_credits).

End middleware.

(* ===================================================================== *)
(** ** [strconv.ParseUint] *)
(* ===================================================================== *)

Module strconv.

(** The value of a decimal digit. *)
Definition digit (c : ascii) : option N :=
  let n := N_of_ascii c in
  if ((48 <=? n) && (n <=? 57))%N then Some (n - 48)%N else None.

(** The loop of [ParseUint] in base 10 over the bytes of the text.
    [None] stands for a non-nil error: of syntax at a byte that is no
    decimal digit (a sign, a letter and an underscore are none), of range
    as soon as the value passes [maxVal]. The value is carried by [N],
    so the source's two guards against a 64-bit overflow ([n >= cutoff]
    before the multiplication, [n1 < n] after the addition) are part of
    the one test against [maxVal], which is at most 2^64 - 1. *)
Fixpoint parse_loop (maxVal n : N) (s : list ascii) : option N :=
  match s with
  | [] => Some n
  | c :: rest =>
      match digit c with
      | None => None
      | Some d =>
          let n1 := (n * 10 + d)%N in
          if (maxVal <? n1)%N then None else parse_loop maxVal n1 rest
      end
  end.

(** [strconv.ParseUint(s, 10, bitSize)]. *)
Definition ParseUint (s : string) (bitSize : N) : option N :=
  if String.eqb s "" then None
  else parse_loop (2 ^ bitSize - 1) 0 (list_ascii_of_string s).

End strconv.

(* ===================================================================== *)
(** ** [handlers]: listing, reading and deleting jobs *)
(* ===================================================================== *)

Module library.
Import handlers.

Record Pagination : Type := {
  page : Z; limit : Z; total : Z; total_pages : Z;
}.

(** The [fiber.Map] a listing answers with. *)
Record Listing : Type := {
  listed : list models.Generation;
  pagination : Pagination;
}.

Inductive Reply : Type :=
| Failure (code : Z) (error message : string)
| GenerationReply (generation : models.Generation)
| MessageReply (message : string)
| ListingReply (result : Listing).

Definition type_name (t : models.GenerationType) : string :=
  match t with models.TypeMusic => "music" | models.TypeVideo => "video" end.

Definition status_name (s : models.GenerationStatus) : string :=
  match s with
  | models.StatusPending => "pending"
  | models.StatusProcessing => "processing"
  | models.StatusCompleted => "completed"
  | models.StatusFailed => "failed"
  end.

(** [fmt.Sprintf("generations:%d:%d:%d:%s:%s", userID, page, limit,
    genType, status)]. *)
Definition cacheKey (userID : N) (page limit : Z) (genType status : string)
  : string :=
  "generations:" +:+ pretty userID +:+ ":" +:+ pretty page +:+ ":"
  +:+ pretty limit +:+ ":" +:+ genType +:+ ":" +:+ status.

(** The conditions of the listing query: [user_id = ?], then
    [type = ?] and [status = ?] when the parameter is not empty. *)
Definition matches (userID : N) (genType status : string)
    (g : models.Generation) : bool :=
  (models.UserID g =? userID)%N
  && (String.eqb genType ""
      || String.eqb (type_name (models.Type_ g)) genType)
  && (String.eqb status ""
      || String.eqb (status_name (models.Status g)) status).

(** The [GetGenerations] handler. [page] and [limit] are what
    [strconv.Atoi] made of the query parameters; [cached] is what
    [cache.Cache.Get] finds ([None] when there is no cache); [table] is
    the generations table in the order of [created_at DESC], and
    [db_up] tells whether the [Find] goes through. Besides the reply the
    result gives the entry put in the cache, if any (it is kept 30
    seconds). An [OFFSET] that is not positive is left out of the
    query. *)
Definition GetGenerations (userID : N) (page limit : Z)
    (genType status : string) (cached : option (string -> option Listing))
    (table : list models.Generation) (db_up : bool)
  : Reply * option (string * Listing) :=
  let page := if page <? 1 then 1 else page in
  let limit := if (limit <? 1) || (100 <? limit) then 20 else limit in
  let cacheKey := cacheKey userID page limit genType status in
  match match cached with Some get => get cacheKey | None => None end with
  | Some cachedResult => (ListingReply cachedResult, None)
  | None =>
      let offset := Int64.wrap ((page - 1) * limit) in
      let query :=
        filter (fun g => matches userID genType status g = true) table in
      let total := Z.of_nat (length query) in
      if negb db_up then
        (Failure 500 "Internal Server Error" "Failed to fetch generations",
         None)
      else
        let generations :=
          take (Z.to_nat limit) (drop (Z.to_nat offset) query) in
        let result :=
          {| listed := map models.ToResponse generations;
             pagination :=
               {| page := page; limit := limit; total := total;
                  total_pages :=
                    Z.quot (Int64.wrap (Int64.wrap (total + limit) - 1))
                      limit |} |} in
        (ListingReply result,
         match cached with
         | Some _ => Some (cacheKey, result)
         | None => None
         end)
  end.

(** [db.Where("id = ? AND user_id = ?", id, userID).First(&generation)]. *)
Definition db_First_owned (id userID : N) (w : World)
  : option models.Generation :=
  match generations w !! id with
  | Some g => if (models.UserID g =? userID)%N then Some g else None
  | None => None
  end.

(** [db.Delete(&generation)]: the row is marked deleted, which hides it
    from every query; the table holds the rows that are not. *)
Definition db_Delete_generation (g : models.Generation) (w : World) : World :=
  {| users := users w;
     generations := delete (models.ID g) (generations w);
     next_generation := next_generation w;
     credit_transactions := credit_transactions w;
     cache := cache w; sent := sent w |}.

(** The [GetGeneration] handler; [param] is [c.Params("id")]. *)
Definition GetGeneration (userID : N) (param : string) (w : World) : Reply :=
  match strconv.ParseUint param 32 with
  | None => Failure 400 "Bad Request" "Invalid generation ID"
  | Some id =>
      match db_First_owned id userID w with
      | None => Failure 404 "Not Found" "Generation not found"
      | Some generation => GenerationReply (models.ToResponse generation)
      end
  end.

(** The [DeleteGeneration] handler; [db_up] tells whether the delete
    goes through. *)
Definition DeleteGeneration (userID : N) (param : string) (db_up : bool)
    (w : World) : Reply * World :=
  match strconv.ParseUint param 32 with
  | None => (Failure 400 "Bad Request" "Invalid generation ID", w)
  | Some id =>
      match db_First_owned id userID w with
      | None => (Failure 404 "Not Found" "Generation not found", w)
      | Some generation =>
          if negb db_up then
            (Failure 500 "Internal Server Error" "Failed to delete generation",
             w)
          else
            (MessageReply "Generation deleted",
             db_Delete_generation generation w)
      end
  end.

(** Every row sits under its own key. *)
Definition keyed (w : World) : Prop :=
  ∀ id g, generations w !! id = Some g → models.ID g = id.

(** The rows a reply lists. *)
Definition rows_of (r : Reply * option (string * Listing))
  : list models.Generation :=
  match fst r with ListingReply result => listed result | _ => [] end.

(** The rows the listing query selects, in the table's order. *)
Definition matching (userID : N) (genType status : string)
    (table : list models.Generation) : list models.Generation :=
  filter (fun g => matches userID genType status g = true) table.

(** The rows on page [p] of a listing read past the cache. *)
Definition page_rows (userID : N) (limit : Z) (genType status : string)
    (table : list models.Generation) (p : nat) : list models.Generation :=
  rows_of (GetGenerations userID (Z.of_nat p) limit genType status None table
             true).

(** The row is what the table holds of one of the caller's jobs that
    passes the filters. *)
Definition shown_from (userID : N) (genType status : string)
    (table : list models.Generation) (g : models.Generation) : Prop :=
  ∃ g0, g0 ∈ table ∧ g = models.ToResponse g0
        ∧ models.UserID g0 = userID
        ∧ (genType = "" ∨ type_name (models.Type_ g0) = genType)
        ∧ (status = "" ∨ status_name (models.Status g0) = status).

(** Two songs and a clip of user 1 around a song of user 2, newest
    first. *)
Definition job (id userID : N) (kind : models.GenerationType)
  : models.Generation :=
  {| models.ID := id; models.UserID := userID; models.Type_ := kind;
     models.Status := models.StatusCompleted; models.Title := "";
     models.Prompt := "a calm piano piece"; models.Lyrics := "";
     models.Narration := ""; models.VoiceID := ""; models.Style := "";
     models.Duration := 0; models.Resolution := ""; models.Model := "";
     models.OutputURL := ""; models.ThumbnailURL := "";
     models.MiniMaxJobID := ""; models.ErrorMessage := "";
     models.Metadata := "{}"; models.CreditsCost := 1 |}.

Definition shelf : list models.Generation :=
  [job 4 1 models.TypeMusic; job 3 2 models.TypeMusic;
   job 2 1 models.TypeVideo; job 1 1 models.TypeMusic].

(** The pattern [DeletePattern] is given for a user's listings, as
    [invalidate] records it. *)
Definition listing_pattern (userID : N) : string :=
  "generations:" +:+ pretty userID +:+ ":*".

(** The keys a pattern of literal bytes closed by one [*] selects:
    those that begin with the literal bytes. *)
Definition selects (pattern key : string) : bool :=
  match rev (list_ascii_of_string pattern) with
  | "*"%char :: literal =>
      String.prefix (string_of_list_ascii (rev literal)) key
  | _ => String.eqb pattern key
  end.

(** The text is made of decimal digits. *)
Definition digits (s : string) : Prop :=
  Forall (fun c => is_Some (strconv.digit c)) (list_ascii_of_string s).

End library.

(* ===================================================================== *)
(** ** The service with its jobs deleted and flagged *)
(* ===================================================================== *)

Module service.
Import handlers system books audit library.

Definition bad_id : Response :=
  {| code := 400; body := ErrorBody "Bad Request" "Invalid generation ID" |}.

Definition not_found : Response :=
  {| code := 404; body := ErrorBody "Not Found" "Generation not found" |}.

(** The [ToggleFavorite] handler. The flag it flips, [IsFavorite], is a
    column the [Generation] record does not carry: the row is saved with
    its other columns as read, and the caller's cached listings are
    dropped. *)
Definition ToggleFavorite (userID : N) (param : string) (w : World)
  : Response * World :=
  match strconv.ParseUint param 32 with
  | None => (bad_id, w)
  | Some id =>
      match db_First_owned id userID w with
      | None => (not_found, w)
      | Some generation =>
          let w := db_Save_generation generation w in
          let w := invalidate userID w in
          ({| code := 200;
              body := GenerationBody "Favorite toggled"
                        (models.ToResponse generation) |}, w)
      end
  end.

(** The [TogglePublic] handler; [IsPublic] is not carried either, nor is
    the ["is_public"] key of the reply. No cached listing is dropped. *)
Definition TogglePublic (userID : N) (param : string) (w : World)
  : Response * World :=
  match strconv.ParseUint param 32 with
  | None => (bad_id, w)
  | Some id =>
      match db_First_owned id userID w with
      | None => (not_found, w)
      | Some generation =>
          let w := db_Save_generation generation w in
          ({| code := 200;
              body := GenerationBody "Public status toggled"
                        (models.ToResponse generation) |}, w)
      end
  end.

(** The system once a handler that starts no goroutine has replied. *)
Definition after_request (w : World) (s : System) : System :=
  {| world := w; tasks := tasks s |}.

Section Run.

Variable SanitizeInput : string -> string.
Variable music_valid : models.GenerateMusicRequest -> bool.
Variable video_valid : models.GenerateVideoRequest -> bool.
Variable minimax : services.MiniMaxService.

(** The moves that write the job table, the balances, the ledger or the
    cache: those of [system.step] (a generation request, the run of a
    goroutine), a delete and the two toggles, each handled up to its
    reply. A goroutine whose job was deleted in the meantime saves its
    row all the same: [db.Save] stores the row it is given. A run that
    faults ends the Go process; the moves listed after it are those of
    the service started again over the same tables. The handlers left
    out write none of these ([GetGenerations], [GetGeneration] and the
    public listing read; the account handlers write other columns of a
    user, and [Register] adds a user, with 10 credits, who was not on
    file before). *)
Inductive step : System -> System -> Prop :=
| step_generation s s' :
    system.step SanitizeInput music_valid video_valid minimax s s' ->
    step s s'
| step_delete s userID param db_up :
    step s (after_request
              (snd (DeleteGeneration userID param db_up (world s))) s)
| step_favorite s userID param :
    step s (after_request (snd (ToggleFavorite userID param (world s))) s)
| step_public s userID param :
    step s (after_request (snd (TogglePublic userID param (world s))) s).

Definition reachable (s0 s : System) : Prop := rtc step s0 s.

Inductive Move : Type :=
| Generation (m : system.Move)
| Delete (userID : N) (param : string) (db_up : bool)
| Favorite (userID : N) (param : string)
| Public (userID : N) (param : string).

Definition move (m : Move) (s : System) : option System :=
  match m with
  | Generation m =>
      system.move SanitizeInput music_valid video_valid minimax m s
  | Delete userID param db_up =>
      Some (after_request
              (snd (DeleteGeneration userID param db_up (world s))) s)
  | Favorite userID param =>
      Some (after_request (snd (ToggleFavorite userID param (world s))) s)
  | Public userID param =>
      Some (after_request (snd (TogglePublic userID param (world s))) s)
  end.

Fixpoint schedule (ms : list Move) (s : System) : option System :=
  match ms with
  | [] => Some s
  | m :: rest =>
      match move m s with
      | Some s' => schedule rest s'
      | None => None
      end
  end.

End Run.

(** What one run of a goroutine writes: nothing; or its own job's row,
    under the job's key and with the columns of [identity] as the
    goroutine holds them, together with one usage row of minus the cost
    for its user and its job when the row is saved completed, and with
    no ledger row when it is not. *)
Definition writes (t : Task) (w w' : World) : Prop :=
  next_generation w' = next_generation w
  ∧ ((generations w' = generations w
      ∧ credit_transactions w' = credit_transactions w)
     ∨ ∃ g', generations w' = <[task_id t := g']> (generations w)
             ∧ models.ID g' = task_id t
             ∧ identity g' = identity (task_generation t)
             ∧ ((models.Status g' = models.StatusCompleted
                 ∧ ∃ tx, credit_transactions w' = credit_transactions w ++ [tx]
                         ∧ models.tx_Type tx = "usage"
                         ∧ models.tx_UserID tx = task_userID t
                         ∧ models.GenerationID tx = Some (task_id t)
                         ∧ models.Amount tx = - task_cost t)
                ∨ (models.Status g' ≠ models.StatusCompleted
                   ∧ credit_transactions w' = credit_transactions w))).




(** Under the middleware of [runs]. *)
Definition run_schedule (minimax : services.MiniMaxService) (ms : list Move)
    (s : System) : option System :=
  schedule runs.keep runs.any_music runs.any_video minimax ms s.

Definition reachable_from (minimax : services.MiniMaxService)
    (s0 s : System) : Prop :=
  reachable runs.keep runs.any_music runs.any_video minimax s0 s.


End service.

(* ===================================================================== *)
(** ** Facts about doubles *)
(* ===================================================================== *)

Module F64Facts.
Import F64.

Lemma binary_round_aux_sign s m e l :
  sign_clear (binary_round_aux prec emax s m e l) = negb s
  ∨ binary_round_aux prec emax s m e l = S754_nan.
Proof.
  unfold binary_round_aux.
  destruct (shr_fexp prec emax m e l) as [mrs' e'].
  destruct (shr_fexp prec emax _ e' loc_Exact) as [mrs'' e''].
  destruct (shr_m mrs'') as [|p|p]; [left; reflexivity| |right; reflexivity].
  destruct (e'' <=? emax - prec)%Z; left; reflexivity.
Qed.

Lemma binary_round_aux_clear m e l :
  sign_clear (binary_round_aux prec emax false m e l) = true.
Proof.
  destruct (binary_round_aux_sign false m e l) as [H|H]; rewrite H; reflexivity.
Qed.

Lemma of_int_clear n : 0 <= n → sign_clear (of_int n) = true.
Proof.
  intros Hn. unfold of_int, binary_normalize.
  destruct n as [|p|p]; [reflexivity| |lia].
  unfold binary_round. destruct (shl_align _ _ _) as [mz ez].
  apply binary_round_aux_clear.
Qed.

Lemma mul_clear x y :
  sign_clear x = true → sign_clear y = true → sign_clear (mul x y) = true.
Proof.
  destruct x as [[]|[]| |[] mx ex], y as [[]|[]| |[] my ey];
    simpl; try discriminate; try reflexivity.
  intros _ _. apply binary_round_aux_clear.
Qed.

Lemma div_clear x y :
  sign_clear x = true → sign_clear y = true → sign_clear (div x y) = true.
Proof.
  destruct x as [[]|[]| |[] mx ex], y as [[]|[]| |[] my ey];
    simpl; try discriminate; try reflexivity.
  intros _ _. unfold div, SFdiv.
  destruct (SFdiv_core_binary _ _ _ _ _ _) as [[mz ez] lz].
  apply binary_round_aux_clear.
Qed.

(** A double that is not [<= 0] is positive or NaN. *)
Lemma not_le_zero_clear x : le x zero = false → sign_clear x = true.
Proof.
  unfold le, SFleb, zero.
  destruct x as [[]|[]| |[] m e]; simpl; congruence.
Qed.

(** On a double with a clear sign bit, cutting towards zero and cutting
    downwards agree. *)
Lemma int_with_floor_trunc x :
  sign_clear x = true → int_with floor x = int_with trunc x.
Proof.
  destruct x as [s|s| |[] m e]; simpl; try discriminate; try reflexivity.
Qed.

(** Go's [x > 1.5] entails [x > 1.3]. *)
Lemma gt_1_5_gt_1_3 x : gt x c1_5 = true → gt x c1_3 = true.
Proof.
  unfold gt, SFltb, c1_5, c1_3.
  destruct x as [s|s| |s m e]; cbn [SFcompare];
    try congruence; try (destruct s; congruence).
  destruct s; [congruence|].
  destruct (-52 ?= e)%Z; try congruence.
  rewrite !Pos.compare_cont_spec.
  destruct (6755399441055744 ?= m)%positive eqn:H;
    cbn [Pos.switch_Eq]; try congruence.
  intros _. apply Pos.compare_lt_iff in H.
  assert (Hlt : (5854679515581645 < m)%positive).
  { eapply Pos.lt_trans; [|exact H]. vm_compute. reflexivity. }
  apply Pos.compare_lt_iff in Hlt. rewrite Hlt. reflexivity.
Qed.

(** The order of two doubles read in the other direction. *)
Lemma SFcompare_swap x y :
  SFcompare y x = option_map CompOpp (SFcompare x y).
Proof.
  destruct x as [[]|[]| |[] mx ex], y as [[]|[]| |[] my ey];
    simpl; try reflexivity;
    rewrite (Z.compare_antisym ey ex);
    destruct (ey ?= ex)%Z eqn:E; simpl; try reflexivity;
    rewrite !Pos.compare_cont_spec; simpl;
    rewrite (Pos.compare_antisym my mx);
    destruct (my ?= mx)%positive; reflexivity.
Qed.

Lemma not_lt_le x y : is_nan x = false → is_nan y = false →
  lt x y = false → le y x = true.
Proof.
  unfold lt, le, SFltb, SFleb. intros Hx Hy.
  rewrite (SFcompare_swap x y).
  destruct (SFcompare x y) as [[]|] eqn:E; simpl; try congruence.
  destruct x, y; simpl in *; discriminate.
Qed.

(** A double above 2.0 is not below 0.5. *)
Lemma gt_2_0_not_lt_0_5 x : gt x c2_0 = true → lt x c0_5 = false.
Proof.
  unfold gt, lt, SFltb, c2_0, c0_5.
  destruct x as [s|s| |s m e]; cbn [SFcompare];
    try congruence; try (destruct s; congruence).
  destruct s; [congruence|].
  destruct (Z.compare_spec (-51) e) as [He|He|He]; try congruence;
    destruct (Z.compare_spec e (-53)) as [He'|He'|He']; try reflexivity; lia.
Qed.

End F64Facts.

(* ===================================================================== *)
(** ** The narration speed calculator *)
(* ===================================================================== *)

Module SpeedCalculator.
Import F64 F64Facts design runs.

(** The worked cases of the design: 100 words in 60 s play at 1.0; 300
    words in 60 s do not fit; 18 words in 6 s need 1.309 and get 1.3;
    17 words in 6 s need 1.236 and get 1.2. *)
Example speed_100_words_60s :
  services.CalculateOptimalSpeed (words 100) 60 = (c1_0, None).
Proof. vm_compute. reflexivity. Qed.

Example speed_300_words_60s :
  services.CalculateOptimalSpeed (words 300) 60
  = (zero, Some services.ErrNarrationTooLong).
Proof. vm_compute. reflexivity. Qed.

Example speed_18_words_6s :
  services.CalculateOptimalSpeed (words 18) 6 = (c1_3, None).
Proof. vm_compute. reflexivity. Qed.

Example speed_17_words_6s :
  services.CalculateOptimalSpeed (words 17) 6 = (lit 12 10, None).
Proof. vm_compute. reflexivity. Qed.

(** The estimate and, for a duration that is not negative, the target
    have a clear sign bit. *)
Lemma estimated_clear text :
  sign_clear (services.EstimateTTSDuration text) = true.
Proof.
  unfold services.EstimateTTSDuration.
  apply div_clear; [apply of_int_clear; lia | reflexivity].
Qed.

Lemma target_clear d :
  0 <= d →
  sign_clear (if le (sub (of_int d) c0_5) zero then of_int d
              else sub (of_int d) c0_5) = true.
Proof.
  intros Hd. destruct (le (sub (of_int d) c0_5) zero) eqn:E.
  - apply of_int_clear, Hd.
  - apply not_le_zero_clear, E.
Qed.

(** C3, as stated, fails: with a negative duration the required speed is
    negative and Go's [int(...)] cuts it towards zero, not downwards.
    One word against a duration of -3 gives -0.1 where the floor
    gives -0.2. *)
Lemma CalculateOptimalSpeed_negative_duration :
  observed (services.CalculateOptimalSpeed "a" (-3)) = Speed (lit (-1) 10)
  ∧ EstimateSpeed floor "a" (-3) = Speed (lit (-2) 10)
  ∧ ¬ floors_everywhere.
Proof.
  assert (H1 : observed (services.CalculateOptimalSpeed "a" (-3))
               = Speed (lit (-1) 10)) by (vm_compute; reflexivity).
  assert (H2 : EstimateSpeed floor "a" (-3) = Speed (lit (-2) 10))
    by (vm_compute; reflexivity).
  split; [exact H1|]. split; [exact H2|].
  intros H. specialize (H "a" (-3)). rewrite H1, H2 in H.
  vm_compute in H. discriminate H.
Qed.

(** C3, amended: for every text and duration the calculator follows the
    design's case list (estimate = words / 2.5; target = d - 0.5, or d
    when that is not positive; 1.0 when the estimate fits; otherwise
    NarrationTooLong above 1.5, 1.3 above 1.3) and in the last case cuts
    the required speed to one decimal place towards zero; for every
    duration d >= 0 that is the cut downwards. *)
Theorem CalculateOptimalSpeed_design text d :
  observed (services.CalculateOptimalSpeed text d) = EstimateSpeed trunc text d
  ∧ (0 <= d →
     observed (services.CalculateOptimalSpeed text d)
     = EstimateSpeed floor text d).
Proof.
  assert (Htrunc : observed (services.CalculateOptimalSpeed text d)
                   = EstimateSpeed trunc text d).
  { unfold services.CalculateOptimalSpeed, EstimateSpeed,
      services.EstimateTTSDuration, observed, to_int.
    set (est := div _ c2_5).
    set (target := if le _ zero then _ else _).
    destruct (le est target); [reflexivity|].
    destruct (gt (div est target) c1_5) eqn:E15.
    - rewrite (gt_1_5_gt_1_3 _ E15). reflexivity.
    - destruct (gt (div est target) c1_3); reflexivity. }
  split; [exact Htrunc|].
  intros Hd. rewrite Htrunc. unfold EstimateSpeed.
  set (est := div _ c2_5).
  set (target := if le _ zero then _ else _).
  destruct (le est target); [reflexivity|].
  destruct (gt (div est target) c1_5); [reflexivity|].
  destruct (gt (div est target) c1_3); [reflexivity|].
  rewrite int_with_floor_trunc; [reflexivity|].
  apply mul_clear; [|reflexivity].
  apply div_clear.
  - apply (estimated_clear text).
  - apply target_clear, Hd.
Qed.

Lemma CalculateOptimalSpeed_design_witness :
  0 <= 6
  ∧ observed (services.CalculateOptimalSpeed (words 17) 6)
    = EstimateSpeed floor (words 17) 6.
Proof.
  split; [lia|].
  apply (proj2 (CalculateOptimalSpeed_design (words 17) 6)). lia.
Defined.

End SpeedCalculator.

(* ===================================================================== *)
(** ** The text-to-speech request *)
(* ===================================================================== *)

Module TextToSpeech.
Import F64 F64Facts speech.

Lemma sent_speed_cases text voiceID speed :
  sent_speed text voiceID speed
  = if lt speed c0_5 then c0_5 else if gt speed c2_0 then c2_0 else speed.
Proof.
  unfold sent_speed, services.ttsRequestBody. cbn [services.Speed services.VoiceSetting].
  destruct (lt speed c0_5); reflexivity.
Qed.

Lemma sent_speed_marshals text voiceID speed :
  is_nan speed = false →
  services.json_float_ok (sent_speed text voiceID speed) = true.
Proof.
  intros Hn. rewrite sent_speed_cases.
  destruct (lt speed c0_5) eqn:E1; [reflexivity|].
  destruct (gt speed c2_0) eqn:E2; [reflexivity|].
  destruct speed as [s|[]| |s m e]; try reflexivity; try discriminate.
Qed.

(** C10: a request is posted exactly when the client is configured and
    the speed is a number; the speed in the posted body lies in
    [0.5, 2.0], being 0.5 for a requested speed below 0.5, 2.0 for one
    above 2.0 and the requested speed otherwise; an empty voice
    identifier is replaced by "male-qn-qingse" and any other is kept. *)
Theorem GenerateTTSWithSpeed_clamps s post text voiceID speed :
  let reqBody := services.ttsRequestBody text voiceID speed in
  let sent := sent_speed text voiceID speed in
  (services.IsConfigured s = true → is_nan speed = false →
   services.GenerateTTSWithSpeed s post text voiceID speed
   = match post reqBody with
     | inl e => inl e
     | inr result =>
         if negb (services.StatusCode (services.tts_BaseResp result) =? 0)
         then inl (services.ErrMiniMaxRequestFailed
                     (services.StatusMsg (services.tts_BaseResp result)))
         else inr result
     end)
  ∧ (services.IsConfigured s = false →
     services.GenerateTTSWithSpeed s post text voiceID speed
     = inl services.ErrMiniMaxAPIKeyMissing)
  ∧ (services.IsConfigured s = true → is_nan speed = true →
     services.GenerateTTSWithSpeed s post text voiceID speed
     = inl (services.ErrOther "json: unsupported value: NaN"))
  ∧ (is_nan speed = false → le c0_5 sent = true ∧ le sent c2_0 = true)
  ∧ (lt speed c0_5 = true → sent = c0_5)
  ∧ (gt speed c2_0 = true → sent = c2_0)
  ∧ (lt speed c0_5 = false → gt speed c2_0 = false → sent = speed)
  ∧ (voiceID = "" → sent_voice text voiceID speed = "male-qn-qingse")
  ∧ (voiceID ≠ "" → sent_voice text voiceID speed = voiceID).
Proof.
  intros reqBody sent.
  assert (Hsent : sent = if lt speed c0_5 then c0_5
                         else if gt speed c2_0 then c2_0 else speed)
    by apply sent_speed_cases.
  repeat split.
  - intros Hc Hn. unfold services.GenerateTTSWithSpeed. rewrite Hc.
    cbn [negb]. fold reqBody.
    change (services.Speed (services.VoiceSetting reqBody)) with sent.
    unfold sent. rewrite (sent_speed_marshals text voiceID speed Hn).
    reflexivity.
  - intros Hc. unfold services.GenerateTTSWithSpeed. rewrite Hc. reflexivity.
  - intros Hc Hn. unfold services.GenerateTTSWithSpeed. rewrite Hc.
    cbn [negb]. fold reqBody.
    change (services.Speed (services.VoiceSetting reqBody)) with sent.
    rewrite Hsent. destruct speed; try discriminate. reflexivity.
  - rewrite Hsent.
    destruct (lt speed c0_5) eqn:E1; [reflexivity|].
    destruct (gt speed c2_0) eqn:E2; [reflexivity|].
    apply not_lt_le; [exact H|reflexivity|exact E1].
  - rewrite Hsent.
    destruct (lt speed c0_5) eqn:E1; [reflexivity|].
    destruct (gt speed c2_0) eqn:E2; [reflexivity|].
    apply not_lt_le; [reflexivity|exact H|exact E2].
  - intros E. rewrite Hsent, E. reflexivity.
  - intros E. rewrite Hsent, E.
    rewrite (gt_2_0_not_lt_0_5 _ E). reflexivity.
  - intros E1 E2. rewrite Hsent, E1, E2. reflexivity.
  - intros ->. reflexivity.
  - intros Hv. unfold sent_voice, services.ttsRequestBody.
    cbn [services.VoiceID services.VoiceSetting].
    destruct (String.eqb_spec voiceID ""); [contradiction|reflexivity].
Qed.

Lemma GenerateTTSWithSpeed_clamps_witness :
  lt (lit 1 4) c0_5 = true
  ∧ sent_speed "hello" "" (lit 1 4) = c0_5
  ∧ sent_voice "hello" "" (lit 1 4) = "male-qn-qingse".
Proof.
  pose proof (GenerateTTSWithSpeed_clamps
                (services.NewMiniMaxService "key" "group")
                (fun _ => inl services.ErrMiniMaxJobFailed)
                "hello" "" (lit 1 4)) as H.
  cbv zeta in H.
  destruct H as (_ & _ & _ & _ & Hlow & _ & _ & Hvoice & _).
  split; [vm_compute; reflexivity|].
  split; [apply Hlow; vm_compute; reflexivity | apply Hvoice; reflexivity].
Defined.

End TextToSpeech.

(* ===================================================================== *)
(** ** The video request and the poll timeout *)
(* ===================================================================== *)

Module VideoRequest.
Import clamps.




End VideoRequest.

(* ===================================================================== *)
(** ** The task poller *)
(* ===================================================================== *)

Module Poller.
Import services polling.

Lemma poll_loop_continue s taskID deadline pre rest :
  Forall (continues s taskID deadline) pre →
  poll_loop s taskID deadline (pre ++ rest) = poll_loop s taskID deadline rest.
Proof.
  induction 1 as [|t pre Ht _ IH]; [reflexivity|].
  cbn [app poll_loop]. rewrite Ht. exact IH.
Qed.

Lemma poll_loop_at s taskID deadline pre t rest r :
  Forall (continues s taskID deadline) pre →
  poll_tick s taskID deadline t = Some r →
  poll_loop s taskID deadline (pre ++ t :: rest) = Some r.
Proof.
  intros Hpre Ht. rewrite (poll_loop_continue _ _ _ _ _ Hpre).
  cbn [poll_loop]. rewrite Ht. reflexivity.
Qed.

(** C8, as stated, fails: when the file lookup after a success label
    fails, the loop ends with that error. *)
Lemma success_label_refused_lookup :
  WaitForCompletion (NewMiniMaxService "key" "group") 0 [refused_lookup]
    "task-1" 300 = Some (inl (ErrOther "connection reset"))
  ∧ ¬ success_label_succeeds.
Proof.
  split; [vm_compute; reflexivity|].
  intros H.
  destruct (H (NewMiniMaxService "key" "group") "task-1" 0 300 refused_lookup []
              {| st_BaseResp := ok; Status := "Success"; FileID := "f-1";
                 File_DownloadURL := "" |}) as [final Hfinal];
    [vm_compute; discriminate | reflexivity | reflexivity |].
  vm_compute in Hfinal. discriminate Hfinal.
Qed.

(** C8, amended: after any ticks that leave the loop running, a tick
    within the deadline whose status query answers "Success" or
    "Completed" ends the loop: with that status when it names no file,
    with the status carrying the looked-up URL when the lookup of its
    file succeeds, and with the lookup's error when it fails; a tick
    answering "Failed" or "Error" ends it with the job failure; a tick
    whose query errs or answers any other label leaves it running; and
    the first tick handled after the deadline ends it with the timeout
    error. *)
Theorem WaitForCompletion_cases s taskID start timeout pre t rest :
  Forall (continues s taskID (start + timeout)) pre →
  let wait := WaitForCompletion s start (pre ++ t :: rest) taskID timeout in
  (start + timeout < now t → wait = Some (inl ErrTimeout))
  ∧ (now t <= start + timeout →
     match GetTaskStatus s (status_reply t) taskID with
     | inl _ => wait = WaitForCompletion s start rest taskID timeout
     | inr status =>
         if success_label (Status status) then
           if String.eqb (FileID status) "" then wait = Some (inr status)
           else
             match GetFileDownloadURL s (file_reply t) (FileID status) with
             | inr url => wait = Some (inr (set_DownloadURL status url))
             | inl e => wait = Some (inl e)
             end
         else if failure_label (Status status)
              then wait = Some (inl ErrMiniMaxJobFailed)
              else wait = WaitForCompletion s start rest taskID timeout
     end).
Proof.
  intros Hpre wait. subst wait. unfold WaitForCompletion.
  rewrite (poll_loop_continue _ _ _ _ _ Hpre). cbn [poll_loop].
  unfold poll_tick, success_label, failure_label.
  split.
  - intros Hlate. apply Z.ltb_lt in Hlate. rewrite Hlate. reflexivity.
  - intros Hin. apply Z.ltb_ge in Hin. rewrite Hin.
    destruct (GetTaskStatus s (status_reply t) taskID) as [e|status];
      [reflexivity|].
    destruct (String.eqb (Status status) "Success"
              || String.eqb (Status status) "Completed").
    + destruct (String.eqb (FileID status) ""); cbn [negb]; [reflexivity|].
      destruct (GetFileDownloadURL s (file_reply t) (FileID status));
        reflexivity.
    + destruct (String.eqb (Status status) "Failed"
                || String.eqb (Status status) "Error"); reflexivity.
Qed.

Lemma WaitForCompletion_cases_witness :
  Forall (continues (NewMiniMaxService "key" "group") "task-1" (0 + 300))
    [processing 5; processing 10]
  ∧ WaitForCompletion (NewMiniMaxService "key" "group") 0
      ([processing 5; processing 10] ++ processing 305 :: []) "task-1" 300
    = Some (inl ErrTimeout).
Proof.
  assert (Hpre : Forall (continues (NewMiniMaxService "key" "group")
                           "task-1" (0 + 300))
                   [processing 5; processing 10]).
  { repeat constructor. }
  split; [exact Hpre|].
  apply (proj1 (WaitForCompletion_cases _ "task-1" 0 300 _ (processing 305) []
                  Hpre)).
  vm_compute. reflexivity.
Defined.

End Poller.

(* ===================================================================== *)
(** ** The notification hub *)
(* ===================================================================== *)

Module Hub.
Import hub fanout.

(** Every client is stored under its own connection. *)
Lemma built_Conn h : built h → ∀ c client, h !! c = Some client → Conn client = c.
Proof.
  induction 1 as [|h c0 u _ IH|h c0 _ IH]; intros c client Hc;
    unfold empty, Register, Unregister, WSHub, conn in *.
  - rewrite lookup_empty in Hc. discriminate.
  - destruct (decide (c0 = c)) as [->|Hne].
    + rewrite lookup_insert_eq in Hc. injection Hc as <-. reflexivity.
    + rewrite lookup_insert_ne in Hc by exact Hne. eauto.
  - destruct (decide (c0 = c)) as [->|Hne].
    + rewrite lookup_delete_eq in Hc. discriminate.
    + rewrite lookup_delete_ne in Hc by exact Hne. eauto.
Qed.

Lemma elem_of_send_loop write_ok userID clients wr :
  wr ∈ send_loop write_ok userID clients
  ↔ ∃ k client, (k, client) ∈ clients ∧ UserID client = userID
                ∧ wr = write_to write_ok client.
Proof.
  induction clients as [|[k0 cl0] rest IH]; cbn [send_loop].
  - split; [intros H; inversion H | intros (k & cl & H & _); inversion H].
  - destruct (N.eqb_spec (UserID cl0) userID) as [He|Hne].
    + rewrite elem_of_cons, IH. split.
      * intros [->|(k & cl & Hin & Hu & ->)].
        -- exists k0, cl0. split; [left|]; auto.
        -- exists k, cl. split; [right|]; auto.
      * intros (k & cl & Hin & Hu & ->).
        apply elem_of_cons in Hin as [Heq|Hin].
        -- injection Heq as -> ->. left. reflexivity.
        -- right. exists k, cl. auto.
    + rewrite IH. split.
      * intros (k & cl & Hin & Hu & ->). exists k, cl. split; [right|]; auto.
      * intros (k & cl & Hin & Hu & ->).
        apply elem_of_cons in Hin as [Heq|Hin].
        -- injection Heq as -> ->. contradiction.
        -- exists k, cl. auto.
Qed.

Lemma writes_to_absent write_ok userID clients c :
  (∀ k client, (k, client) ∈ clients → Conn client = k) →
  c ∉ clients.*1 →
  writes_to c (send_loop write_ok userID clients) = 0%nat.
Proof.
  intros Hconn Hc. unfold writes_to.
  induction clients as [|[k0 cl0] rest IH]; [reflexivity|].
  cbn [send_loop]. cbn [fmap list_fmap fst] in Hc.
  apply not_elem_of_cons in Hc as [Hne Hc].
  assert (Hk0 : Conn cl0 = k0) by (apply Hconn; left).
  assert (IH' := IH (fun k cl H => Hconn k cl (list_elem_of_further _ _ _ H)) Hc).
  destruct (UserID cl0 =? userID)%N; [|exact IH'].
  rewrite filter_cons_False; [exact IH'|].
  cbn [to]. rewrite Hk0. congruence.
Qed.

Lemma writes_to_once write_ok userID clients c client :
  (∀ k cl, (k, cl) ∈ clients → Conn cl = k) →
  NoDup clients.*1 →
  (c, client) ∈ clients → UserID client = userID →
  writes_to c (send_loop write_ok userID clients) = 1%nat.
Proof.
  intros Hconn Hnd Hin Hu.
  induction clients as [|[k0 cl0] rest IH]; [inversion Hin|].
  cbn [fmap list_fmap fst] in Hnd. apply NoDup_cons in Hnd as [Hk0 Hnd].
  assert (Hrest : ∀ k cl, (k, cl) ∈ rest → Conn cl = k)
    by (intros k cl H; apply Hconn; right; exact H).
  assert (HC0 : Conn cl0 = k0) by (apply Hconn; left).
  cbn [send_loop]. apply elem_of_cons in Hin as [Heq|Hin].
  - injection Heq as <- <-. rewrite (proj2 (N.eqb_eq _ _) Hu).
    unfold writes_to. rewrite filter_cons_True by exact HC0.
    cbn [length]. f_equal.
    apply (writes_to_absent write_ok userID rest c Hrest Hk0).
  - assert (Hne : k0 ≠ c).
    { intros ->. apply Hk0. apply list_elem_of_fmap. exists (c, client). auto. }
    specialize (IH Hrest Hnd Hin).
    destruct (UserID cl0 =? userID)%N; [|exact IH].
    unfold writes_to. rewrite filter_cons_False; [exact IH|].
    cbn [to]. rewrite HC0. exact Hne.
Qed.

(** C9: whatever the order in which the registry is enumerated and
    whichever writes fail, [SendToUser] makes exactly one write to every
    registered connection of the user, each write succeeds or fails on
    its own connection's account only, no write goes to anyone else's
    connection, and the call returns (it has no error result). *)
Theorem SendToUser_reaches_every_connection h order write_ok userID :
  built h → enumerates order h →
  let writes := send_loop write_ok userID order in
  (∀ c client, h !! c = Some client → UserID client = userID →
     {| to := c; delivered := write_ok c |} ∈ writes
     ∧ writes_to c writes = 1%nat)
  ∧ (∀ wr, wr ∈ writes →
       ∃ client, h !! to wr = Some client ∧ UserID client = userID
                 ∧ delivered wr = write_ok (to wr))
  ∧ enumerates (map_to_list h) h
  ∧ SendToUser h write_ok userID = send_loop write_ok userID (map_to_list h).
Proof.
  intros Hb Hperm writes. unfold enumerates in Hperm.
  assert (Hin : ∀ k cl, (k, cl) ∈ order ↔ h !! k = Some cl).
  { intros k cl. rewrite Hperm. apply elem_of_map_to_list. }
  assert (Hconn : ∀ k cl, (k, cl) ∈ order → Conn cl = k).
  { intros k cl H. apply (built_Conn h Hb). apply Hin, H. }
  assert (Hnd : NoDup order.*1).
  { rewrite Hperm. apply NoDup_fst_map_to_list. }
  split; [|split; [|split; [unfold enumerates|]; reflexivity]].
  - intros c client Hc Hu. split.
    + apply elem_of_send_loop. exists c, client.
      split; [apply Hin; assumption|]. split; [assumption|].
      unfold write_to. rewrite (built_Conn h Hb c client); auto.
    + apply (writes_to_once write_ok userID order c client); auto.
      apply Hin. assumption.
  - intros wr Hwr. apply elem_of_send_loop in Hwr as (k & cl & Hk & Hu & ->).
    exists cl. cbn [to delivered write_to].
    rewrite (Hconn k cl Hk). split; [apply Hin, Hk|]. auto.
Qed.

Lemma SendToUser_reaches_every_connection_witness :
  built three_live ∧ enumerates (map_to_list three_live) three_live
  ∧ {| to := 1%N; delivered := true |} ∈ SendToUser three_live second_fails 7%N
  ∧ {| to := 2%N; delivered := false |} ∈ SendToUser three_live second_fails 7%N
  ∧ {| to := 3%N; delivered := true |} ∈ SendToUser three_live second_fails 7%N.
Proof.
  assert (Hb : built three_live) by (repeat constructor).
  assert (He : enumerates (map_to_list three_live) three_live)
    by (unfold enumerates; reflexivity).
  pose proof (SendToUser_reaches_every_connection three_live _ second_fails 7%N
                Hb He) as H.
  cbv zeta in H. destruct H as (Hall & _).
  split; [exact Hb|]. split; [exact He|].
  unfold SendToUser.
  split; [|split].
  - apply (Hall 1%N {| Conn := 1%N; UserID := 7%N |}); reflexivity.
  - apply (Hall 2%N {| Conn := 2%N; UserID := 7%N |}); reflexivity.
  - apply (Hall 3%N {| Conn := 3%N; UserID := 7%N |}); reflexivity.
Defined.

End Hub.

(* ===================================================================== *)
(** ** Submission: the synchronous part of the handlers *)
(* ===================================================================== *)

Module Submission.
Import handlers submission.

Section Handlers.

Variable SanitizeInput : string → string.
Variable music_valid : models.GenerateMusicRequest → bool.
Variable video_valid : models.GenerateVideoRequest → bool.

(** C6: a music job costs 1 and a video job 2, or 3 with narration; and
    a valid request of a user whose balance is below the cost is
    answered 402 with the world untouched (no job row, no balance
    change, no ledger row, no notification) and no goroutine started. *)
Theorem insufficient_credits_rejected minimax userID db_up w c :
  users w !! userID = Some c →
  (∀ req, music_valid req = true → c < 1 →
     GenerateMusic SanitizeInput music_valid minimax userID (Some req) db_up w
     = (payment_required, w, None))
  ∧ (∀ req, video_valid req = true → c < video_cost req →
     GenerateVideo SanitizeInput video_valid minimax userID (Some req) db_up w
     = (payment_required, w, None))
  ∧ (∀ body,
       let '(resp, w', _) :=
         GenerateMusic SanitizeInput music_valid minimax userID body db_up w in
       replies_job resp w' models.TypeMusic 1)
  ∧ (∀ req,
       let '(resp, w', _) :=
         GenerateVideo SanitizeInput video_valid minimax userID (Some req)
           db_up w in
       replies_job resp w' models.TypeVideo (video_cost req)).
Proof.
  intros Hu.
  assert (Hfirst : db_First_user userID w
                   = Some {| models.user_ID := userID; models.Credits := c |})
    by (unfold db_First_user; rewrite Hu; reflexivity).
  split; [|split; [|split]].
  - intros req Hv Hc. unfold handlers.GenerateMusic.
    rewrite Hv, Hfirst. cbn [negb models.Credits].
    apply Z.ltb_lt in Hc. rewrite Hc. reflexivity.
  - intros req Hv Hc. unfold handlers.GenerateVideo.
    rewrite Hv, Hfirst. cbn [negb models.Credits].
    unfold video_cost in Hc.
    destruct (String.eqb (models.vreq_Narration req) ""); cbn [negb];
      apply Z.ltb_lt in Hc; rewrite Hc; reflexivity.
  - intros [req|]; unfold handlers.GenerateMusic, replies_job;
      [|intros msg g Hb; discriminate Hb].
    rewrite Hfirst. cbn [models.Credits].
    destruct (negb (music_valid req)); [intros msg g Hb; discriminate Hb|].
    destruct (c <? 1); [intros msg g Hb; discriminate Hb|].
    destruct (negb db_up); [intros msg g Hb; discriminate Hb|].
    cbn [db_Create_generation].
    destruct (negb (services.IsConfigured minimax));
      intros msg g Hb; cbn [body] in Hb; injection Hb as _ <-;
      (split; [reflexivity|]); (split; [reflexivity|]);
      eexists; (split; [apply lookup_insert_eq|]); split; reflexivity.
  - intros req. unfold handlers.GenerateVideo, replies_job, video_cost.
    rewrite Hfirst. cbn [models.Credits].
    destruct (negb (video_valid req)); [intros msg g Hb; discriminate Hb|].
    destruct (String.eqb (models.vreq_Narration req) ""); cbn [negb andb];
      (destruct (c <? _); [intros msg g Hb; discriminate Hb|]);
      try (destruct (match snd (services.CalculateOptimalSpeed _ _) with
                     | Some services.ErrNarrationTooLong => true
                     | _ => false
                     end); [intros msg g Hb; discriminate Hb|]);
      (destruct (negb db_up); [intros msg g Hb; discriminate Hb|]);
      cbn [db_Create_generation];
      destruct (negb (services.IsConfigured minimax));
      intros msg g Hb; cbn [body] in Hb; injection Hb as _ <-;
      (split; [reflexivity|]); (split; [reflexivity|]);
      eexists; (split; [apply lookup_insert_eq|]); split; reflexivity.
Qed.

(** C7: a video request whose narration the speed calculator, run on
    the narration and the duration in force, reports too long leaves
    the world untouched and starts no goroutine; when the request is
    valid and its user has the 3 credits, the reply is a 400 whose
    message gives the narration's word count and the word limit the
    handler computes for that duration. *)
Theorem narration_too_long_rejected minimax userID req db_up w :
  models.vreq_Narration req ≠ "" →
  too_long req →
  let r := GenerateVideo SanitizeInput video_valid minimax userID (Some req)
             db_up w in
  snd (fst r) = w ∧ snd r = None
  ∧ (∀ c, video_valid req = true → users w !! userID = Some c → 3 <= c →
       fst (fst r)
       = {| code := 400;
            body :=
              ErrorBody "Narration Too Long"
                ("Narration has "
                 +:+ pretty (Z.of_nat
                               (length (GoStrings.Fields
                                          (models.vreq_Narration req))))
                 +:+ " words, max ~"
                 +:+ pretty (F64.to_int
                               (F64.mul
                                  (F64.mul
                                     (F64.of_int (effective_duration req))
                                     F64.c2_5) F64.c1_3))
                 +:+ " words for " +:+ pretty (effective_duration req)
                 +:+ "s video.") |}).
Proof.
  intros Hn Hlong r. subst r. unfold too_long, effective_duration in *.
  unfold handlers.GenerateVideo.
  destruct (String.eqb_spec (models.vreq_Narration req) "") as [E|_];
    [contradiction|].
  cbn [negb andb]. rewrite Hlong.
  split; [|split].
  - destruct (negb (video_valid req)); [reflexivity|].
    destruct (db_First_user userID w); [|reflexivity].
    destruct (models.Credits u <? 3); reflexivity.
  - destruct (negb (video_valid req)); [reflexivity|].
    destruct (db_First_user userID w); [|reflexivity].
    destruct (models.Credits u <? 3); reflexivity.
  - intros c Hv Hu Hc. rewrite Hv. unfold db_First_user. rewrite Hu.
    cbn [negb models.Credits].
    apply Z.ltb_ge in Hc. rewrite Hc. reflexivity.
Qed.

End Handlers.

End Submission.

(* ===================================================================== *)
(** ** The credit ledger across the pipelines *)
(* ===================================================================== *)

Module Ledger.
Import handlers system books.

(** Reduce the tables of a world built by the storage helpers. *)
Ltac tables :=
  cbn [generations credit_transactions next_generation users world_of
       progress SendToUser invalidate db_Save_generation db_Update_credits
       db_Create_transaction fail_generation db_Create_generation fst snd].

Lemma ID_set_Status v g : models.ID (models.set_Status v g) = models.ID g.
Proof. destruct g; reflexivity. Qed.
Lemma ID_set_OutputURL v g : models.ID (models.set_OutputURL v g) = models.ID g.
Proof. destruct g; reflexivity. Qed.
Lemma ID_set_ThumbnailURL v g : models.ID (models.set_ThumbnailURL v g) = models.ID g.
Proof. destruct g; reflexivity. Qed.
Lemma ID_set_MiniMaxJobID v g : models.ID (models.set_MiniMaxJobID v g) = models.ID g.
Proof. destruct g; reflexivity. Qed.
Lemma ID_set_ErrorMessage v g : models.ID (models.set_ErrorMessage v g) = models.ID g.
Proof. destruct g; reflexivity. Qed.
Lemma ID_set_Metadata v g : models.ID (models.set_Metadata v g) = models.ID g.
Proof. destruct g; reflexivity. Qed.

Lemma Cost_set_Status v g :
  models.CreditsCost (models.set_Status v g) = models.CreditsCost g.
Proof. destruct g; reflexivity. Qed.
Lemma Cost_set_OutputURL v g :
  models.CreditsCost (models.set_OutputURL v g) = models.CreditsCost g.
Proof. destruct g; reflexivity. Qed.
Lemma Cost_set_ThumbnailURL v g :
  models.CreditsCost (models.set_ThumbnailURL v g) = models.CreditsCost g.
Proof. destruct g; reflexivity. Qed.
Lemma Cost_set_MiniMaxJobID v g :
  models.CreditsCost (models.set_MiniMaxJobID v g) = models.CreditsCost g.
Proof. destruct g; reflexivity. Qed.
Lemma Cost_set_ErrorMessage v g :
  models.CreditsCost (models.set_ErrorMessage v g) = models.CreditsCost g.
Proof. destruct g; reflexivity. Qed.
Lemma Cost_set_Metadata v g :
  models.CreditsCost (models.set_Metadata v g) = models.CreditsCost g.
Proof. destruct g; reflexivity. Qed.

Lemma Status_set_Status v g : models.Status (models.set_Status v g) = v.
Proof. destruct g; reflexivity. Qed.
Lemma Status_set_OutputURL v g :
  models.Status (models.set_OutputURL v g) = models.Status g.
Proof. destruct g; reflexivity. Qed.
Lemma Status_set_ThumbnailURL v g :
  models.Status (models.set_ThumbnailURL v g) = models.Status g.
Proof. destruct g; reflexivity. Qed.
Lemma Status_set_MiniMaxJobID v g :
  models.Status (models.set_MiniMaxJobID v g) = models.Status g.
Proof. destruct g; reflexivity. Qed.
Lemma Status_set_ErrorMessage v g :
  models.Status (models.set_ErrorMessage v g) = models.Status g.
Proof. destruct g; reflexivity. Qed.
Lemma Status_set_Metadata v g :
  models.Status (models.set_Metadata v g) = models.Status g.
Proof. destruct g; reflexivity. Qed.

Create Rewrite HintDb job.
#[local] Hint Rewrite ID_set_Status ID_set_OutputURL ID_set_ThumbnailURL
  ID_set_MiniMaxJobID ID_set_ErrorMessage ID_set_Metadata
  Cost_set_Status Cost_set_OutputURL Cost_set_ThumbnailURL
  Cost_set_MiniMaxJobID Cost_set_ErrorMessage Cost_set_Metadata
  Status_set_Status Status_set_OutputURL Status_set_ThumbnailURL
  Status_set_MiniMaxJobID Status_set_ErrorMessage Status_set_Metadata : job.

Lemma fail_generation_effect userID g msg cost w0 w :
  models.CreditsCost g = cost →
  generations w = generations w0 →
  credit_transactions w = credit_transactions w0 →
  next_generation w = next_generation w0 →
  job_effect (models.ID g) cost w0 (fail_generation userID g msg w).
Proof.
  intros Hcost Hg Hl Hn. split; [exact Hn|]. right.
  exists (models.set_ErrorMessage msg (models.set_Status models.StatusFailed g)).
  tables. autorewrite with job. rewrite Hg, Hl.
  repeat split; try reflexivity; try exact Hcost.
  right. split; [discriminate|reflexivity].
Qed.

Lemma music_pipeline_effect minimax env userID user g req w :
  models.CreditsCost g = 1 →
  job_effect (models.ID g) 1 w
    (world_of (music_pipeline minimax env userID user g req w)).
Proof.
  intros Hcost. unfold music_pipeline.
  destruct (services.GenerateMusic _ _ _ _ _ _ _) as [err|resp].
  { apply fail_generation_effect; [exact Hcost|reflexivity..]. }
  match goal with
  | |- context [match ?a with inl msg => _ | inr audioURL => _ end] =>
      destruct a as [msg|audioURL]
  end.
  { apply fail_generation_effect; [exact Hcost|reflexivity..]. }
  destruct (services.GenerateImage _ _ _) as [|art].
  { split; [reflexivity|]. left. split; reflexivity. }
  split; [reflexivity|]. right. tables.
  destruct art; autorewrite with job;
    (eexists; split; [reflexivity|]); autorewrite with job;
    (split; [reflexivity|]); (split; [exact Hcost|]);
    left; (split; [reflexivity|]); eexists; repeat split; reflexivity.
Qed.

(** The narration step rewrites no table and keeps the job's key, cost
    and status. *)
Lemma narrate_frame minimax env userID g req duration videoURL w :
  let '(g', _, w') := narrate minimax env userID g req duration videoURL w in
  generations w' = generations w
  ∧ credit_transactions w' = credit_transactions w
  ∧ next_generation w' = next_generation w
  ∧ users w' = users w
  ∧ models.ID g' = models.ID g
  ∧ models.CreditsCost g' = models.CreditsCost g
  ∧ models.Status g' = models.Status g.
Proof.
  unfold narrate.
  destruct (services.GenerateTTSWithSpeed _ _ _ _ _) as [err|ttsResp].
  - autorewrite with job. repeat split; reflexivity.
  - destruct (combine env _ _ _); autorewrite with job; repeat split; reflexivity.
Qed.

Lemma video_pipeline_effect minimax env userID user g req model duration
    resolution creditCost w :
  models.CreditsCost g = creditCost →
  creditCost = 2 ∨ creditCost = 3 →
  models.Status g = models.StatusProcessing →
  job_effect (models.ID g) creditCost w
    (world_of (video_pipeline minimax env userID user g req model duration
                 resolution creditCost w)).
Proof.
  intros Hcost Hrange Hst. unfold video_pipeline.
  assert (Hneg : Int64.neg creditCost = - creditCost)
    by (destruct Hrange as [-> | ->]; reflexivity).
  destruct (services.GenerateVideo _ _ _ _ _ _) as [err|resp].
  { apply fail_generation_effect; [exact Hcost|reflexivity..]. }
  destruct (services.WaitForCompletion _ _ _ _ _) as [[err|status]|].
  - (* the poll failed: the row saved with the job handle is saved again *)
    split; [reflexivity|]. right. tables. autorewrite with job.
    eexists. split; [apply insert_insert_eq|].
    autorewrite with job.
    repeat split; try reflexivity; try exact Hcost.
    right. split; [discriminate|reflexivity].
  - (* the poll succeeded *)
    destruct (negb (String.eqb (models.vreq_Narration req) "")).
    + match goal with
      | |- context [narrate ?a1 ?a2 ?a3 ?a4 ?a5 ?a6 ?a7 ?a8] =>
          pose proof (narrate_frame a1 a2 a3 a4 a5 a6 a7 a8) as Hn;
          revert Hn;
          destruct (narrate a1 a2 a3 a4 a5 a6 a7 a8) as [[g' url] w'];
          intros Hn
      end.
      destruct Hn as (Hg & Hl & Hnext & _ & Hid & Hc & _).
      revert Hg Hl Hnext Hid Hc. tables. autorewrite with job.
      intros Hg Hl Hnext Hid Hc.
      split; [exact Hnext|]. right. tables. autorewrite with job.
      rewrite Hid, Hg, Hl.
      eexists. split; [apply insert_insert_eq|].
      autorewrite with job. rewrite Hid, Hc.
      repeat split; try reflexivity; try exact Hcost.
      left. split; [reflexivity|]. eexists.
      repeat split; try reflexivity. exact Hneg.
    + split; [reflexivity|]. right. tables. autorewrite with job.
      eexists. split; [apply insert_insert_eq|].
      autorewrite with job.
      repeat split; try reflexivity; try exact Hcost.
      left. split; [reflexivity|]. eexists.
      repeat split; try reflexivity. exact Hneg.
  - (* still polling: only the job handle was saved *)
    split; [reflexivity|]. right. tables. autorewrite with job.
    eexists. split; [reflexivity|]. autorewrite with job.
    repeat split; try reflexivity; try exact Hcost.
    right. split; [rewrite Hst; discriminate|reflexivity].
Qed.

(** *** What a goroutine carries *)

Section Handlers.

Variable SanitizeInput : string → string.
Variable music_valid : models.GenerateMusicRequest → bool.
Variable video_valid : models.GenerateVideoRequest → bool.
Variable minimax : services.MiniMaxService.

Lemma GenerateMusic_effect userID body db_up w :
  submit_effect (services.IsConfigured minimax) w
    (GenerateMusic SanitizeInput music_valid minimax userID body db_up w).
Proof.
  unfold GenerateMusic, submit_effect.
  destruct body as [req|]; [|left; split; reflexivity].
  destruct (negb (music_valid req)); [left; split; reflexivity|].
  destruct (db_First_user userID w) as [user|]; [|left; split; reflexivity].
  destruct (models.Credits user <? 1); [left; split; reflexivity|].
  destruct (negb db_up); [left; split; reflexivity|].
  right. tables.
  destruct (services.IsConfigured minimax); cbn [negb]; tables.
  - repeat split; try reflexivity.
    eexists. repeat split; try reflexivity.
    eexists. repeat split; try reflexivity. cbn. auto.
  - repeat split; try reflexivity.
    eexists. split; [|split; [apply insert_insert_eq|]];
      autorewrite with job; split; reflexivity.
Qed.

Lemma GenerateVideo_effect userID body db_up w :
  submit_effect (services.IsConfigured minimax) w
    (GenerateVideo SanitizeInput video_valid minimax userID body db_up w).
Proof.
  unfold GenerateVideo, submit_effect.
  destruct body as [req|]; [|left; split; reflexivity].
  destruct (negb (video_valid req)); [left; split; reflexivity|].
  destruct (db_First_user userID w) as [user|]; [|left; split; reflexivity].
  set (creditCost := if negb (String.eqb (models.vreq_Narration req) "")
                     then 3 else 2).
  assert (Hcost : creditCost = 2 ∨ creditCost = 3)
    by (subst creditCost; destruct (negb _); auto).
  destruct (models.Credits user <? creditCost); [left; split; reflexivity|].
  match goal with
  | |- context [if ?b && ?c then _ else _] =>
      destruct (b && c); [left; split; reflexivity|]
  end.
  destruct (negb db_up); [left; split; reflexivity|].
  right. tables.
  destruct (services.IsConfigured minimax); cbn [negb]; tables.
  - repeat split; try reflexivity.
    eexists. repeat split; try reflexivity.
    eexists. repeat split; try reflexivity; cbn; tauto.
  - repeat split; try reflexivity.
    eexists. split; [|split; [apply insert_insert_eq|]];
      autorewrite with job; split; reflexivity.
Qed.

End Handlers.

(** *** The invariant of the running service *)

Lemma Inv_init configured credits redis : Inv configured (init credits redis).
Proof.
  split; cbn.
  - intros id g H. rewrite lookup_empty in H. discriminate.
  - intros tx H. inversion H.
  - intros _ id g H. rewrite lookup_empty in H. discriminate.
  - intros t H. inversion H.
  - constructor.
  - intros _. repeat split. intros id g H. rewrite lookup_empty in H. discriminate.
Qed.

Lemma Inv_submit configured s r :
  Inv configured s →
  submit_effect configured (world s) r →
  Inv configured (after_handler r (tasks s)).
Proof.
  intros [Hkey Htx Hdone Htask Hnd Hdemo] [[Hw Ht] | (Hnext & Hl & _ & g & Hid & Hg & Hc)].
  - (* rejected *)
    destruct r as [[resp w'] t]. cbn in Hw, Ht. subst w' t.
    destruct s as [w ts]. split; assumption.
  - (* a row was inserted under the next key *)
    destruct r as [[resp w'] t]. cbn [fst snd] in *.
    assert (Hfresh : generations (world s) !! next_generation (world s) = None).
    { destruct (generations (world s) !! next_generation (world s)) eqn:E;
        [|reflexivity].
      apply Hkey in E as [_ E]. lia. }
    assert (Hold : ∀ id g0, generations (world s) !! id = Some g0 →
                            generations w' !! id = Some g0).
    { intros id g0 H. rewrite Hg, lookup_insert_ne; [exact H|].
      intros <-. rewrite Hfresh in H. discriminate. }
    split; unfold after_handler; cbn [world tasks fst snd].
    + intros id g0. rewrite Hg, Hnext.
      destruct (decide (next_generation (world s) = id)) as [<-|Hne].
      * rewrite lookup_insert_eq. intros [= <-]. split; [exact Hid|lia].
      * rewrite lookup_insert_ne by exact Hne. intros H.
        apply Hkey in H as [H1 H2]. split; [exact H1|lia].
    + rewrite Hl. intros tx Hin.
      destruct (Htx tx Hin) as (id & g0 & H1 & H2 & H3 & H4).
      exists id, g0. repeat split; auto.
    + intros Hconf id g0. rewrite Hg.
      destruct (decide (next_generation (world s) = id)) as [<-|Hne].
      * rewrite lookup_insert_eq. intros [= <-] Hst.
        rewrite Hconf in Hc. destruct Hc as [Hp _]. congruence.
      * rewrite lookup_insert_ne by exact Hne. intros H Hst.
        destruct (Hdone Hconf id g0 H Hst) as (tx & H1 & H2 & H3).
        exists tx. rewrite Hl. auto.
    + intros t0 Hin.
      assert (Hcases : t0 ∈ tasks s ∨ (t = Some t0)).
      { destruct t as [t1|]; cbn [spawn] in Hin; [|left; exact Hin].
        apply elem_of_app in Hin as [Hin|Hin]; [left; exact Hin|].
        apply list_elem_of_singleton in Hin. subst. right. reflexivity. }
      destruct Hcases as [Hin0 | ->].
      * destruct (Htask t0 Hin0) as [Hok (g0 & H1 & H2)].
        split; [exact Hok|]. exists g0. split; [apply Hold, H1|exact H2].
      * destruct configured; [|destruct Hc; discriminate].
        destruct Hc as [Hp (t1 & [= <-] & Hgen & Hok)].
        split; [exact Hok|]. exists g. unfold task_id. rewrite Hgen, Hid, Hg.
        split; [apply lookup_insert_eq|exact Hp].
    + destruct t as [t1|]; cbn [spawn]; [|exact Hnd].
      rewrite fmap_app. apply NoDup_app. split; [exact Hnd|].
      split; [|apply NoDup_singleton].
      intros id Hin1 Hin2. cbn in Hin2. apply list_elem_of_singleton in Hin2.
      apply list_elem_of_fmap in Hin1 as (t0 & -> & Hin0).
      destruct (Htask t0 Hin0) as [_ (g0 & H1 & _)].
      apply Hkey in H1 as [_ H1].
      destruct configured; [|destruct Hc; discriminate].
      destruct Hc as [_ (t2 & [= <-] & Hgen & _)].
      unfold task_id in Hin2 at 2. rewrite Hgen, Hid in Hin2. lia.
    + intros Hconf. rewrite Hconf in Hc. destruct Hc as [Hst ->].
      destruct (Hdemo Hconf) as (Hts & Hledger & Hall).
      cbn [spawn]. rewrite Hl. repeat split; auto.
      intros id g0. rewrite Hg.
      destruct (decide (next_generation (world s) = id)) as [<-|Hne].
      * rewrite lookup_insert_eq. intros [= <-]. exact Hst.
      * rewrite lookup_insert_ne by exact Hne. apply Hall.
Qed.

Lemma Inv_run configured w pre t post w' :
  Inv configured {| world := w; tasks := pre ++ t :: post |} →
  job_effect (task_id t) (task_cost t) w w' →
  Inv configured {| world := w'; tasks := pre ++ post |}.
Proof.
  intros [Hkey Htx Hdone Htask Hnd Hdemo] [Hnext Heff].
  cbn [world tasks] in *.
  assert (Hin_t : t ∈ pre ++ t :: post)
    by (apply elem_of_app; right; left).
  assert (Hsub : ∀ t0, t0 ∈ pre ++ post → t0 ∈ pre ++ t :: post).
  { intros t0 H. apply elem_of_app in H as [H|H]; apply elem_of_app;
      [left|right; right]; exact H. }
  assert (Hnd' : NoDup (task_id <$> pre ++ post) ∧
                 ∀ t0, t0 ∈ pre ++ post → task_id t0 ≠ task_id t).
  { rewrite fmap_app in Hnd. cbn [fmap list_fmap] in Hnd.
    apply NoDup_app in Hnd as (Hpre & Hdisj & Hpost).
    apply NoDup_cons in Hpost as [Hnot Hpost].
    split.
    - rewrite fmap_app. apply NoDup_app. split; [exact Hpre|].
      split; [|exact Hpost].
      intros x H1 H2. apply (Hdisj x H1). right. exact H2.
    - intros t0 H E. apply elem_of_app in H as [H|H].
      + apply (Hdisj (task_id t0)); [apply list_elem_of_fmap_2, H|].
        rewrite E. left.
      + apply Hnot. rewrite <- E. apply list_elem_of_fmap_2, H. }
  destruct Hnd' as [Hnd' Hother].
  destruct (Htask t Hin_t) as [Hok (gt & Hgt & Hgt_st)].
  assert (Hconf : configured = true).
  { destruct configured; [reflexivity|].
    destruct (Hdemo eq_refl) as [E _].
    destruct pre; discriminate E. }
  destruct Heff as [[Hg Hl] | (g' & Hg & Hid & Hcost & Hcase)].
  - (* the tables are as before *)
    split; cbn [world tasks]; rewrite ?Hg, ?Hl, ?Hnext; auto.
    + intros Hc id g H Hst. destruct (Hdone Hc id g H Hst) as (tx & H1 & H2).
      exists tx. rewrite Hl. auto.
    + intros Hc. congruence.
  - (* the job's row was rewritten *)
    assert (Hold : ∀ id g0, id ≠ task_id t →
              generations w' !! id = Some g0 ↔ generations w !! id = Some g0).
    { intros id g0 Hne. rewrite Hg, lookup_insert_ne by congruence.
      reflexivity. }
    assert (Hcompleted_ne : ∀ id g0, generations w !! id = Some g0 →
              models.Status g0 = models.StatusCompleted → id ≠ task_id t).
    { intros id g0 H Hst ->. rewrite Hgt in H. injection H as <-. congruence. }
    assert (Hledger : ∀ tx, tx ∈ credit_transactions w →
                            tx ∈ credit_transactions w').
    { intros tx H. destruct Hcase as [[_ (tx' & -> & _)] | [_ ->]];
        [apply elem_of_app; left|]; exact H. }
    split; cbn [world tasks].
    + intros id g0. rewrite Hg, Hnext.
      destruct (decide (task_id t = id)) as [<-|Hne].
      * rewrite lookup_insert_eq. intros [= <-].
        split; [exact Hid|]. apply (Hkey _ _ Hgt).
      * rewrite lookup_insert_ne by exact Hne. apply Hkey.
    + intros tx Hin.
      assert (Hcases : tx ∈ credit_transactions w
                       ∨ (models.Status g' = models.StatusCompleted
                          ∧ models.GenerationID tx = Some (task_id t)
                          ∧ models.Amount tx = - task_cost t)).
      { destruct Hcase as [[Hst (tx' & Hl & H1 & H2)] | [_ Hl]];
          rewrite Hl in Hin; [|left; exact Hin].
        apply elem_of_app in Hin as [Hin|Hin]; [left; exact Hin|].
        apply list_elem_of_singleton in Hin. subst tx'. right. auto. }
      destruct Hcases as [Hin0 | (Hst & H1 & H2)].
      * destruct (Htx tx Hin0) as (id & g0 & H1 & H2 & H3 & H4).
        exists id, g0. repeat split; auto.
        apply Hold; [eapply Hcompleted_ne; eauto|exact H2].
      * exists (task_id t), g'. rewrite Hg, lookup_insert_eq, Hcost. auto.
    + intros _ id g0 H Hst.
      destruct (decide (task_id t = id)) as [<-|Hne].
      * rewrite Hg, lookup_insert_eq in H. injection H as <-.
        destruct Hcase as [[_ (tx & Hl & H1 & H2)] | [Hnot _]];
          [|contradiction].
        exists tx. rewrite Hl, Hcost. split; [|auto].
        apply elem_of_app. right. left.
      * apply Hold in H; [|congruence].
        destruct (Hdone Hconf id g0 H Hst) as (tx & H1 & H2).
        exists tx. split; [apply Hledger, H1|exact H2].
    + intros t0 Hin0.
      destruct (Htask t0 (Hsub t0 Hin0)) as [Hok0 (g0 & H1 & H2)].
      split; [exact Hok0|]. exists g0. split; [|exact H2].
      apply Hold; [apply Hother, Hin0|exact H1].
    + exact Hnd'.
    + intros Hc. congruence.
Qed.

Section Reachable.

Variable SanitizeInput : string → string.
Variable music_valid : models.GenerateMusicRequest → bool.
Variable video_valid : models.GenerateVideoRequest → bool.
Variable minimax : services.MiniMaxService.

Let step := step SanitizeInput music_valid video_valid minimax.
Let reachable := reachable SanitizeInput music_valid video_valid minimax.
Let configured := services.IsConfigured minimax.

Lemma run_effect t menv venv w :
  task_ok t →
  job_effect (task_id t) (task_cost t) w (world_of (run minimax t menv venv w)).
Proof.
  intros (Hcost & Hst & _ & Hrange).
  destruct t as [userID user g req | userID user g req model duration
                                       resolution creditCost];
    cbn [run task_id task_cost task_generation] in *.
  - apply music_pipeline_effect, Hcost.
  - apply video_pipeline_effect; assumption.
Qed.

Lemma step_Inv s s' : step s s' → Inv configured s → Inv configured s'.
Proof.
  intros Hstep HI. destruct Hstep as [s userID body db_up
                                     | s userID body db_up
                                     | w pre t post menv venv].
  - apply Inv_submit; [exact HI|apply GenerateMusic_effect].
  - apply Inv_submit; [exact HI|apply GenerateVideo_effect].
  - eapply Inv_run; [exact HI|]. apply run_effect.
    apply (inv_task _ _ HI). cbn [tasks]. apply elem_of_app. right. left.
Qed.

Lemma reachable_Inv credits redis s :
  reachable (init credits redis) s → Inv configured s.
Proof.
  intros H.
  apply (rtc_ind_r (R := step) (fun s => Inv configured s)
           (init credits redis)); [apply Inv_init | | exact H].
  intros y z _ Hyz IH. exact (step_Inv y z Hyz IH).
Qed.

Lemma move_step m s s' :
  move SanitizeInput music_valid video_valid minimax m s = Some s' →
  step s s'.
Proof.
  destruct m as [userID body db_up | userID body db_up | n menv venv];
    cbn [move].
  - intros [= <-]. constructor.
  - intros [= <-]. constructor.
  - destruct (tasks s !! n) as [t|] eqn:E; [|discriminate].
    intros [= <-]. destruct s as [w ts]. cbn [world tasks] in *.
    rewrite <- (take_drop_middle ts n t E) at 1. constructor.
Qed.

Lemma schedule_reachable ms s s' :
  schedule SanitizeInput music_valid video_valid minimax ms s = Some s' →
  reachable s s'.
Proof.
  revert s. induction ms as [|m rest IH]; intros s; cbn [schedule].
  - intros [= <-]. apply rtc_refl.
  - destruct (move _ _ _ _ m s) as [s1|] eqn:E; [|discriminate].
    intros H. eapply rtc_l; [exact (move_step m s s1 E)|apply IH, H].
Qed.

(** C1, amended: in every state the service reaches, a failed job has
    no ledger row; with the provider configured, a ledger row of minus
    the job's cost exists exactly when the job is completed; with the
    provider unconfigured every job is completed on submission and the
    ledger stays empty. *)
Theorem ledger_entry_iff_completed credits redis s id g :
  reachable (init credits redis) s →
  generations (world s) !! id = Some g →
  (models.Status g = models.StatusFailed →
   ∀ tx, tx ∈ credit_transactions (world s) →
         models.GenerationID tx ≠ Some id)
  ∧ (services.IsConfigured minimax = true →
     (has_entry id (- models.CreditsCost g) (world s)
      ↔ models.Status g = models.StatusCompleted))
  ∧ (services.IsConfigured minimax = false →
     models.Status g = models.StatusCompleted
     ∧ credit_transactions (world s) = []).
Proof.
  intros Hreach Hg.
  destruct (reachable_Inv credits redis s Hreach)
    as [Hkey Htx Hdone Htask Hnd Hdemo].
  assert (Hrow : ∀ tx, tx ∈ credit_transactions (world s) →
            models.GenerationID tx = Some id →
            models.Status g = models.StatusCompleted).
  { intros tx Hin Hid.
    destruct (Htx tx Hin) as (id' & g' & H1 & H2 & H3 & _).
    rewrite Hid in H1. injection H1 as <-.
    rewrite Hg in H2. injection H2 as <-. exact H3. }
  split; [|split].
  - intros Hfailed tx Hin Hid.
    pose proof (Hrow tx Hin Hid) as Hc. congruence.
  - intros Hconf. split.
    + intros (tx & Hin & Hid & _). exact (Hrow tx Hin Hid).
    + intros Hst. apply (Hdone Hconf id g Hg Hst).
  - intros Hconf. destruct (Hdemo Hconf) as (_ & Hl & Hall).
    split; [apply (Hall id g Hg)|exact Hl].
Qed.

End Reachable.

(** *** The books: what the debits add up to *)

Lemma music_pipeline_debit minimax env userID user g req w :
  debit_effect userID user 1 w
    (world_of (music_pipeline minimax env userID user g req w)).
Proof.
  unfold music_pipeline.
  destruct (services.GenerateMusic _ _ _ _ _ _ _) as [err|resp];
    [left; split; reflexivity|].
  match goal with
  | |- context [match ?a with inl msg => _ | inr audioURL => _ end] =>
      destruct a as [msg|audioURL]
  end; [left; split; reflexivity|].
  destruct (services.GenerateImage _ _ _) as [|art];
    [left; split; reflexivity|].
  right. tables. eexists. repeat split; reflexivity.
Qed.

Lemma video_pipeline_debit minimax env userID user g req model duration
    resolution creditCost w :
  creditCost = 2 ∨ creditCost = 3 →
  debit_effect userID user creditCost w
    (world_of (video_pipeline minimax env userID user g req model duration
                 resolution creditCost w)).
Proof.
  intros Hrange. unfold video_pipeline.
  assert (Hneg : Int64.neg creditCost = - creditCost)
    by (destruct Hrange as [-> | ->]; reflexivity).
  destruct (services.GenerateVideo _ _ _ _ _ _) as [err|resp];
    [left; split; reflexivity|].
  destruct (services.WaitForCompletion _ _ _ _ _) as [[err|status]|];
    [left; split; reflexivity| |left; split; reflexivity].
  destruct (negb (String.eqb (models.vreq_Narration req) "")).
  - match goal with
    | |- context [narrate ?a1 ?a2 ?a3 ?a4 ?a5 ?a6 ?a7 ?a8] =>
        pose proof (narrate_frame a1 a2 a3 a4 a5 a6 a7 a8) as Hn;
        revert Hn;
        destruct (narrate a1 a2 a3 a4 a5 a6 a7 a8) as [[g' url] w'];
        intros Hn
    end.
    destruct Hn as (_ & Hl & _ & Hu & _).
    revert Hl Hu. tables. intros Hl Hu.
    right. tables. rewrite Hl, Hu.
    eexists. repeat split; try reflexivity. exact Hneg.
  - right. tables. eexists. repeat split; try reflexivity. exact Hneg.
Qed.

Lemma ledger_sum_app userID w w' tx :
  credit_transactions w' = credit_transactions w ++ [tx] →
  ledger_sum userID w'
  = ledger_sum userID w
    + (if decide (models.tx_UserID tx = userID) then models.Amount tx else 0).
Proof.
  intros Hl. unfold ledger_sum. rewrite Hl, filter_app, map_app, foldr_app.
  rewrite filter_cons, filter_nil.
  set (old := filter _ (credit_transactions w)).
  destruct (decide (models.tx_UserID tx = userID)); cbn [map foldr].
  - induction old as [|x old IH]; cbn [map foldr]; lia.
  - induction old as [|x old IH]; cbn [map foldr]; lia.
Qed.

Lemma Int64_sub_exact c cost :
  1 <= cost <= c → c <= F64.max_int64 → Int64.sub c cost = c - cost.
Proof.
  unfold Int64.sub, Int64.wrap, F64.max_int64. intros Hc Hmax.
  rewrite Z.mod_small; lia.
Qed.

Lemma Books_init credits0 redis :
  (∀ u c, credits0 !! u = Some c → c <= F64.max_int64) →
  Books credits0 (init credits0 redis).
Proof.
  intros Hmax. split; cbn.
  - intros tx H. inversion H.
  - intros u. unfold ledger_sum. cbn.
    destruct (credits0 !! u) as [c|]; cbn; [f_equal; lia|reflexivity].
  - exact Hmax.
  - intros t H. inversion H.
Qed.

Lemma Books_submit credits0 s r :
  Books credits0 s →
  users (snd (fst r)) = users (world s) →
  credit_transactions (snd (fst r)) = credit_transactions (world s) →
  (∀ t, snd r = Some t → task_funded (world s) t) →
  Books credits0 (after_handler r (tasks s)).
Proof.
  intros [Hrows Hsum Hbound Htask] Hu Hl Hfund.
  destruct r as [[resp w'] t]. cbn [fst snd] in *.
  split; unfold after_handler; cbn [world tasks fst snd].
  - rewrite Hl. exact Hrows.
  - intros u. rewrite Hu. unfold ledger_sum. rewrite Hl. apply Hsum.
  - rewrite Hu. exact Hbound.
  - intros t0 Hin. destruct t as [t1|]; cbn [spawn] in Hin; [|auto].
    apply elem_of_app in Hin as [Hin|Hin]; [auto|].
    apply list_elem_of_singleton in Hin. subst t0.
    destruct (Hfund t1 eq_refl) as (H1 & H2 & H3 & H4).
    split; [exact H1|]. split; [exact H3|].
    split; [apply (Hbound _ _ H2)|exact H4].
Qed.

Lemma Books_run credits0 w pre t post w' :
  Books credits0 {| world := w; tasks := pre ++ t :: post |} →
  debit_effect (task_userID t) (task_user t) (task_cost t) w w' →
  Books credits0 {| world := w'; tasks := pre ++ post |}.
Proof.
  intros [Hrows Hsum Hbound Htask] Heff. cbn [world tasks] in *.
  assert (Hsub : ∀ t0, t0 ∈ pre ++ post → t0 ∈ pre ++ t :: post).
  { intros t0 H. apply elem_of_app in H as [H|H]; apply elem_of_app;
      [left|right; right]; exact H. }
  destruct (Htask t) as (Hid & Hcost & Hmax & _);
    [apply elem_of_app; right; left|].
  destruct Heff as [[Hl Hu] | (tx & Hl & Hu & Htu & Ham & Hbefore & Hafter)].
  - split; cbn [world tasks].
    + rewrite Hl. exact Hrows.
    + intros u. rewrite Hu. unfold ledger_sum. rewrite Hl. apply Hsum.
    + rewrite Hu. exact Hbound.
    + intros t0 H. apply Htask, Hsub, H.
  - split; cbn [world tasks].
    + rewrite Hl. intros tx0 Hin.
      apply elem_of_app in Hin as [Hin|Hin]; [apply Hrows, Hin|].
      apply list_elem_of_singleton in Hin. subst tx0.
      rewrite Hafter, Hbefore, Ham. rewrite Int64_sub_exact by lia. lia.
    + intros u. rewrite (ledger_sum_app u w w' tx Hl), Hu, Htu, Ham, Hid.
      destruct (decide (task_userID t = u)) as [->|Hne].
      * rewrite lookup_alter_eq, Hsum.
        destruct (credits0 !! u); cbn; [f_equal; lia|reflexivity].
      * rewrite lookup_alter_ne by exact Hne. rewrite Hsum.
        destruct (credits0 !! u); cbn; [f_equal; lia|reflexivity].
    + intros u c. rewrite Hu, Hid.
      destruct (decide (task_userID t = u)) as [->|Hne].
      * rewrite lookup_alter_eq.
        destruct (users w !! u) as [c1|] eqn:E; cbn; [|discriminate].
        intros [= <-]. pose proof (Hbound u c1 E). lia.
      * rewrite lookup_alter_ne by exact Hne. apply Hbound.
    + intros t0 H. apply Htask, Hsub, H.
Qed.

Section Books.

Variable SanitizeInput : string → string.
Variable music_valid : models.GenerateMusicRequest → bool.
Variable video_valid : models.GenerateVideoRequest → bool.
Variable minimax : services.MiniMaxService.

Lemma db_First_user_Some userID w user :
  db_First_user userID w = Some user →
  models.user_ID user = userID
  ∧ users w !! userID = Some (models.Credits user).
Proof.
  unfold db_First_user. destruct (users w !! userID) as [c|]; [|discriminate].
  intros [= <-]. split; reflexivity.
Qed.

Lemma GenerateMusic_books userID body db_up w :
  let r := GenerateMusic SanitizeInput music_valid minimax userID body db_up w in
  users (snd (fst r)) = users w
  ∧ credit_transactions (snd (fst r)) = credit_transactions w
  ∧ ∀ t, snd r = Some t → task_funded w t.
Proof.
  unfold GenerateMusic.
  destruct body as [req|]; [|repeat split; discriminate].
  destruct (negb (music_valid req)); [repeat split; discriminate|].
  destruct (db_First_user userID w) as [user|] eqn:Hu;
    [|repeat split; discriminate].
  apply db_First_user_Some in Hu as [Hid Hc].
  destruct (Z.ltb_spec (models.Credits user) 1) as [Hlt|Hge];
    [repeat split; discriminate|].
  destruct (negb db_up); [repeat split; discriminate|].
  cbn [db_Create_generation].
  destruct (negb (services.IsConfigured minimax)); cbn [fst snd]; tables;
    (split; [reflexivity|]); (split; [reflexivity|]);
    intros t [= <-].
  cbv zeta. unfold task_funded, task_ok.
  cbn [task_user task_userID task_cost task_generation].
  rewrite Hc. repeat split; try assumption; try reflexivity; try lia.
Qed.

Lemma GenerateVideo_books userID body db_up w :
  let r := GenerateVideo SanitizeInput video_valid minimax userID body db_up w in
  users (snd (fst r)) = users w
  ∧ credit_transactions (snd (fst r)) = credit_transactions w
  ∧ ∀ t, snd r = Some t → task_funded w t.
Proof.
  unfold GenerateVideo.
  destruct body as [req|]; [|repeat split; discriminate].
  destruct (negb (video_valid req)); [repeat split; discriminate|].
  destruct (db_First_user userID w) as [user|] eqn:Hu;
    [|repeat split; discriminate].
  apply db_First_user_Some in Hu as [Hid Hc].
  set (creditCost := if negb (String.eqb (models.vreq_Narration req) "")
                     then 3 else 2).
  assert (Hcost : creditCost = 2 ∨ creditCost = 3)
    by (subst creditCost; destruct (negb _); auto).
  destruct (Z.ltb_spec (models.Credits user) creditCost) as [Hlt|Hge];
    [repeat split; discriminate|].
  match goal with
  | |- context [if ?b && ?c then _ else _] =>
      destruct (b && c); [repeat split; discriminate|]
  end.
  destruct (negb db_up); [repeat split; discriminate|].
  cbn [db_Create_generation].
  destruct (negb (services.IsConfigured minimax)); cbn [fst snd]; tables;
    (split; [reflexivity|]); (split; [reflexivity|]);
    intros t [= <-].
  cbv zeta. unfold task_funded, task_ok.
  cbn [task_user task_userID task_cost task_generation].
  rewrite Hc. repeat split; try assumption; try reflexivity; try lia.
Qed.

Lemma run_debit t menv venv w :
  task_ok t →
  debit_effect (task_userID t) (task_user t) (task_cost t) w
    (world_of (run minimax t menv venv w)).
Proof.
  intros (_ & _ & _ & Hrange).
  destruct t as [userID user g req | userID user g req model duration
                                       resolution creditCost];
    cbn [run task_userID task_user task_cost] in *.
  - apply music_pipeline_debit.
  - apply video_pipeline_debit, Hrange.
Qed.

(** What holds of the books in every state the service reaches, with
    goroutines run one at a time: each ledger row has balance-after equal
    to balance-before plus amount, and each user's balance is the initial
    balance plus the sum of the amounts of the user's rows. *)
Lemma reachable_Books credits0 redis s :
  (∀ u c, credits0 !! u = Some c → c <= F64.max_int64) →
  reachable SanitizeInput music_valid video_valid minimax
    (init credits0 redis) s →
  Books credits0 s.
Proof.
  intros Hmax H.
  apply (rtc_ind_r (R := step SanitizeInput music_valid video_valid minimax)
           (fun s => Books credits0 s) (init credits0 redis));
    [apply Books_init, Hmax | | exact H].
  intros y z _ Hyz IH.
  destruct Hyz as [s0 userID body db_up | s0 userID body db_up
                   | w pre t post menv venv].
  - destruct (GenerateMusic_books userID body db_up (world s0)) as (Hu & Hl & Hf).
    apply Books_submit; assumption.
  - destruct (GenerateVideo_books userID body db_up (world s0)) as (Hu & Hl & Hf).
    apply Books_submit; assumption.
  - eapply Books_run; [exact IH|]. apply run_debit.
    apply (books_task _ _ IH). cbn [tasks]. apply elem_of_app. right. left.
Qed.

End Books.

End Ledger.

(* ===================================================================== *)
(** ** Concrete runs *)
(* ===================================================================== *)

Module Runs.
Import handlers system books runs.

Lemma run_schedule_reachable minimax ms s s' :
  run_schedule minimax ms s = Some s' → reachable_from minimax s s'.
Proof. apply Ledger.schedule_reachable. Qed.

(** *** Demo mode *)

(** C1, as stated, fails on the unconfigured path: the handler completes
    the job on the spot and writes no ledger row. *)
Lemma demo_mode_completes_without_entry :
  reachable_from unconfigured ten_credits demo_song
  ∧ (∃ g, generations (world demo_song) !! 1%N = Some g
          ∧ models.Status g = models.StatusCompleted
          ∧ models.CreditsCost g = 1)
  ∧ credit_transactions (world demo_song) = []
  ∧ users (world demo_song) !! 1%N = Some 10
  ∧ ¬ entry_iff_completed_on_every_path.
Proof.
  assert (Hreach : reachable_from unconfigured ten_credits demo_song)
    by (apply (run_schedule_reachable _ [MusicRequest 1 (Some song) true]);
        vm_compute; reflexivity).
  split; [exact Hreach|].
  split; [eexists; repeat split; vm_compute; reflexivity|].
  split; [vm_compute; reflexivity|].
  split; [vm_compute; reflexivity|].
  intros Hclaim.
  assert (Hg : ∃ g, generations (world demo_song) !! 1%N = Some g
                    ∧ models.Status g = models.StatusCompleted
                    ∧ models.CreditsCost g = 1)
    by (eexists; repeat split; vm_compute; reflexivity).
  destruct Hg as (g & Hg & Hst & Hcost).
  destruct (proj2 (Hclaim keep any_music any_video unconfigured
                     {[ 1%N := 10 ]} true demo_song 1%N g Hreach Hg) Hst)
    as (tx & Hin & _).
  vm_compute in Hin. inversion Hin.
Qed.

(** *** Two jobs of one user in flight together *)

Lemma two_songs_reachable : reachable_from configured ten_credits two_songs.
Proof.
  apply (run_schedule_reachable _
           [MusicRequest 1 (Some song) true; MusicRequest 1 (Some song) true;
            RunTask 0 music_ok video_ready_at_305;
            RunTask 0 music_ok video_ready_at_305]).
  vm_compute. reflexivity.
Qed.

Lemma ledger_entry_iff_completed_witness :
  reachable_from configured ten_credits two_songs
  ∧ ∃ g, generations (world two_songs) !! 1%N = Some g
         ∧ models.Status g = models.StatusCompleted
         ∧ has_entry 1 (- models.CreditsCost g) (world two_songs).
Proof.
  split; [exact two_songs_reachable|].
  assert (Hg : ∃ g, generations (world two_songs) !! 1%N = Some g
                    ∧ models.Status g = models.StatusCompleted)
    by (eexists; split; vm_compute; reflexivity).
  destruct Hg as (g & Hg & Hst).
  exists g. split; [exact Hg|]. split; [exact Hst|].
  apply (Ledger.ledger_entry_iff_completed keep any_music any_video configured
           {[ 1%N := 10 ]} true two_songs 1%N g two_songs_reachable Hg).
  - reflexivity.
  - exact Hst.
Defined.

(** C2 at the failing input: user 1 holds 10 credits and submits two
    songs before either goroutine debits; both complete. The balance is
    8 and the ledger sums to -2, but both rows record 10 before and 9
    after, so the latest row's balance-after is not the balance. *)
Theorem stale_balance_in_ledger :
  reachable_from configured ten_credits two_songs
  ∧ users (world two_songs) !! 1%N = Some 8
  ∧ ledger_sum 1 (world two_songs) = -2
  ∧ map (fun tx => (models.BalanceBefore tx, models.Amount tx,
                    models.BalanceAfter tx))
      (credit_transactions (world two_songs)) = [(10, -1, 9); (10, -1, 9)]
  ∧ (models.BalanceAfter <$> last_entry 1 (world two_songs)) = Some 9
  ∧ ¬ latest_row_is_balance.
Proof.
  split; [exact two_songs_reachable|].
  split; [vm_compute; reflexivity|].
  split; [vm_compute; reflexivity|].
  split; [vm_compute; reflexivity|].
  split; [vm_compute; reflexivity|].
  intros Hclaim.
  assert (Hlast : ∃ tx, last_entry 1 (world two_songs) = Some tx
                        ∧ models.BalanceAfter tx = 9)
    by (eexists; split; vm_compute; reflexivity).
  destruct Hlast as (tx & Hlast & Hafter).
  pose proof (Hclaim keep any_music any_video configured {[ 1%N := 10 ]} true
                two_songs 1%N tx two_songs_reachable Hlast) as Hbal.
  rewrite Hafter in Hbal. vm_compute in Hbal. discriminate Hbal.
Qed.

(** *** The poll timeout of the Hailuo-02 family *)

(** C5 at the failing input: both names belong to the family the
    provider call treats alike, yet only "MiniMax-Hailuo-02" polls for
    600 seconds; "hailuo-02" polls for 300, so a video ready after 305
    seconds completes under the first name and fails with "timeout"
    under the second. *)
Theorem hailuo02_lowercase_polls_300 :
  services.isHailuo02 "MiniMax-Hailuo-02" = true
  ∧ services.isHailuo02 "hailuo-02" = true
  ∧ timeout "MiniMax-Hailuo-02" = 600
  ∧ timeout "hailuo-02" = 300
  ∧ timeout "video-01" = 300
  ∧ (models.Status <$> clip_job "MiniMax-Hailuo-02")
    = Some models.StatusCompleted
  ∧ (models.Status <$> clip_job "hailuo-02") = Some models.StatusFailed
  ∧ (models.ErrorMessage <$> clip_job "hailuo-02") = Some "timeout"
  ∧ ¬ family_polls_600.
Proof.
  repeat split; try (vm_compute; reflexivity).
  intros Hclaim. specialize (Hclaim "hailuo-02" eq_refl).
  vm_compute in Hclaim. discriminate Hclaim.
Qed.

(** *** Rejected submissions *)

Lemma insufficient_credits_rejected_witness :
  users no_credits !! 1%N = Some 0
  ∧ GenerateMusic keep any_music configured 1 (Some song) true no_credits
    = (submission.payment_required, no_credits, None)
  ∧ GenerateVideo keep any_video configured 1 (Some (clip "video-01")) true
      no_credits
    = (submission.payment_required, no_credits, None).
Proof.
  assert (Hu : users no_credits !! 1%N = Some 0) by reflexivity.
  destruct (Submission.insufficient_credits_rejected keep any_music any_video
              configured 1%N true no_credits 0 Hu) as (Hm & Hv & _).
  split; [exact Hu|]. split.
  - apply Hm; [reflexivity|lia].
  - apply Hv; [reflexivity|vm_compute; reflexivity].
Defined.

Lemma narration_too_long_rejected_witness :
  models.vreq_Narration narrated ≠ ""
  ∧ submission.too_long narrated
  ∧ GenerateVideo keep any_video configured 1 (Some narrated) true
      (world ten_credits)
    = ({| code := 400;
          body := ErrorBody "Narration Too Long"
                    "Narration has 21 words, max ~19 words for 6s video." |},
       world ten_credits, None).
Proof.
  assert (Hn : models.vreq_Narration narrated ≠ "") by discriminate.
  assert (Hlong : submission.too_long narrated) by (vm_compute; reflexivity).
  split; [exact Hn|]. split; [exact Hlong|].
  destruct (Submission.narration_too_long_rejected keep any_video configured
              1%N narrated true (world ten_credits) Hn Hlong)
    as (Hw & Ht & Hresp).
  specialize (Hresp 10 eq_refl eq_refl ltac:(lia)).
  destruct (GenerateVideo keep any_video configured 1 (Some narrated) true
              (world ten_credits)) as [[resp w'] t].
  cbn [fst snd] in Hw, Ht, Hresp. subst w' t. rewrite Hresp.
  vm_compute. reflexivity.
Defined.

(** C7, as stated, fails on the limit: the message gives
    int(duration * 2.5 * 1.3), which is not the most the calculator lets
    pass. For one second, two words are refused under a stated limit of
    three; for six seconds, twenty words are accepted while the stated
    limit is nineteen. *)
Lemma stated_limit_is_not_the_maximum :
  GenerateVideo keep any_video configured 1 (Some (spoken 1 2)) true
    (world ten_credits)
  = ({| code := 400;
        body := ErrorBody "Narration Too Long"
                  "Narration has 2 words, max ~3 words for 1s video." |},
     world ten_credits, None)
  ∧ submission.too_long (spoken 1 2)
  ∧ submission.stated_limit 1 = 3
  ∧ ¬ submission.too_long (spoken 6 20)
  ∧ submission.stated_limit 6 = 19
  ∧ code (fst (fst (GenerateVideo keep any_video configured 1
                      (Some (spoken 6 20)) true (world ten_credits)))) = 202
  ∧ ¬ submission.message_states_maximum.
Proof.
  assert (Hlong : submission.too_long (spoken 1 2)) by (vm_compute; reflexivity).
  split; [vm_compute; reflexivity|].
  split; [exact Hlong|].
  split; [vm_compute; reflexivity|].
  split; [vm_compute; discriminate|].
  split; [vm_compute; reflexivity|].
  split; [vm_compute; reflexivity|].
  intros Hclaim.
  assert (Hn : models.vreq_Narration (spoken 1 2) ≠ "") by discriminate.
  apply (Hclaim (spoken 1 2) Hn) in Hlong. vm_compute in Hlong. discriminate Hlong.
Qed.

End Runs.

(* ===================================================================== *)
(** ** Jobs over their life: owners, prices, final rows *)
(* ===================================================================== *)

Module Jobs.
Import handlers system books audit.

Lemma identity_set_Status v g :
  identity (models.set_Status v g) = identity g.
Proof. destruct g; reflexivity. Qed.
Lemma identity_set_OutputURL v g :
  identity (models.set_OutputURL v g) = identity g.
Proof. destruct g; reflexivity. Qed.
Lemma identity_set_ThumbnailURL v g :
  identity (models.set_ThumbnailURL v g) = identity g.
Proof. destruct g; reflexivity. Qed.
Lemma identity_set_MiniMaxJobID v g :
  identity (models.set_MiniMaxJobID v g) = identity g.
Proof. destruct g; reflexivity. Qed.
Lemma identity_set_ErrorMessage v g :
  identity (models.set_ErrorMessage v g) = identity g.
Proof. destruct g; reflexivity. Qed.
Lemma identity_set_Metadata v g :
  identity (models.set_Metadata v g) = identity g.
Proof. destruct g; reflexivity. Qed.

Lemma identity_UserID g g' :
  identity g' = identity g → models.UserID g' = models.UserID g.
Proof. unfold identity. intros H. injection H. auto. Qed.

Lemma identity_kind_cost g g' :
  identity g' = identity g → kind_cost g → kind_cost g'.
Proof.
  unfold identity, kind_cost. intros H. injection H.
  intros -> _ _ _ _ _ _ _ _ _ -> _. auto.
Qed.

Create Rewrite HintDb row.
#[export] Hint Rewrite Ledger.ID_set_Status Ledger.ID_set_OutputURL
  Ledger.ID_set_ThumbnailURL Ledger.ID_set_MiniMaxJobID
  Ledger.ID_set_ErrorMessage Ledger.ID_set_Metadata
  identity_set_Status identity_set_OutputURL identity_set_ThumbnailURL
  identity_set_MiniMaxJobID identity_set_ErrorMessage identity_set_Metadata
  Ledger.Status_set_Status Ledger.Status_set_OutputURL
  Ledger.Status_set_ThumbnailURL Ledger.Status_set_MiniMaxJobID
  Ledger.Status_set_ErrorMessage Ledger.Status_set_Metadata : row.

(** Reduce the tables of a world built by the storage helpers. *)
Ltac rows :=
  cbn [generations credit_transactions next_generation users sent world_of
       progress SendToUser invalidate db_Save_generation db_Update_credits
       db_Create_transaction fail_generation db_Create_generation fst snd
       task_id task_generation task_userID task_user task_cost].

(** The failure epilogue and the success epilogue, as [rewritten]. *)
Ltac rewrote_row :=
  split;
  [ right; rows; autorewrite with row; eexists;
    split; [first [reflexivity | apply insert_insert_eq]|];
    autorewrite with row; reflexivity
  | first [ left; rows; reflexivity
          | right; rows; eexists; repeat split;
            cbn [models.tx_Type models.tx_UserID models.GenerationID];
            autorewrite with row; reflexivity ] ].

Lemma music_pipeline_rewritten minimax env userID user g req w :
  rewritten (MusicTask userID user g req) w
    (world_of (music_pipeline minimax env userID user g req w)).
Proof.
  unfold rewritten, task_id, music_pipeline. rows.
  destruct (services.GenerateMusic _ _ _ _ _ _ _) as [err|resp];
    [rewrote_row|].
  match goal with
  | |- context [match ?a with inl msg => _ | inr audioURL => _ end] =>
      destruct a as [msg|audioURL]
  end; [rewrote_row|].
  destruct (services.GenerateImage _ _ _) as [|art].
  { split; left; reflexivity. }
  destruct art; rewrote_row.
Qed.

(** The narration step rewrites no table and keeps the job's key and
    the columns of [identity]. *)
Lemma narrate_identity minimax env userID g req duration videoURL w :
  let '(g', _, w') := narrate minimax env userID g req duration videoURL w in
  generations w' = generations w
  ∧ credit_transactions w' = credit_transactions w
  ∧ models.ID g' = models.ID g
  ∧ identity g' = identity g.
Proof.
  unfold narrate.
  destruct (services.GenerateTTSWithSpeed _ _ _ _ _) as [err|ttsResp].
  - autorewrite with row. repeat split; reflexivity.
  - destruct (combine env _ _ _); autorewrite with row; repeat split; reflexivity.
Qed.

Lemma video_pipeline_rewritten minimax env userID user g req model duration
    resolution creditCost w :
  rewritten (VideoTask userID user g req model duration resolution creditCost) w
    (world_of (video_pipeline minimax env userID user g req model duration
                 resolution creditCost w)).
Proof.
  unfold rewritten, task_id, video_pipeline. rows.
  destruct (services.GenerateVideo _ _ _ _ _ _) as [err|resp];
    [rewrote_row|].
  destruct (services.WaitForCompletion _ _ _ _ _) as [[err|status]|];
    [rewrote_row| |rewrote_row].
  destruct (negb (String.eqb (models.vreq_Narration req) ""));
    [|rewrote_row].
  match goal with
  | |- context [narrate ?a1 ?a2 ?a3 ?a4 ?a5 ?a6 ?a7 ?a8] =>
      pose proof (narrate_identity a1 a2 a3 a4 a5 a6 a7 a8) as Hn;
      revert Hn;
      destruct (narrate a1 a2 a3 a4 a5 a6 a7 a8) as [[g' url] w'];
      intros Hn
  end.
  destruct Hn as (Hg & Hl & Hid & Hsame).
  revert Hg Hl Hid Hsame. rows. autorewrite with row.
  intros Hg Hl Hid Hsame. split.
  - right. rows. autorewrite with row. rewrite Hid, Hg. eexists.
    split; [apply insert_insert_eq|]. autorewrite with row. exact Hsame.
  - right. rows. rewrite Hl. eexists.
    repeat split; cbn [models.tx_Type models.tx_UserID models.GenerationID];
      autorewrite with row; rewrite ?Hid; reflexivity.
Qed.

Lemma run_rewritten minimax t menv venv w :
  rewritten t w (world_of (run minimax t menv venv w)).
Proof.
  destruct t; [apply music_pipeline_rewritten|apply video_pipeline_rewritten].
Qed.

Section Handlers.

Variable SanitizeInput : string → string.
Variable music_valid : models.GenerateMusicRequest → bool.
Variable video_valid : models.GenerateVideoRequest → bool.
Variable minimax : services.MiniMaxService.

Lemma GenerateMusic_submitted userID body db_up w :
  submitted userID w
    (GenerateMusic SanitizeInput music_valid minimax userID body db_up w).
Proof.
  unfold GenerateMusic, submitted, task_id.
  destruct body as [req|]; [|left; split; reflexivity].
  destruct (negb (music_valid req)); [left; split; reflexivity|].
  destruct (db_First_user userID w) as [user|]; [|left; split; reflexivity].
  destruct (models.Credits user <? 1); [left; split; reflexivity|].
  destruct (negb db_up); [left; split; reflexivity|].
  right. rows.
  destruct (negb (services.IsConfigured minimax)); rows; autorewrite with row.
  - eexists. split; [apply insert_insert_eq|].
    autorewrite with row. do 3 (split; [reflexivity|]). intros t [=].
  - eexists. split; [reflexivity|]. do 3 (split; [reflexivity|]).
    intros t [= <-]. repeat split; reflexivity.
Qed.

Lemma GenerateVideo_submitted userID body db_up w :
  submitted userID w
    (GenerateVideo SanitizeInput video_valid minimax userID body db_up w).
Proof.
  unfold GenerateVideo, submitted, task_id.
  destruct body as [req|]; [|left; split; reflexivity].
  destruct (negb (video_valid req)); [left; split; reflexivity|].
  destruct (db_First_user userID w) as [user|]; [|left; split; reflexivity].
  set (creditCost := if negb (String.eqb (models.vreq_Narration req) "")
                     then 3 else 2).
  assert (Hcost : creditCost = 2 ∨ creditCost = 3)
    by (subst creditCost; destruct (negb _); auto).
  destruct (models.Credits user <? creditCost); [left; split; reflexivity|].
  match goal with
  | |- context [if ?b && ?c then _ else _] =>
      destruct (b && c); [left; split; reflexivity|]
  end.
  destruct (negb db_up); [left; split; reflexivity|].
  right. rows.
  destruct (negb (services.IsConfigured minimax)); rows; autorewrite with row.
  - eexists. split; [apply insert_insert_eq|].
    autorewrite with row. do 2 (split; [reflexivity|]).
    split; [exact Hcost|]. intros t [=].
  - eexists. split; [reflexivity|]. do 2 (split; [reflexivity|]).
    split; [exact Hcost|]. intros t [= <-]. repeat split; reflexivity.
Qed.

End Handlers.

(** *** The invariant on owners and prices *)

Lemma Audit_init credits redis : Audit (init credits redis).
Proof.
  split; cbn.
  - intros t H. inversion H.
  - intros id g H. rewrite lookup_empty in H. discriminate.
  - intros tx H. inversion H.
  - constructor.
Qed.

Lemma Audit_submit configured userID s r :
  Inv configured s → Audit s → submitted userID (world s) r →
  Audit (after_handler r (tasks s)).
Proof.
  intros HI [Htask Hcost Htx Honce] [[Hw Ht] | (g & Hg & Hl & Hu & Hk & Hnew)].
  - destruct r as [[resp w'] t]. cbn in Hw, Ht. subst w' t.
    destruct s as [w ts]. split; assumption.
  - destruct r as [[resp w'] t]. cbn [fst snd] in *.
    assert (Hold : ∀ id g0, generations (world s) !! id = Some g0 →
                            generations w' !! id = Some g0).
    { intros id g0 H. rewrite Hg, lookup_insert_ne; [exact H|].
      intros <-. apply (inv_key _ _ HI) in H as [_ H]. lia. }
    split; unfold after_handler; cbn [world tasks fst snd].
    + intros t0 Hin.
      assert (Hcases : t0 ∈ tasks s ∨ t = Some t0).
      { destruct t as [t1|]; cbn [spawn] in Hin; [|left; exact Hin].
        apply elem_of_app in Hin as [Hin|Hin]; [left; exact Hin|].
        apply list_elem_of_singleton in Hin. subst. right. reflexivity. }
      destruct Hcases as [Hin0 | ->].
      * destruct (Htask t0 Hin0) as [H1 H2]. split; [apply Hold, H1|exact H2].
      * destruct (Hnew t0 eq_refl) as (H1 & H2 & H3).
        rewrite H2, H1, Hg, lookup_insert_eq, Hu. split; [reflexivity|exact H3].
    + intros id g0. rewrite Hg.
      destruct (decide (next_generation (world s) = id)) as [<-|Hne].
      * rewrite lookup_insert_eq. intros [= <-]. exact Hk.
      * rewrite lookup_insert_ne by exact Hne. apply Hcost.
    + rewrite Hl. intros tx Hin.
      destruct (Htx tx Hin) as (Hty & id & g0 & H1 & H2 & H3).
      split; [exact Hty|]. exists id, g0. auto.
    + rewrite Hl. exact Honce.
Qed.

Lemma Audit_run configured w pre t post w' :
  Inv configured {| world := w; tasks := pre ++ t :: post |} →
  Audit {| world := w; tasks := pre ++ t :: post |} →
  rewritten t w w' →
  Audit {| world := w'; tasks := pre ++ post |}.
Proof.
  intros [Hkey Hitx Hdone Hitask Hnd Hdemo] [Htask Hcost Htx Honce] [Hrow Hled].
  cbn [world tasks] in *.
  assert (Hin_t : t ∈ pre ++ t :: post)
    by (apply elem_of_app; right; left).
  assert (Hsub : ∀ t0, t0 ∈ pre ++ post → t0 ∈ pre ++ t :: post).
  { intros t0 H. apply elem_of_app in H as [H|H]; apply elem_of_app;
      [left|right; right]; exact H. }
  assert (Hother : ∀ t0, t0 ∈ pre ++ post → task_id t0 ≠ task_id t).
  { rewrite fmap_app in Hnd. cbn [fmap list_fmap] in Hnd.
    apply NoDup_app in Hnd as (Hpre & Hdisj & Hpost).
    apply NoDup_cons in Hpost as [Hnot Hpost].
    intros t0 H E. apply elem_of_app in H as [H|H].
    - apply (Hdisj (task_id t0)); [apply list_elem_of_fmap_2, H|].
      rewrite E. left.
    - apply Hnot. rewrite <- E. apply list_elem_of_fmap_2, H. }
  destruct (Htask t Hin_t) as [Hstored Howner].
  destruct (Hitask t Hin_t) as [_ (gt & Hgt & Hgt_st)].
  rewrite Hstored in Hgt. injection Hgt as <-.
  assert (Hne_row : ∀ id, id ≠ task_id t →
                          generations w' !! id = generations w !! id).
  { intros id Hne. destruct Hrow as [-> | (g' & -> & _)]; [reflexivity|].
    apply lookup_insert_ne. congruence. }
  assert (Hat : ∃ g', generations w' !! task_id t = Some g'
                      ∧ identity g' = identity (task_generation t)).
  { destruct Hrow as [-> | (g' & -> & Hsame)].
    - exists (task_generation t). auto.
    - exists g'. rewrite lookup_insert_eq. auto. }
  assert (Hpaid : ∀ tx, tx ∈ credit_transactions w →
                        models.GenerationID tx ≠ Some (task_id t)).
  { intros tx Hin E.
    destruct (Hitx tx Hin) as (id & g0 & H1 & H2 & H3 & _).
    rewrite E in H1. injection H1 as <-.
    rewrite Hstored in H2. injection H2 as <-. congruence. }
  split; cbn [world tasks].
  - intros t0 Hin0. destruct (Htask t0 (Hsub t0 Hin0)) as [H1 H2].
    split; [|exact H2]. rewrite Hne_row; [exact H1|apply Hother, Hin0].
  - intros id g0 H.
    destruct (decide (id = task_id t)) as [->|Hne].
    + destruct Hat as (g' & Hg' & Hsame). rewrite Hg' in H. injection H as <-.
      apply (identity_kind_cost _ _ Hsame). apply (Hcost _ _ Hstored).
    + rewrite Hne_row in H by exact Hne. apply (Hcost _ _ H).
  - intros tx Hin.
    assert (Hcases : tx ∈ credit_transactions w
                     ∨ (models.tx_Type tx = "usage"
                        ∧ models.tx_UserID tx = task_userID t
                        ∧ models.GenerationID tx = Some (task_id t))).
    { destruct Hled as [Hl | (tx' & Hl & H1 & H2 & H3)];
        rewrite Hl in Hin; [left; exact Hin|].
      apply elem_of_app in Hin as [Hin|Hin]; [left; exact Hin|].
      apply list_elem_of_singleton in Hin. subst tx'. right. auto. }
    destruct Hcases as [Hin0 | (H1 & H2 & H3)].
    + destruct (Htx tx Hin0) as (Hty & id & g0 & H1 & H2 & H3).
      split; [exact Hty|]. exists id, g0. split; [exact H1|].
      split; [|exact H3]. rewrite Hne_row; [exact H2|].
      intros ->. apply (Hpaid tx Hin0 H1).
    + split; [exact H1|]. destruct Hat as (g' & Hg' & Hsame).
      exists (task_id t), g'. split; [exact H3|]. split; [exact Hg'|].
      rewrite H2, Howner. symmetry. apply identity_UserID, Hsame.
  - destruct Hled as [-> | (tx & -> & _ & _ & Hid)]; [exact Honce|].
    rewrite fmap_app. apply NoDup_app. split; [exact Honce|].
    split; [|apply NoDup_singleton].
    intros x Hx Hx'. cbn in Hx'. apply list_elem_of_singleton in Hx'. subst x.
    apply list_elem_of_fmap in Hx as (tx0 & E & Hin0).
    apply (Hpaid tx0 Hin0). rewrite <- E. exact Hid.
Qed.

Section Reachable.

Variable SanitizeInput : string → string.
Variable music_valid : models.GenerateMusicRequest → bool.
Variable video_valid : models.GenerateVideoRequest → bool.
Variable minimax : services.MiniMaxService.

Let step := step SanitizeInput music_valid video_valid minimax.
Let reachable := reachable SanitizeInput music_valid video_valid minimax.
Let configured := services.IsConfigured minimax.

Lemma step_Audit s s' :
  step s s' → Inv configured s → Audit s → Audit s'.
Proof.
  intros Hstep HI HA. destruct Hstep as [s userID body db_up
                                        | s userID body db_up
                                        | w pre t post menv venv].
  - eapply Audit_submit; [exact HI|exact HA|apply GenerateMusic_submitted].
  - eapply Audit_submit; [exact HI|exact HA|apply GenerateVideo_submitted].
  - eapply Audit_run; [exact HI|exact HA|apply run_rewritten].
Qed.

Lemma reachable_Audit credits redis s :
  reachable (init credits redis) s → Audit s.
Proof.
  intros H.
  apply (rtc_ind_r (R := step) (fun s => Audit s) (init credits redis));
    [apply Audit_init | | exact H].
  intros y z Hy Hyz IH. apply (step_Audit y z Hyz); [|exact IH].
  apply (Ledger.reachable_Inv SanitizeInput music_valid video_valid minimax
           credits redis y Hy).
Qed.

(** One move of the service keeps every stored row in place, with the
    columns no pipeline assigns, and leaves alone a row that is no
    longer in progress. *)
Lemma step_keeps s s' id g :
  step s s' → Inv configured s → Audit s →
  generations (world s) !! id = Some g →
  ∃ g', generations (world s') !! id = Some g'
        ∧ identity g' = identity g
        ∧ (models.Status g ≠ models.StatusProcessing → g' = g).
Proof.
  intros Hstep HI HA Hg.
  assert (Hsubmit : ∀ userID r, submitted userID (world s) r →
            ∃ g', generations (world (after_handler r (tasks s))) !! id = Some g'
                  ∧ identity g' = identity g
                  ∧ (models.Status g ≠ models.StatusProcessing → g' = g)).
  { intros userID r [[Hw _] | (g1 & Hg1 & _)];
      unfold after_handler; cbn [world].
    - rewrite Hw. exists g. auto.
    - rewrite Hg1, lookup_insert_ne; [exists g; auto|].
      intros <-. apply (inv_key _ _ HI) in Hg as [_ Hg]. lia. }
  destruct Hstep as [s userID body db_up | s userID body db_up
                     | w pre t post menv venv].
  - apply (Hsubmit userID), GenerateMusic_submitted.
  - apply (Hsubmit userID), GenerateVideo_submitted.
  - clear Hsubmit. cbn [world] in *.
    assert (Hin_t : t ∈ pre ++ t :: post)
      by (apply elem_of_app; right; left).
    destruct (audit_task _ HA t Hin_t) as [Hstored _].
    destruct (inv_task _ _ HI t Hin_t) as [_ (gt & Hgt & Hgt_st)].
    cbn [world] in *. rewrite Hstored in Hgt. injection Hgt as <-.
    destruct (run_rewritten minimax t menv venv w) as [[-> | (g' & -> & Hsame)] _].
    + exists g. auto.
    + destruct (decide (id = task_id t)) as [->|Hne].
      * rewrite Hstored in Hg. injection Hg as <-.
        exists g'. rewrite lookup_insert_eq. split; [reflexivity|].
        split; [exact Hsame|]. intros Hnot. contradiction.
      * exists g. rewrite lookup_insert_ne by congruence. auto.
Qed.

(** X1: in every state the service reaches with goroutines run one at
    a time, each user's balance is the balance the user started with
    plus the sum of the amounts of the user's ledger rows, and each
    ledger row's balance-after is its balance-before plus its amount. *)
Theorem balance_is_start_plus_ledger credits0 redis s :
  (∀ u c, credits0 !! u = Some c → c <= F64.max_int64) →
  reachable (init credits0 redis) s →
  (∀ u, users (world s) !! u
        = (fun c0 => c0 + ledger_sum u (world s)) <$> credits0 !! u)
  ∧ (∀ tx, tx ∈ credit_transactions (world s) →
       models.BalanceAfter tx = models.BalanceBefore tx + models.Amount tx).
Proof.
  intros Hmax Hreach.
  destruct (Ledger.reachable_Books SanitizeInput music_valid video_valid
              minimax credits0 redis s Hmax Hreach) as [Hrows Hsum _ _].
  split; [exact Hsum|exact Hrows].
Qed.

(** X2: in every state the service reaches, the number of ledger rows
    naming a stored job is 1 when the provider is configured and the
    job is completed, and 0 when the job is not completed: no job is
    charged twice, and none is charged before it completes. *)
Theorem one_ledger_row_per_completed_job credits redis s id g :
  reachable (init credits redis) s →
  generations (world s) !! id = Some g →
  (models.Status g ≠ models.StatusCompleted →
   length (entries_of id (world s)) = 0%nat)
  ∧ (models.Status g = models.StatusCompleted →
     (length (entries_of id (world s)) <= 1)%nat
     ∧ (services.IsConfigured minimax = true →
        length (entries_of id (world s)) = 1%nat)).
Proof.
  intros Hreach Hg.
  pose proof (Ledger.reachable_Inv SanitizeInput music_valid video_valid
                minimax credits redis s Hreach) as HI.
  pose proof (reachable_Audit credits redis s Hreach) as HA.
  assert (Hle : (length (entries_of id (world s)) <= 1)%nat).
  { unfold entries_of. pose proof (audit_once _ HA) as Hnd.
    induction (credit_transactions (world s)) as [|tx l IH]; [cbn; lia|].
    cbn [fmap list_fmap] in Hnd. apply NoDup_cons in Hnd as [Hnot Hnd].
    rewrite filter_cons. destruct (decide _) as [E|_]; [|apply IH, Hnd].
    cbn [length]. apply le_n_S.
    destruct (filter _ l) as [|tx' l'] eqn:Hf; [cbn; lia|].
    exfalso. apply Hnot.
    assert (Hin : tx' ∈ filter (fun tx => models.GenerationID tx = Some id) l)
      by (rewrite Hf; left).
    apply list_elem_of_filter in Hin as [E' Hin].
    apply list_elem_of_fmap. exists tx'. split; [congruence|exact Hin]. }
  split; [|intros Hst; split; [exact Hle|]].
  - intros Hst. unfold entries_of.
    destruct (filter _ _) as [|tx l] eqn:Hf; [reflexivity|]. exfalso.
    assert (Hin : tx ∈ filter (fun tx => models.GenerationID tx = Some id)
                         (credit_transactions (world s)))
      by (rewrite Hf; left).
    apply list_elem_of_filter in Hin as [E Hin].
    destruct (inv_tx _ _ HI tx Hin) as (id' & g' & H1 & H2 & H3 & _).
    rewrite E in H1. injection H1 as <-. rewrite Hg in H2. injection H2 as <-.
    contradiction.
  - intros Hconf.
    destruct (inv_done _ _ HI Hconf id g Hg Hst) as (tx & Hin & E & _).
    assert (Hin' : tx ∈ entries_of id (world s))
      by (apply list_elem_of_filter; auto).
    destruct (entries_of id (world s)) as [|a l]; [inversion Hin'|].
    cbn [length] in *. lia.
Qed.

(** X4: from a state the service has reached, whatever requests and
    goroutine runs follow, a stored job stays stored under its key with
    its owner, kind, texts, settings and price, and a job that is
    completed or failed keeps its whole row: no later move rewrites
    it. *)
Theorem finished_job_is_final credits redis s s' id g :
  reachable (init credits redis) s →
  reachable s s' →
  generations (world s) !! id = Some g →
  ∃ g', generations (world s') !! id = Some g'
        ∧ identity g' = identity g
        ∧ (models.Status g ≠ models.StatusProcessing → g' = g).
Proof.
  intros Hs Hss' Hg.
  apply (rtc_ind_r (R := step)
           (fun s' => ∃ g', generations (world s') !! id = Some g'
                            ∧ identity g' = identity g
                            ∧ (models.Status g ≠ models.StatusProcessing
                               → g' = g)) s);
    [exists g; auto | | exact Hss'].
  intros y z Hy Hyz (g1 & Hg1 & Hsame1 & Hfinal1).
  assert (Hreach_y : reachable (init credits redis) y)
    by (eapply rtc_trans; [exact Hs|exact Hy]).
  pose proof (Ledger.reachable_Inv SanitizeInput music_valid video_valid
                minimax credits redis y Hreach_y) as HI.
  pose proof (reachable_Audit credits redis y Hreach_y) as HA.
  destruct (step_keeps y z id g1 Hyz HI HA Hg1) as (g2 & Hg2 & Hsame2 & Hfinal2).
  exists g2. split; [exact Hg2|]. split; [congruence|].
  intros Hst. rewrite <- (Hfinal1 Hst). apply Hfinal2.
  rewrite (Hfinal1 Hst). exact Hst.
Qed.


End Reachable.

Lemma ten_credits_bounded u c :
  ({[ 1%N := 10 ]} : gmap N Z) !! u = Some c → c <= F64.max_int64.
Proof.
  intros H. apply lookup_singleton_Some in H as [_ <-]. vm_compute. discriminate.
Qed.

Lemma balance_is_start_plus_ledger_witness :
  runs.reachable_from runs.configured runs.ten_credits runs.two_songs
  ∧ users (world runs.two_songs) !! 1%N
    = Some (10 + ledger_sum 1 (world runs.two_songs)).
Proof.
  split; [exact Runs.two_songs_reachable|].
  destruct (balance_is_start_plus_ledger runs.keep runs.any_music
              runs.any_video runs.configured {[ 1%N := 10 ]} true
              runs.two_songs ten_credits_bounded Runs.two_songs_reachable)
    as [Hsum _].
  rewrite (Hsum 1%N), lookup_singleton_eq. reflexivity.
Defined.

Lemma one_ledger_row_per_completed_job_witness :
  runs.reachable_from runs.configured runs.ten_credits runs.two_songs
  ∧ ∃ g, generations (world runs.two_songs) !! 1%N = Some g
         ∧ models.Status g = models.StatusCompleted
         ∧ length (entries_of 1 (world runs.two_songs)) = 1%nat.
Proof.
  split; [exact Runs.two_songs_reachable|].
  assert (Hg : ∃ g, generations (world runs.two_songs) !! 1%N = Some g
                    ∧ models.Status g = models.StatusCompleted)
    by (eexists; split; vm_compute; reflexivity).
  destruct Hg as (g & Hg & Hst).
  exists g. split; [exact Hg|]. split; [exact Hst|].
  destruct (one_ledger_row_per_completed_job runs.keep runs.any_music
              runs.any_video runs.configured {[ 1%N := 10 ]} true
              runs.two_songs 1%N g Runs.two_songs_reachable Hg)
    as [_ Hone].
  apply (Hone Hst). reflexivity.
Defined.

Lemma song_waiting_reachable :
  runs.reachable_from runs.configured runs.ten_credits song_waiting.
Proof.
  apply (Runs.run_schedule_reachable _ [MusicRequest 1 (Some runs.song) true]).
  vm_compute. reflexivity.
Qed.

Lemma song_done_reachable :
  runs.reachable_from runs.configured song_waiting song_done.
Proof.
  apply (Runs.run_schedule_reachable _
           [RunTask 0 runs.music_ok runs.video_ready_at_305]).
  vm_compute. reflexivity.
Qed.

Lemma finished_job_is_final_witness :
  runs.reachable_from runs.configured runs.ten_credits song_waiting
  ∧ runs.reachable_from runs.configured song_waiting song_done
  ∧ ∃ g g', generations (world song_waiting) !! 1%N = Some g
            ∧ generations (world song_done) !! 1%N = Some g'
            ∧ identity g' = identity g.
Proof.
  split; [exact song_waiting_reachable|].
  split; [exact song_done_reachable|].
  assert (Hg : ∃ g, generations (world song_waiting) !! 1%N = Some g)
    by (eexists; vm_compute; reflexivity).
  destruct Hg as (g & Hg).
  destruct (finished_job_is_final runs.keep runs.any_music runs.any_video
              runs.configured {[ 1%N := 10 ]} true song_waiting song_done
              1%N g song_waiting_reachable song_done_reachable Hg)
    as (g' & Hg' & Hsame & _).
  exists g, g'. auto.
Defined.

End Jobs.

(* ===================================================================== *)
(** ** What a goroutine announces, and how it ends *)
(* ===================================================================== *)

Module Pipelines.
Import handlers system books audit Jobs.

Lemma fail_generation_closes userID g msg w :
  closes (models.ID g) (fail_generation userID g msg w)
    (userID,
     {| msg_type := "generation_failed";
        msg_generation :=
          models.ToResponse
            (models.set_ErrorMessage msg
               (models.set_Status models.StatusFailed g));
        msg_fields := [("error", JStr msg)] |}).
Proof.
  exists (models.set_ErrorMessage msg (models.set_Status models.StatusFailed g)).
  rows. autorewrite with row. rewrite lookup_insert_eq.
  split; [reflexivity|]. split; [reflexivity|]. right.
  destruct g; repeat split; reflexivity.
Qed.

Lemma ID_ToResponse g : models.ID (models.ToResponse g) = models.ID g.
Proof. destruct g; reflexivity. Qed.

(** Progress notes about the job, for its user. *)
Ltac notes :=
  repeat constructor; cbn [fst snd msg_generation msg_type];
  rewrite ?ID_ToResponse; autorewrite with row; reflexivity.

Lemma announces_fail userID g msg w w1 ps :
  sent w1 = sent w ++ ps →
  Forall (about userID (models.ID g)) ps → Forall is_progress ps →
  announces userID (models.ID g) w (Done (fail_generation userID g msg w1)).
Proof.
  intros Hs Ha Hp.
  eexists. split; [rows; rewrite Hs, <- app_assoc; reflexivity|].
  split.
  - apply Forall_app. split; [exact Ha|]. notes.
  - eexists _, _. split; [reflexivity|]. split; [exact Hp|].
    apply fail_generation_closes.
Qed.

Lemma music_pipeline_announces minimax env userID user g req w :
  announces userID (models.ID g) w
    (music_pipeline minimax env userID user g req w).
Proof.
  unfold music_pipeline.
  destruct (services.GenerateMusic _ _ _ _ _ _ _) as [err|resp].
  { eapply announces_fail; [rows; reflexivity|notes..]. }
  match goal with
  | |- context [match ?a with inl msg => _ | inr audioURL => _ end] =>
      destruct a as [msg|audioURL]
  end.
  { eapply announces_fail; [rows; reflexivity|notes..]. }
  destruct (services.GenerateImage _ _ _) as [|art].
  { eexists. split; [rows; rewrite <- app_assoc; reflexivity|].
    split; notes. }
  destruct art as [e|albumArtURL];
    (eexists; split; [rows; rewrite <- !app_assoc; reflexivity|]);
    (split; [notes|]);
    eexists [_; _], _; (split; [reflexivity|]); (split; [notes|]);
    eexists; rows; autorewrite with row; rewrite lookup_insert_eq;
    (split; [reflexivity|]); (split; [reflexivity|]); left;
    (split; [reflexivity|]); autorewrite with row; reflexivity.
Qed.

Lemma narrate_pushes minimax env userID g req duration videoURL w :
  let '(_, _, w') := narrate minimax env userID g req duration videoURL w in
  ∃ ps, sent w' = sent w ++ ps
        ∧ Forall (about userID (models.ID g)) ps ∧ Forall is_progress ps.
Proof.
  unfold narrate.
  destruct (services.GenerateTTSWithSpeed _ _ _ _ _) as [err|ttsResp].
  - eexists. split; [rows; reflexivity|]. split; notes.
  - destruct (combine env _ _ _);
      (eexists; split; [rows; rewrite <- app_assoc; reflexivity|]);
      split; notes.
Qed.

Lemma video_pipeline_announces minimax env userID user g req model duration
    resolution creditCost w :
  announces userID (models.ID g) w
    (video_pipeline minimax env userID user g req model duration resolution
       creditCost w).
Proof.
  unfold video_pipeline.
  destruct (services.GenerateVideo _ _ _ _ _ _) as [err|resp].
  { eapply announces_fail; [rows; reflexivity|notes..]. }
  destruct (services.WaitForCompletion _ _ _ _ _) as [[err|status]|].
  - rewrite <- (Ledger.ID_set_MiniMaxJobID (services.TaskID resp) g).
    eapply announces_fail; [rows; reflexivity|notes..].
  - destruct (negb (String.eqb (models.vreq_Narration req) "")).
    + match goal with
      | |- context [narrate ?a1 ?a2 ?a3 ?a4 ?a5 ?a6 ?a7 ?a8] =>
          pose proof (narrate_identity a1 a2 a3 a4 a5 a6 a7 a8) as Hn;
          pose proof (narrate_pushes a1 a2 a3 a4 a5 a6 a7 a8) as Hp;
          revert Hn Hp;
          destruct (narrate a1 a2 a3 a4 a5 a6 a7 a8) as [[g' url] w'];
          intros Hn Hp
      end.
      destruct Hn as (_ & _ & Hid & _).
      destruct Hp as (ps & Hs & Ha & Hp).
      revert Hid Hs Ha. rows. autorewrite with row. intros Hid Hs Ha.
      eexists. split; [rows; rewrite Hs, <- !app_assoc; reflexivity|].
      split.
      * constructor; [notes|]. apply Forall_app. split; [exact Ha|].
        repeat constructor; cbn [fst snd msg_generation];
          rewrite ?ID_ToResponse; autorewrite with row; exact Hid.
      * eexists (_ :: ps), _. split; [reflexivity|].
        split; [constructor; [reflexivity|exact Hp]|].
        eexists. rows. autorewrite with row. rewrite Hid, lookup_insert_eq.
        split; [reflexivity|]. split; [reflexivity|]. left.
        split; [reflexivity|]. autorewrite with row. reflexivity.
    + eexists. split; [rows; rewrite <- !app_assoc; reflexivity|].
      split; [notes|].
      eexists [_], _. split; [reflexivity|]. split; [notes|].
      eexists. rows. autorewrite with row. rewrite lookup_insert_eq.
      split; [reflexivity|]. split; [reflexivity|]. left.
      split; [reflexivity|]. autorewrite with row. reflexivity.
  - eexists. split; [rows; reflexivity|]. split; notes.
Qed.

(** X6: whatever the provider, the file system and the clock do, a run
    of a goroutine pushes messages to the job's user only and about its
    job only; they are progress notes, followed, when the run reaches
    its end, by exactly one last message, which is "generation_completed"
    with the row saved as completed or "generation_failed" with the row
    saved as failed and its error text; a run that faults or is still
    polling has pushed progress notes only. *)
Theorem run_announces_outcome_last minimax t menv venv w :
  announces (task_userID t) (task_id t) w (run minimax t menv venv w).
Proof.
  destruct t; [apply music_pipeline_announces|apply video_pipeline_announces].
Qed.

(** X7: when the provider accepts a narrated video and reports it
    ready, a failure of the voice-over (the text-to-speech call or the
    muxing) does not fail the job: the run ends with the job completed,
    published under the silent video's URL, the failure kept as the
    job's error message, and the full price debited with one ledger
    row. *)
Theorem narration_failure_completes_and_charges minimax env userID user g req
    model duration resolution creditCost w resp status msg :
  services.GenerateVideo minimax (video_post env) (models.vreq_Prompt req)
    duration resolution model = inr resp →
  services.WaitForCompletion minimax (start env) (ticks env)
    (services.TaskID resp) (timeout model) = Some (inr status) →
  models.vreq_Narration req ≠ "" →
  narration_failure minimax env req duration
    (services.File_DownloadURL status) (models.ID g) = Some msg →
  ∃ w' g' tx,
    video_pipeline minimax env userID user g req model duration resolution
      creditCost w = Done w'
    ∧ generations w' !! models.ID g = Some g'
    ∧ models.Status g' = models.StatusCompleted
    ∧ models.OutputURL g' = services.File_DownloadURL status
    ∧ models.ErrorMessage g' = msg
    ∧ users w' = alter (fun c => c - creditCost) (models.user_ID user) (users w)
    ∧ credit_transactions w' = credit_transactions w ++ [tx]
    ∧ models.Amount tx = Int64.neg creditCost
    ∧ models.GenerationID tx = Some (models.ID g).
Proof.
  intros Hstart Hwait Hn Hfail.
  unfold video_pipeline. rewrite Hstart, Hwait.
  destruct (String.eqb_spec (models.vreq_Narration req) "") as [E|_];
    [contradiction|].
  cbn [negb]. unfold narrate. revert Hfail. unfold narration_failure.
  unfold narration_speed. rewrite Ledger.ID_set_MiniMaxJobID.
  destruct (services.GenerateTTSWithSpeed _ _ _ _ _) as [err|ttsResp].
  - intros [= <-]. eexists _, _, _. split; [reflexivity|]. rows.
    autorewrite with row. rewrite lookup_insert_eq.
    split; [reflexivity|]. destruct g; repeat split; reflexivity.
  - destruct (combine env _ _ _) as [err|]; [|discriminate].
    intros [= <-]. eexists _, _, _. split; [reflexivity|]. rows.
    autorewrite with row. rewrite lookup_insert_eq.
    split; [reflexivity|]. destruct g; repeat split; reflexivity.
Qed.

Lemma narration_failure_completes_and_charges_witness :
  tasks voiced_waiting
  = [VideoTask 1 user_one voiced_row voiced "MiniMax-Hailuo-02" 6 "768P" 3]
  ∧ ∃ w' g',
      video_pipeline runs.configured runs.video_ready_at_305 1 user_one
        voiced_row voiced "MiniMax-Hailuo-02" 6 "768P" 3 (world voiced_waiting)
      = Done w'
      ∧ generations w' !! 1%N = Some g'
      ∧ models.Status g' = models.StatusCompleted
      ∧ models.OutputURL g' = "https://cdn.example/clip.mp4"
      ∧ models.ErrorMessage g' = "TTS failed: unused"
      ∧ users w' !! 1%N = Some 7.
Proof.
  split; [vm_compute; reflexivity|].
  destruct (narration_failure_completes_and_charges runs.configured
              runs.video_ready_at_305 1%N user_one voiced_row voiced
              "MiniMax-Hailuo-02" 6 "768P" 3 (world voiced_waiting)
              {| services.vid_BaseResp := runs.ok;
                 services.TaskID := "task-1" |}
              {| services.st_BaseResp := runs.ok;
                 services.Status := "Success"; services.FileID := "";
                 services.File_DownloadURL := "https://cdn.example/clip.mp4" |}
              "TTS failed: unused")
    as (w' & g' & tx & Hrun & Hg & Hst & Hurl & Hmsg & Hu & _).
  - vm_compute. reflexivity.
  - vm_compute. reflexivity.
  - vm_compute. discriminate.
  - vm_compute. reflexivity.
  - exists w', g'. repeat (split; [assumption|]).
    rewrite Hu. vm_compute. reflexivity.
Defined.

(** X8: the cover-art call faults exactly when the client is configured
    and the provider's reply body is shorter than 200 bytes; a music
    goroutine that faults has saved nothing, debited nothing and dropped
    no cached listing, so its job stays in progress. *)
Theorem short_cover_art_reply_faults minimax :
  (∀ post prompt,
     services.GenerateImage minimax post prompt = services.Panic
     ↔ services.IsConfigured minimax = true
       ∧ ∃ reply, post (image_request prompt) = inr reply
                  ∧ (services.body_len reply < 200)%nat)
  ∧ (∀ env userID user g req w w',
       music_pipeline minimax env userID user g req w = Crashed w' →
       same_tables w w').
Proof.
  split.
  - intros post prompt. unfold services.GenerateImage, image_request.
    destruct (services.IsConfigured minimax); cbn [negb].
    + destruct (post _) as [e|reply].
      * split; [discriminate|intros (_ & reply & H & _); discriminate].
      * destruct (Nat.ltb_spec (services.body_len reply) 200) as [Hlt|Hge].
        -- split; [intros _|reflexivity]. split; [reflexivity|].
           exists reply. auto.
        -- split.
           ++ destruct (services.decoded reply) as [msg|result]; [discriminate|].
              destruct (negb _); [discriminate|].
              destruct (services.ImageURLs result); discriminate.
           ++ intros (_ & reply' & [= <-] & Hlt). lia.
    + split; [discriminate|intros [H _]; discriminate].
  - intros env userID user g req w w'. unfold music_pipeline.
    destruct (services.GenerateMusic _ _ _ _ _ _ _) as [err|resp];
      [discriminate|].
    match goal with
    | |- context [match ?a with inl msg => _ | inr audioURL => _ end] =>
        destruct a as [msg|audioURL]
    end; [discriminate|].
    destruct (services.GenerateImage _ _ _) as [|art]; [|discriminate].
    intros [= <-]. repeat split.
Qed.

Section Handlers.

Variable SanitizeInput : string → string.
Variable music_valid : models.GenerateMusicRequest → bool.
Variable video_valid : models.GenerateVideoRequest → bool.
Variable minimax : services.MiniMaxService.

Lemma pushed_app w w' ms : sent w' = sent w ++ ms → pushed w w' = ms.
Proof. intros H. unfold pushed. rewrite H. apply drop_app_length. Qed.

Lemma GenerateMusic_reply_tells userID body db_up w :
  reply_tells minimax userID w
    (GenerateMusic SanitizeInput music_valid minimax userID body db_up w).
Proof.
  unfold reply_tells, refused, GenerateMusic.
  destruct body as [req|]; [|left; cbn; auto].
  destruct (negb (music_valid req)); [left; cbn; auto|].
  destruct (db_First_user userID w) as [user|]; [|left; cbn; auto 6].
  destruct (models.Credits user <? 1); [left; cbn; auto 6|].
  destruct (negb db_up); [left; cbn; auto 6|].
  destruct (services.IsConfigured minimax) eqn:Hc;
    cbn [negb db_Create_generation]; cbv beta iota zeta; right.
  + eexists _, _. split; [reflexivity|]. rows.
    do 5 (split; [reflexivity|]).
    split; [eexists _, _; split; [apply pushed_app; rows|]; reflexivity|].
    left. repeat split. eexists. split; reflexivity.
  + eexists _, _. split; [reflexivity|]. rows. autorewrite with row.
    split; [apply insert_insert_eq|].
    do 4 (split; [reflexivity|]).
    split; [eexists _, _; split;
              [apply pushed_app; rows; rewrite <- app_assoc|]; reflexivity|].
    right. repeat split.
Qed.

Lemma GenerateVideo_reply_tells userID body db_up w :
  reply_tells minimax userID w
    (GenerateVideo SanitizeInput video_valid minimax userID body db_up w).
Proof.
  unfold reply_tells, refused, GenerateVideo.
  destruct body as [req|]; [|left; cbn; auto].
  destruct (negb (video_valid req)); [left; cbn; auto|].
  destruct (db_First_user userID w) as [user|]; [|left; cbn; auto 6].
  destruct (models.Credits user <? _); [left; cbn; auto 6|].
  match goal with
  | |- context [if ?b && ?c then _ else _] =>
      destruct (b && c); [left; cbn; auto 6|]
  end.
  destruct (negb db_up); [left; cbn; auto 6|].
  destruct (services.IsConfigured minimax) eqn:Hc;
    cbn [negb db_Create_generation]; cbv beta iota zeta; right.
  + eexists _, _. split; [reflexivity|]. rows.
    do 5 (split; [reflexivity|]).
    split; [eexists _, _; split; [apply pushed_app; rows|]; reflexivity|].
    left. repeat split. eexists. split; reflexivity.
  + eexists _, _. split; [reflexivity|]. rows. autorewrite with row.
    split; [apply insert_insert_eq|].
    do 4 (split; [reflexivity|]).
    split; [eexists _, _; split;
              [apply pushed_app; rows; rewrite <- app_assoc|]; reflexivity|].
    right. repeat split.
Qed.

(** X9: the reply of a generation handler tells what the handler did.
    A refusal (400, 402, 404, 500, no job in the body) left users, jobs,
    ledger, cache and notifications as they were and started no
    goroutine; 202 means the job was stored in progress under the next
    key for the caller and its goroutine started; 200 is demo mode, the
    job stored completed and no goroutine; in both the reply carries the
    stored row, a "generation_started" message went to the caller first,
    and no balance or ledger row was touched. *)
Theorem reply_tells_what_was_done userID w :
  (∀ body db_up,
     reply_tells minimax userID w
       (GenerateMusic SanitizeInput music_valid minimax userID body db_up w))
  ∧ (∀ body db_up,
       reply_tells minimax userID w
         (GenerateVideo SanitizeInput video_valid minimax userID body db_up w)).
Proof.
  split; intros body db_up;
    [apply GenerateMusic_reply_tells|apply GenerateVideo_reply_tells].
Qed.

End Handlers.

End Pipelines.

(* ===================================================================== *)
(** ** Reading a poll's result backwards *)
(* ===================================================================== *)

Module PollResult.
Import services polling verdicts.

Lemma poll_tick_None s taskID deadline t :
  poll_tick s taskID deadline t = None → passes s taskID deadline t.
Proof.
  unfold poll_tick, passes, success_label, failure_label.
  destruct (Z.ltb_spec deadline (now t)) as [Hlate|Hin]; [discriminate|].
  intros H. split; [exact Hin|].
  destruct (GetTaskStatus s (status_reply t) taskID) as [e|status]; [exact I|].
  destruct (String.eqb (Status status) "Success"
            || String.eqb (Status status) "Completed").
  - destruct (negb (String.eqb (FileID status) "")); [|discriminate].
    destruct (GetFileDownloadURL _ _ _); discriminate.
  - destruct (String.eqb (Status status) "Failed"
              || String.eqb (Status status) "Error"); [discriminate|].
    split; reflexivity.
Qed.

Lemma poll_tick_Some s taskID deadline t r :
  poll_tick s taskID deadline t = Some r → accounts_for s taskID deadline t r.
Proof.
  unfold poll_tick, accounts_for, success_label, failure_label.
  destruct (Z.ltb_spec deadline (now t)) as [Hlate|Hin].
  { intros [= <-]. left. auto. }
  destruct (GetTaskStatus s (status_reply t) taskID) as [e|status];
    [discriminate|].
  destruct (String.eqb (Status status) "Success"
            || String.eqb (Status status) "Completed") eqn:Hs.
  - destruct (String.eqb_spec (FileID status) "") as [Hf|Hf]; cbn [negb].
    + intros [= <-]. split; [exact Hin|]. exists status. auto.
    + destruct (GetFileDownloadURL s (file_reply t) (FileID status))
        as [e|url] eqn:Hu; intros [= <-].
      * right. split; [exact Hin|]. exists status.
        split; [reflexivity|]. right. rewrite Hs. auto.
      * split; [exact Hin|]. exists status. split; [reflexivity|].
        split; [exact Hs|]. right. split; [exact Hf|]. exists url. auto.
  - destruct (String.eqb (Status status) "Failed"
              || String.eqb (Status status) "Error") eqn:Hfl; [|discriminate].
    intros [= <-]. right. split; [exact Hin|]. exists status.
    split; [reflexivity|]. left. rewrite Hs. auto.
Qed.

(** X10: whenever [WaitForCompletion] returns, one tick accounts for the
    result and every earlier tick came in time and passed. A returned
    status was reported as "Success" or "Completed" within the deadline,
    and carries the looked-up URL when it names a file. A returned error
    arises in one of three ways: it is the timeout error, made by a tick
    handled after the deadline; it is the job-failure error, made on a
    "Failed" or "Error" report within the deadline; or it is the error
    the file lookup returned, whatever that error is, after a success
    report within the deadline. *)
Theorem WaitForCompletion_result_accounted s start ticks taskID timeout r :
  WaitForCompletion s start ticks taskID timeout = Some r →
  ∃ pre t rest,
    ticks = pre ++ t :: rest
    ∧ Forall (passes s taskID (start + timeout)) pre
    ∧ accounts_for s taskID (start + timeout) t r.
Proof.
  unfold WaitForCompletion.
  induction ticks as [|t0 ticks IH]; cbn [poll_loop]; [discriminate|].
  destruct (poll_tick s taskID (start + timeout) t0) as [r0|] eqn:Ht.
  - intros [= <-]. exists [], t0, ticks. split; [reflexivity|].
    split; [constructor|]. apply poll_tick_Some, Ht.
  - intros H. destruct (IH H) as (pre & t & rest & -> & Hpre & Hacc).
    exists (t0 :: pre), t, rest. split; [reflexivity|].
    split; [constructor; [apply poll_tick_None, Ht|exact Hpre]|exact Hacc].
Qed.

Lemma WaitForCompletion_result_accounted_witness :
  WaitForCompletion (NewMiniMaxService "key" "group") 0
    [processing 5; processing 10; runs.success_at 15] "task-1" 300
  = Some (inr {| st_BaseResp := ok; Status := "Success"; FileID := "";
                 File_DownloadURL := "https://cdn.example/clip.mp4" |})
  ∧ ∃ pre t rest,
      [processing 5; processing 10; runs.success_at 15] = pre ++ t :: rest
      ∧ Forall (passes (NewMiniMaxService "key" "group") "task-1" (0 + 300)) pre
      ∧ now t <= 0 + 300.
Proof.
  assert (H : WaitForCompletion (NewMiniMaxService "key" "group") 0
                [processing 5; processing 10; runs.success_at 15] "task-1" 300
              = Some (inr {| st_BaseResp := ok; Status := "Success";
                             FileID := "";
                             File_DownloadURL := "https://cdn.example/clip.mp4" |}))
    by (vm_compute; reflexivity).
  split; [exact H|].
  destruct (WaitForCompletion_result_accounted _ _ _ _ _ _ H)
    as (pre & t & rest & E & Hpre & Hin & _).
  exists pre, t, rest. auto.
Defined.

End PollResult.

(* ===================================================================== *)
(** ** A connection's time in the registry *)
(* ===================================================================== *)

Module Sessions.
Import hub fanout.

(** A connection holding no client of the user gets no write. *)
Lemma writes_to_unregistered write_ok userID clients c :
  (∀ k client, (k, client) ∈ clients → Conn client = k) →
  (∀ client, (c, client) ∈ clients → UserID client ≠ userID) →
  writes_to c (send_loop write_ok userID clients) = 0%nat.
Proof.
  intros Hconn Hnone. unfold writes_to.
  destruct (filter _ _) as [|wr l] eqn:Hf; [reflexivity|]. exfalso.
  assert (Hin : wr ∈ filter (fun wr => to wr = c)
                       (send_loop write_ok userID clients))
    by (rewrite Hf; left).
  apply list_elem_of_filter in Hin as [Hto Hin].
  apply Hub.elem_of_send_loop in Hin as (k & client & Hk & Hu & ->).
  cbn [to write_to] in Hto. rewrite (Hconn k client Hk) in Hto. subst k.
  exact (Hnone client Hk Hu).
Qed.

(** The writes a broadcast makes to a connection, read off the
    registry: one when the connection is registered for the user, none
    otherwise. *)
Lemma writes_to_lookup h order write_ok userID c :
  built h → enumerates order h →
  writes_to c (send_loop write_ok userID order)
  = match h !! c with
    | Some client => if (UserID client =? userID)%N then 1%nat else 0%nat
    | None => 0%nat
    end.
Proof.
  intros Hb Hperm. unfold enumerates in Hperm.
  assert (Hin : ∀ k cl, (k, cl) ∈ order ↔ h !! k = Some cl).
  { intros k cl. rewrite Hperm. apply elem_of_map_to_list. }
  assert (Hconn : ∀ k cl, (k, cl) ∈ order → Conn cl = k).
  { intros k cl H. apply (Hub.built_Conn h Hb). apply Hin, H. }
  assert (Hnd : NoDup order.*1).
  { rewrite Hperm. apply NoDup_fst_map_to_list. }
  destruct (h !! c) as [client|] eqn:Hc.
  - destruct (N.eqb_spec (UserID client) userID) as [Hu|Hu].
    + apply (Hub.writes_to_once write_ok userID order c client); auto.
      apply Hin, Hc.
    + apply writes_to_unregistered; [exact Hconn|].
      intros client' H. apply Hin in H. congruence.
  - apply writes_to_unregistered; [exact Hconn|].
    intros client' H. apply Hin in H. congruence.
Qed.

Lemma built_Unregister_lookup h c c' :
  Unregister h c !! c' = if decide (c = c') then None else h !! c'.
Proof.
  unfold Unregister, WSHub, conn in *.
  destruct (decide (c = c')) as [->|Hne].
  - apply lookup_delete_eq.
  - apply lookup_delete_ne, Hne.
Qed.

(** X11: once a connection is unregistered (the WebSocket handler does
    so when its read loop ends), no broadcast writes to it, in whatever
    order the registry is enumerated, and every other connection gets
    exactly the writes it got before; and registering a connection that
    was not in the registry and unregistering it again gives the
    registry back. *)
Theorem Unregister_ends_delivery h c :
  built h →
  (∀ order write_ok userID,
     enumerates order (Unregister h c) →
     writes_to c (send_loop write_ok userID order) = 0%nat)
  ∧ (∀ order order' write_ok userID c',
       enumerates order h → enumerates order' (Unregister h c) → c' ≠ c →
       writes_to c' (send_loop write_ok userID order')
       = writes_to c' (send_loop write_ok userID order))
  ∧ (h !! c = None → ∀ userID, Unregister (Register h c userID) c = h).
Proof.
  intros Hb.
  assert (Hb' : built (Unregister h c)) by (constructor; exact Hb).
  split; [|split].
  - intros order write_ok userID Hperm.
    rewrite (writes_to_lookup _ _ _ _ _ Hb' Hperm), built_Unregister_lookup.
    destruct (decide (c = c)); [reflexivity|contradiction].
  - intros order order' write_ok userID c' Hperm Hperm' Hne.
    rewrite (writes_to_lookup _ _ _ _ _ Hb' Hperm'),
      (writes_to_lookup _ _ _ _ _ Hb Hperm), built_Unregister_lookup.
    destruct (decide (c = c')); [congruence|reflexivity].
  - intros Hfresh userID. unfold Unregister, Register, WSHub, conn in *.
    apply delete_insert_id, Hfresh.
Qed.

Lemma Unregister_ends_delivery_witness :
  built three_live
  ∧ writes_to 2%N (SendToUser (Unregister three_live 2%N) second_fails 7%N)
    = 0%nat
  ∧ writes_to 3%N (SendToUser (Unregister three_live 2%N) second_fails 7%N)
    = writes_to 3%N (SendToUser three_live second_fails 7%N).
Proof.
  assert (Hb : built three_live) by (repeat constructor).
  destruct (Unregister_ends_delivery three_live 2%N Hb) as (Hnone & Hsame & _).
  split; [exact Hb|]. unfold SendToUser. split.
  - apply Hnone. unfold enumerates. reflexivity.
  - apply Hsame; [unfold enumerates; reflexivity..|discriminate].
Defined.

End Sessions.

(* ===================================================================== *)
(** ** The rate limiter *)
(* ===================================================================== *)

Module RateLimit.
Import middleware.

Lemma wrap_small z :
  F64.min_int64 <= z <= F64.max_int64 → Int64.wrap z = z.
Proof.
  unfold Int64.wrap, F64.min_int64, F64.max_int64. intros H.
  rewrite Z.mod_small; lia.
Qed.

Lemma cleanup_lookup rl now c :
  requests (cleanup rl now) !! c
  = match requests rl !! c with
    | Some info => if expired rl now info then None else Some info
    | None => None
    end.
Proof.
  unfold cleanup. cbn [requests set_requests].
  rewrite map_lookup_filter.
  destruct (requests rl !! c) as [info|]; cbn; [|reflexivity].
  destruct (expired rl now info); [rewrite option_guard_False|
                                   rewrite option_guard_True];
    cbn; congruence.
Qed.

Lemma Sub_mono t t' u : t <= t' → Sub t u <= Sub t' u.
Proof. unfold Sub. lia. Qed.

Lemma expired_later rl t t' info :
  t <= t' → expired rl t info = true → expired rl t' info = true.
Proof.
  unfold expired. intros Ht H. apply Z.ltb_lt in H. apply Z.ltb_lt.
  pose proof (Sub_mono t t' (lastReset info) Ht). lia.
Qed.

Lemma isAllowed_limit rl c now : limit (snd (isAllowed rl c now)) = limit rl.
Proof.
  unfold isAllowed. destruct (requests rl !! c) as [info|]; [|reflexivity].
  destruct (expired rl now info); [reflexivity|].
  destruct (limit rl <=? count info); reflexivity.
Qed.

Lemma isAllowed_window rl c now : window (snd (isAllowed rl c now)) = window rl.
Proof.
  unfold isAllowed. destruct (requests rl !! c) as [info|]; [|reflexivity].
  destruct (expired rl now info); [reflexivity|].
  destruct (limit rl <=? count info); reflexivity.
Qed.

(** A request touches its own client's entry only. *)
Lemma isAllowed_lookup_ne rl c now c' :
  c' ≠ c → requests (snd (isAllowed rl c now)) !! c' = requests rl !! c'.
Proof.
  intros Hne. unfold isAllowed.
  destruct (requests rl !! c) as [info|].
  - destruct (expired rl now info);
      [cbn; apply lookup_insert_ne; congruence|].
    destruct (limit rl <=? count info);
      [reflexivity|cbn; apply lookup_insert_ne; congruence].
  - cbn. apply lookup_insert_ne. congruence.
Qed.

(** A verdict, and the entry left behind, are read off the limit, the
    window and the client's entry. *)
Lemma isAllowed_ext rl rl' c now :
  limit rl' = limit rl → window rl' = window rl →
  requests rl' !! c = requests rl !! c →
  fst (isAllowed rl' c now) = fst (isAllowed rl c now)
  ∧ requests (snd (isAllowed rl' c now)) !! c
    = requests (snd (isAllowed rl c now)) !! c.
Proof.
  intros Hl Hw He. unfold isAllowed, expired. rewrite He, Hl, Hw.
  destruct (requests rl !! c) as [info|] eqn:E.
  - destruct (window rl <? Sub now (lastReset info)).
    + cbn. rewrite !lookup_insert_eq. auto.
    + destruct (limit rl <=? count info); cbn.
      * split; [reflexivity|congruence].
      * rewrite !lookup_insert_eq. auto.
  - cbn. rewrite !lookup_insert_eq. auto.
Qed.

Lemma replies_cons c c' v vs :
  replies c ((c', v) :: vs)
  = if decide (c' = c) then v :: replies c vs else replies c vs.
Proof.
  unfold replies. rewrite filter_cons. cbn [fst].
  destruct (decide (c' = c)); reflexivity.
Qed.

Lemma cleanup_ext rl rl' now c :
  window rl' = window rl → requests rl' !! c = requests rl !! c →
  requests (cleanup rl' now) !! c = requests (cleanup rl now) !! c.
Proof.
  intros Hw He. rewrite !cleanup_lookup, He. unfold expired. rewrite Hw.
  reflexivity.
Qed.

Lemma replies_of_own_events c es :
  ∀ rl rl', limit rl' = limit rl → window rl' = window rl →
    requests rl' !! c = requests rl !! c →
    replies c (verdicts rl' (filter (fun e => concerns c e = true) es))
    = replies c (verdicts rl es).
Proof.
  induction es as [|[c' now|now] es IH]; intros rl rl' Hl Hw He;
    [reflexivity| |]; rewrite filter_cons; cbn [concerns verdicts].
  - destruct (String.eqb_spec c' c) as [->|Hne].
    + destruct (decide (true = true)) as [_|]; [|contradiction].
      cbn [verdicts]. rewrite !replies_cons.
      destruct (decide (c = c)) as [_|]; [|contradiction].
      destruct (isAllowed_ext rl rl' c now Hl Hw He) as [Hv He'].
      rewrite Hv. f_equal.
      apply IH; [rewrite !isAllowed_limit|rewrite !isAllowed_window|];
        assumption.
    + destruct (decide (false = true)) as [|_]; [discriminate|].
      rewrite replies_cons.
      destruct (decide (c' = c)) as [|_]; [contradiction|].
      apply IH; [rewrite isAllowed_limit|rewrite isAllowed_window|
                 rewrite isAllowed_lookup_ne by congruence]; assumption.
  - destruct (decide (true = true)) as [_|]; [|contradiction].
    cbn [verdicts]. apply IH; [exact Hl|exact Hw|].
    apply cleanup_ext; assumption.
Qed.

(** X12: the verdicts a client gets (admission, remaining count, reset
    time) are those it would get if no other client had sent anything:
    requests of other clients never use up, reset or extend a client's
    quota. *)
Theorem other_clients_do_not_count rl c es :
  replies c (verdicts rl es)
  = replies c (verdicts rl (filter (fun e => concerns c e = true) es)).
Proof. symmetry. apply replies_of_own_events; reflexivity. Qed.

(** The limiters agree but for entries, missing on the right, that had
    expired by [t]. *)
Lemma swept_step t rl rl' c now :
  t <= now →
  limit rl' = limit rl → window rl' = window rl →
  (∀ k, requests rl' !! k = requests rl !! k
        ∨ (requests rl' !! k = None
           ∧ ∃ info, requests rl !! k = Some info ∧ expired rl t info = true)) →
  fst (isAllowed rl' c now) = fst (isAllowed rl c now)
  ∧ (∀ k, requests (snd (isAllowed rl' c now)) !! k
          = requests (snd (isAllowed rl c now)) !! k
          ∨ (requests (snd (isAllowed rl' c now)) !! k = None
             ∧ ∃ info, requests (snd (isAllowed rl c now)) !! k = Some info
                       ∧ expired (snd (isAllowed rl c now)) t info = true)).
Proof.
  intros Ht Hl Hw Hrel.
  assert (Hother : ∀ k, k ≠ c →
            requests (snd (isAllowed rl' c now)) !! k
            = requests (snd (isAllowed rl c now)) !! k
            ∨ (requests (snd (isAllowed rl' c now)) !! k = None
               ∧ ∃ info, requests (snd (isAllowed rl c now)) !! k = Some info
                         ∧ expired (snd (isAllowed rl c now)) t info = true)).
  { intros k Hne. rewrite !isAllowed_lookup_ne by exact Hne.
    unfold expired. rewrite isAllowed_window. apply Hrel. }
  destruct (Hrel c) as [He | (Hnone & info & Hsome & Hexp)].
  - destruct (isAllowed_ext rl rl' c now Hl Hw He) as [Hv He'].
    split; [exact Hv|]. intros k.
    destruct (decide (k = c)) as [->|Hne]; [left; exact He'|apply Hother, Hne].
  - assert (Hnow : expired rl now info = true)
      by (apply (expired_later rl t now info Ht Hexp)).
    assert (Hboth : fst (isAllowed rl' c now) = fst (isAllowed rl c now)
                    ∧ requests (snd (isAllowed rl' c now)) !! c
                      = requests (snd (isAllowed rl c now)) !! c).
    { unfold isAllowed. rewrite Hnone, Hsome, Hnow, Hl, Hw. cbn.
      rewrite !lookup_insert_eq. auto. }
    destruct Hboth as [Hv He']. split; [exact Hv|]. intros k.
    destruct (decide (k = c)) as [->|Hne]; [left; exact He'|apply Hother, Hne].
Qed.

Lemma swept_verdicts t es :
  Forall (fun e => t <= at_ e) es →
  ∀ rl rl', limit rl' = limit rl → window rl' = window rl →
    (∀ k, requests rl' !! k = requests rl !! k
          ∨ (requests rl' !! k = None
             ∧ ∃ info, requests rl !! k = Some info
                       ∧ expired rl t info = true)) →
    verdicts rl' es = verdicts rl es.
Proof.
  induction 1 as [|[c now|now] es Ht _ IH]; intros rl rl' Hl Hw Hrel;
    [reflexivity| |]; cbn [verdicts at_] in *.
  - destruct (swept_step t rl rl' c now Ht Hl Hw Hrel) as [Hv Hrel'].
    rewrite Hv. f_equal.
    apply IH; [rewrite !isAllowed_limit|rewrite !isAllowed_window|];
      assumption.
  - apply IH; [exact Hl|exact Hw|]. intros k. rewrite !cleanup_lookup.
    destruct (Hrel k) as [He | (Hnone & info & Hsome & Hexp)].
    + left. rewrite He. unfold expired. rewrite Hw. reflexivity.
    + left. rewrite Hnone, Hsome.
      rewrite (expired_later rl t now info Ht Hexp). reflexivity.
Qed.

(** X13: a tick of the cleanup ticker is invisible to clients: whatever
    the limiter holds, the requests that come after the tick get the
    verdicts (admission, remaining count, reset time) they would have
    got without it. *)
Theorem cleanup_changes_no_verdict rl t es :
  Forall (fun e => t <= at_ e) es →
  verdicts (cleanup rl t) es = verdicts rl es.
Proof.
  intros Hes. apply (swept_verdicts t es Hes); [reflexivity..|].
  intros k. rewrite cleanup_lookup.
  destruct (requests rl !! k) as [info|]; [|left; reflexivity].
  destruct (expired rl t info) eqn:E; [|left; reflexivity].
  right. split; [reflexivity|]. exists info. auto.
Qed.

Lemma cleanup_changes_no_verdict_witness :
  Forall (fun e => 70 <= at_ e) [Request "10.0.0.1" 80; Request "10.0.0.9" 90]
  ∧ verdicts (cleanup (after (newRateLimiter 3 60) burst) 70)
      [Request "10.0.0.1" 80; Request "10.0.0.9" 90]
    = verdicts (after (newRateLimiter 3 60) burst)
        [Request "10.0.0.1" 80; Request "10.0.0.9" 90].
Proof.
  assert (H : Forall (fun e => 70 <= at_ e)
                [Request "10.0.0.1" 80; Request "10.0.0.9" 90])
    by (repeat constructor; cbn; lia).
  split; [exact H|].
  apply (cleanup_changes_no_verdict _ 70 _ H).
Defined.

Lemma requests_of_cons c e es :
  requests_of c (e :: es)
  = if by_client c e then S (requests_of c es) else requests_of c es.
Proof.
  unfold requests_of. rewrite filter_cons.
  destruct (by_client c e); [destruct (decide (true = true)); [reflexivity|contradiction]|].
  destruct (decide (false = true)); [discriminate|reflexivity].
Qed.

(** Inside a window: the entry counts [k] requests since [t0]. *)
Lemma quota_tail c t0 es :
  ∀ rl k,
    limit rl <= F64.max_int64 →
    requests rl !! c = Some {| count := k; lastReset := t0 |} → 1 <= k →
    Forall (in_window (window rl) c t0) es →
    map allowed (replies c (verdicts rl es))
    = map (fun j => k + Z.of_nat j <? limit rl) (seq 0 (requests_of c es)).
Proof.
  induction es as [|[c' t|t] es IH]; intros rl k Hmax He Hk Hes;
    [reflexivity| |]; apply Forall_cons in Hes as [Hin Hes];
    cbn [verdicts in_window] in *; rewrite requests_of_cons; cbn [by_client].
  - destruct (String.eqb_spec c' c) as [->|Hne].
    + specialize (Hin eq_refl).
      assert (Hexp : expired rl t {| count := k; lastReset := t0 |} = false)
        by (unfold expired; cbn [lastReset]; apply Z.ltb_ge; exact Hin).
      rewrite replies_cons. destruct (decide (c = c)) as [_|]; [|contradiction].
      cbn [map seq]. rewrite <- seq_shift, map_map.
      unfold isAllowed. rewrite He, Hexp. cbn [count lastReset].
      destruct (Z.leb_spec (limit rl) k) as [Hfull|Hroom]; cbn [fst snd allowed].
      * f_equal; [symmetry; apply Z.ltb_ge; lia|].
        rewrite (IH rl k Hmax He Hk Hes). apply map_ext. intros j.
        transitivity false; [apply Z.ltb_ge|symmetry; apply Z.ltb_ge]; lia.
      * f_equal; [symmetry; apply Z.ltb_lt; lia|].
        rewrite wrap_small by (unfold F64.min_int64, F64.max_int64 in *; lia).
        rewrite (IH _ (k + 1)); cbn [limit window requests set_requests];
          [|exact Hmax|apply lookup_insert_eq|lia|exact Hes].
        apply map_ext. intros j. f_equal. lia.
    + rewrite replies_cons. destruct (decide (c' = c)) as [|_]; [contradiction|].
      rewrite (IH _ k); rewrite ?isAllowed_limit, ?isAllowed_window;
        [reflexivity|exact Hmax| |exact Hk|exact Hes].
      rewrite isAllowed_lookup_ne by congruence. exact He.
  - rewrite (IH _ k); cbn [limit window cleanup set_requests];
      [reflexivity|exact Hmax| |exact Hk|exact Hes].
    fold (requests (cleanup rl t)). rewrite cleanup_lookup, He.
    unfold expired. cbn [lastReset].
    destruct (Z.ltb_spec (window rl) (Sub t t0)); [lia|reflexivity].
Qed.

(** X14: in a window, only the first [limit] requests pass. When a
    client that has no entry, or an expired one, sends a request at
    [t0], and its later requests and the ticks of the ticker come no
    later than one window after [t0], then whatever other clients send
    in between, that request is admitted and its n-th successor is
    admitted exactly when n < limit. *)
Theorem window_quota rl c t0 es :
  limit rl <= F64.max_int64 →
  (∀ info, requests rl !! c = Some info → expired rl t0 info = true) →
  Forall (in_window (window rl) c t0) es →
  map allowed (replies c (verdicts rl (Request c t0 :: es)))
  = first_pass (limit rl) (S (requests_of c es)).
Proof.
  intros Hmax Hfresh Hes. cbn [verdicts]. rewrite replies_cons.
  destruct (decide (c = c)) as [_|]; [|contradiction].
  unfold first_pass. cbn [map seq]. rewrite <- seq_shift, map_map.
  assert (Hfirst : allowed (fst (isAllowed rl c t0)) = true
                   ∧ requests (snd (isAllowed rl c t0)) !! c
                     = Some {| count := 1; lastReset := t0 |}).
  { unfold isAllowed. destruct (requests rl !! c) as [info|] eqn:E.
    - rewrite (Hfresh info eq_refl). cbn. rewrite lookup_insert_eq. auto.
    - cbn. rewrite lookup_insert_eq. auto. }
  destruct Hfirst as [Hv He]. rewrite Hv. cbn [Nat.eqb orb]. f_equal.
  rewrite (quota_tail c t0 es _ 1);
    rewrite ?isAllowed_limit, ?isAllowed_window;
    [|exact Hmax|exact He|lia|exact Hes].
  apply map_ext. intros j. cbn [Nat.eqb orb]. f_equal. lia.
Qed.

Lemma window_quota_witness :
  Forall (in_window 60 "10.0.0.1" 0) (tail burst)
  ∧ map allowed (replies "10.0.0.1" (verdicts (newRateLimiter 3 60) burst))
    = [true; true; true; false; false].
Proof.
  assert (H : Forall (in_window 60 "10.0.0.1" 0) (tail burst))
    by (repeat constructor; cbn; intros; vm_compute; discriminate).
  split; [exact H|].
  apply (window_quota (newRateLimiter 3 60) "10.0.0.1" 0 (tail burst)).
  - vm_compute. discriminate.
  - intros info E. cbn in E. rewrite lookup_empty in E. discriminate.
  - exact H.
Defined.

(** *** Headers *)

Lemma counted_isAllowed rl c now :
  1 <= limit rl <= F64.max_int64 →
  counted rl → counted (snd (isAllowed rl c now)).
Proof.
  intros Hl Hc k info. unfold isAllowed.
  destruct (requests rl !! c) as [i|] eqn:E.
  - destruct (expired rl now i).
    + cbn. destruct (decide (c = k)) as [->|Hne].
      * rewrite lookup_insert_eq. intros [= <-]. cbn. lia.
      * rewrite lookup_insert_ne by exact Hne. apply Hc.
    + destruct (Z.leb_spec (limit rl) (count i)) as [Hfull|Hroom]; cbn.
      * apply Hc.
      * destruct (decide (c = k)) as [->|Hne].
        -- rewrite lookup_insert_eq. intros [= <-]. cbn.
           pose proof (Hc k i E) as Hi.
           rewrite wrap_small
             by (unfold F64.min_int64, F64.max_int64 in *; lia).
           lia.
        -- rewrite lookup_insert_ne by exact Hne. apply Hc.
  - cbn. destruct (decide (c = k)) as [->|Hne].
    + rewrite lookup_insert_eq. intros [= <-]. cbn. lia.
    + rewrite lookup_insert_ne by exact Hne. apply Hc.
Qed.

Lemma counted_cleanup rl now : counted rl → counted (cleanup rl now).
Proof.
  intros Hc k info. rewrite cleanup_lookup.
  destruct (requests rl !! k) as [i|] eqn:E; [|discriminate].
  destruct (expired rl now i); [discriminate|].
  intros [= <-]. apply (Hc k i E).
Qed.

Lemma after_limit es : ∀ rl, limit (after rl es) = limit rl.
Proof.
  induction es as [|[c now|now] es IH]; intros rl; cbn [after];
    [reflexivity|rewrite IH; apply isAllowed_limit|rewrite IH; reflexivity].
Qed.

Lemma after_window es : ∀ rl, window (after rl es) = window rl.
Proof.
  induction es as [|[c now|now] es IH]; intros rl; cbn [after];
    [reflexivity|rewrite IH; apply isAllowed_window|rewrite IH; reflexivity].
Qed.

Lemma counted_after es :
  ∀ rl, 1 <= limit rl <= F64.max_int64 → counted rl → counted (after rl es).
Proof.
  induction es as [|[c now|now] es IH]; intros rl Hl Hc; cbn [after].
  - exact Hc.
  - apply IH; [rewrite isAllowed_limit; exact Hl|].
    apply counted_isAllowed; assumption.
  - apply IH; [exact Hl|apply counted_cleanup, Hc].
Qed.

Lemma not_expired_le rl now info :
  window rl < maxDuration → expired rl now info = false →
  now <= lastReset info + window rl.
Proof.
  unfold expired, Sub, maxDuration, minDuration. intros Hw H.
  apply Z.ltb_ge in H. lia.
Qed.

Lemma isAllowed_in_step rl c now :
  1 <= limit rl <= F64.max_int64 → 0 <= window rl < maxDuration →
  counted rl →
  in_step (snd (isAllowed rl c now)) c now (fst (isAllowed rl c now)).
Proof.
  intros Hl Hw Hc. unfold in_step.
  rewrite isAllowed_limit, isAllowed_window. unfold isAllowed.
  assert (Hone : Int64.sub (limit rl) 1 = limit rl - 1).
  { unfold Int64.sub. apply wrap_small.
    unfold F64.min_int64, F64.max_int64 in *. lia. }
  destruct (requests rl !! c) as [i|] eqn:E.
  - destruct (expired rl now i) eqn:Hexp.
    + cbn. rewrite lookup_insert_eq, Hone. unfold Add.
      split; [eexists; split; [reflexivity|]; cbn; split; reflexivity|].
      split; [lia|]. split; [discriminate|lia].
    + pose proof (Hc c i E) as Hi.
      pose proof (not_expired_le rl now i (proj2 Hw) Hexp) as Hnow.
      destruct (Z.leb_spec (limit rl) (count i)) as [Hfull|Hroom]; cbn.
      * unfold Add. split; [exists i; split; [exact E|]; split; [lia|reflexivity]|].
        split; [lia|]. split; [reflexivity|exact Hnow].
      * rewrite lookup_insert_eq. unfold Add, Int64.sub.
        rewrite !wrap_small
          by (rewrite ?wrap_small;
              unfold F64.min_int64, F64.max_int64 in *; lia).
        split; [eexists; split; [reflexivity|]; cbn; split; reflexivity|].
        split; [lia|]. split; [discriminate|exact Hnow].
  - cbn. rewrite lookup_insert_eq, Hone. unfold Add.
    split; [eexists; split; [reflexivity|]; cbn; split; reflexivity|].
    split; [lia|]. split; [discriminate|lia].
Qed.

(** X15: for a limiter made with a limit of at least 1 and a window
    above 0 and below the largest duration (2^63 - 1 ns, at which no
    entry would ever expire), whatever requests and
    ticks came before, the headers of every verdict are in step with the
    entry the call leaves: the remaining count is the limit less the
    requests counted in the client's window, it lies between 0 and
    limit - 1 and is 0 on a refusal, and the reset time is one window
    after the window's start and never before the instant of the
    request. *)
Theorem verdict_headers_in_step limit window es c now :
  1 <= limit <= F64.max_int64 → 0 < window < maxDuration →
  let rl := after (newRateLimiter limit window) es in
  in_step (snd (isAllowed rl c now)) c now (fst (isAllowed rl c now)).
Proof.
  intros Hl Hw rl. subst rl. apply isAllowed_in_step.
  - rewrite after_limit. exact Hl.
  - rewrite after_window. destruct Hw as [Hw0 Hw1].
    split; [apply Z.lt_le_incl, Hw0|exact Hw1].
  - apply counted_after; [exact Hl|].
    intros k info E. cbn in E. rewrite lookup_empty in E. discriminate.
Qed.

Lemma verdict_headers_in_step_witness :
  fst (isAllowed (after (newRateLimiter 3 60) burst) "10.0.0.1" 59)
  = {| allowed := false; remaining := 0; resetTime := 60 |}
  ∧ in_step (snd (isAllowed (after (newRateLimiter 3 60) burst) "10.0.0.1" 59))
      "10.0.0.1" 59
      (fst (isAllowed (after (newRateLimiter 3 60) burst) "10.0.0.1" 59)).
Proof.
  split; [vm_compute; reflexivity|].
  apply (verdict_headers_in_step 3 60 burst "10.0.0.1" 59).
  - vm_compute. split; discriminate.
  - vm_compute. split; reflexivity.
Defined.

(** *** Waiting out a refusal *)

(** While the client sends nothing, its entry stays as it is or is
    swept away. *)
Lemma after_silent c info es :
  ∀ rl, requests_of c es = 0%nat →
    requests rl !! c = None ∨ requests rl !! c = Some info →
    requests (after rl es) !! c = None
    ∨ requests (after rl es) !! c = Some info.
Proof.
  induction es as [|[c' t|t] es IH]; intros rl Hn He; cbn [after];
    [exact He| |]; rewrite requests_of_cons in Hn; cbn [by_client] in Hn.
  - destruct (String.eqb_spec c' c) as [->|Hne]; [discriminate|].
    apply IH; [exact Hn|]. rewrite isAllowed_lookup_ne by congruence. exact He.
  - apply IH; [exact Hn|]. rewrite cleanup_lookup.
    destruct He as [-> | ->]; [left; reflexivity|].
    destruct (expired rl t info); auto.
Qed.

(** X25: the reset time a refusal announces is honoured, for a window
    below the largest duration (2^63 - 1 ns, at which no entry would
    ever expire). When a client is refused and then sends nothing until
    after the reset time the refusal gave, its next request is admitted
    with a fresh window (remaining = limit - 1, reset one window later),
    whatever other clients send and whenever the cleanup runs in
    between. *)
Theorem refused_client_is_admitted_after_reset rl c now es t :
  window rl < maxDuration →
  allowed (fst (isAllowed rl c now)) = false →
  requests_of c es = 0%nat →
  resetTime (fst (isAllowed rl c now)) < t →
  fst (isAllowed (after rl (Request c now :: es)) c t)
  = {| allowed := true; remaining := Int64.sub (limit rl) 1;
       resetTime := Add t (window rl) |}.
Proof.
  intros Hw Hrefused Hsilent Hlate. cbn [after]. revert Hrefused Hlate.
  unfold isAllowed at 1 2 4.
  destruct (requests rl !! c) as [info|] eqn:E; [|discriminate].
  destruct (expired rl now info); [discriminate|].
  destruct (limit rl <=? count info); [|discriminate].
  cbn [fst snd allowed resetTime]. intros _ Hlate.
  assert (Hexp : expired rl t info = true).
  { unfold expired, Sub, Add, maxDuration, minDuration in *.
    apply Z.ltb_lt. lia. }
  pose proof (after_limit es rl) as Hl. pose proof (after_window es rl) as Hwin.
  unfold isAllowed.
  destruct (after_silent c info es rl Hsilent (or_intror E)) as [-> | ->].
  - rewrite Hl, Hwin. reflexivity.
  - unfold expired in *. rewrite Hwin, Hexp, Hl. reflexivity.
Qed.

Lemma refused_client_is_admitted_after_reset_witness :
  fst (isAllowed (after (newRateLimiter 3 60) burst) "10.0.0.1" 59)
  = {| allowed := false; remaining := 0; resetTime := 60 |}
  ∧ fst (isAllowed (after (after (newRateLimiter 3 60) burst)
                      [Request "10.0.0.1" 59; Request "10.0.0.2" 60; Sweep 60])
           "10.0.0.1" 61)
    = {| allowed := true; remaining := 2; resetTime := 121 |}.
Proof.
  split; [vm_compute; reflexivity|].
  rewrite (refused_client_is_admitted_after_reset
             (after (newRateLimiter 3 60) burst) "10.0.0.1" 59
             [Request "10.0.0.2" 60; Sweep 60] 61);
    vm_compute; reflexivity.
Defined.

End RateLimit.

(* ===================================================================== *)
(** ** Sanitised text *)
(* ===================================================================== *)

Module Sanitize.
Import handlers system books audit middleware.

Lemma TrimFunc_elem_of bs f c : c ∈ GoText.TrimFunc bs f → c ∈ bs.
Proof.
  unfold GoText.TrimFunc, GoText.TrimRightFunc, GoText.TrimLeftFunc.
  intros H. apply subseteq_take in H.
  destruct (GoText.indexFunc bs f false =? -1); [inversion H|].
  apply subseteq_drop in H. exact H.
Qed.

Lemma TrimSpace_elem_of s c :
  c ∈ list_ascii_of_string (GoText.TrimSpace s) → c ∈ list_ascii_of_string s.
Proof.
  unfold GoText.TrimSpace. rewrite list_ascii_of_string_of_list_ascii.
  apply TrimFunc_elem_of.
Qed.

Lemma ReplaceAll_drops s old c :
  c ∈ list_ascii_of_string (GoText.ReplaceAll s old "") →
  c ∈ list_ascii_of_string s ∧ c ≠ old.
Proof.
  unfold GoText.ReplaceAll. rewrite list_ascii_of_string_of_list_ascii.
  induction (list_ascii_of_string s) as [|b bs IH]; cbn [map concat].
  - intros H. inversion H.
  - destruct (Ascii.eqb_spec b old) as [->|Hne]; cbn [list_ascii_of_string app].
    + intros H. destruct (IH H) as [Hin Hc]. split; [right; exact Hin|exact Hc].
    + intros H. apply elem_of_cons in H as [->|H].
      * split; [left|exact Hne].
      * destruct (IH H) as [Hin Hc]. split; [right; exact Hin|exact Hc].
Qed.

Lemma Replace_elem_of oldnew s c :
  c ∈ list_ascii_of_string (GoText.Replace oldnew s) →
  (∃ b new, b ∈ list_ascii_of_string s
            ∧ GoText.replacement oldnew b = Some new
            ∧ c ∈ list_ascii_of_string new)
  ∨ (c ∈ list_ascii_of_string s ∧ GoText.replacement oldnew c = None).
Proof.
  unfold GoText.Replace. rewrite list_ascii_of_string_of_list_ascii.
  induction (list_ascii_of_string s) as [|b bs IH]; cbn [map concat].
  - intros H. inversion H.
  - intros H. apply elem_of_app in H as [H|H].
    + destruct (GoText.replacement oldnew b) as [new|] eqn:E.
      * left. exists b, new. split; [left|]. auto.
      * apply list_elem_of_singleton in H. subst c. right. split; [left|exact E].
    + destruct (IH H) as [(b' & new & Hin & E & Hc) | [Hin E]].
      * left. exists b', new. split; [right; exact Hin|]. auto.
      * right. split; [right; exact Hin|exact E].
Qed.

Lemma SanitizeInput_clean input : clean (SanitizeInput input).
Proof.
  unfold clean, SanitizeInput. apply Forall_forall. intros c Hc.
  apply Replace_elem_of in Hc as [(b & new & _ & E & Hc) | [Hc E]].
  - cbn [GoText.replacement] in E.
    repeat match type of E with
           | (if ?t then _ else _) = _ => destruct t
           end;
      try discriminate; injection E as <-;
      cbn in Hc;
      repeat (apply elem_of_cons in Hc as [->|Hc]; [reflexivity|]);
      inversion Hc.
  - apply TrimSpace_elem_of, ReplaceAll_drops in Hc as [_ Hnul].
    cbn [GoText.replacement] in E. unfold markup.
    destruct (Ascii.eqb c "<"); [discriminate|].
    destruct (Ascii.eqb c ">"); [discriminate|].
    destruct (Ascii.eqb c "034"); [discriminate|].
    destruct (Ascii.eqb c "'"); [discriminate|].
    destruct (Ascii.eqb_spec c "000"); [contradiction|reflexivity].
Qed.

Lemma identity_texts g g' : identity g' = identity g → texts g' = texts g.
Proof.
  unfold identity, texts. intros H. injection H.
  intros _ _ _ _ -> _ -> -> -> -> _ _. reflexivity.
Qed.

Section Handlers.

Variable sanitise : string → string.
Variable music_valid : models.GenerateMusicRequest → bool.
Variable video_valid : models.GenerateVideoRequest → bool.
Variable minimax : services.MiniMaxService.

Lemma GenerateMusic_texts userID body db_up w :
  let r := GenerateMusic sanitise music_valid minimax userID body db_up w in
  snd (fst r) = w
  ∨ ∃ g, generations (snd (fst r)) = <[next_generation w := g]> (generations w)
         ∧ sanitised_by sanitise g.
Proof.
  unfold GenerateMusic.
  destruct body as [req|]; [|left; reflexivity].
  destruct (negb (music_valid req)); [left; reflexivity|].
  destruct (db_First_user userID w) as [user|]; [|left; reflexivity].
  destruct (models.Credits user <? 1); [left; reflexivity|].
  destruct (negb db_up); [left; reflexivity|].
  right. cbn [db_Create_generation].
  destruct (negb (services.IsConfigured minimax)); cbv beta iota zeta;
    Jobs.rows; autorewrite with row; eexists;
    (split; [first [reflexivity|apply insert_insert_eq]|]);
    unfold sanitised_by, texts;
    repeat (apply Forall_cons; split;
            [first [left; reflexivity | right; eexists; reflexivity]|]);
    constructor.
Qed.

Lemma GenerateVideo_texts userID body db_up w :
  let r := GenerateVideo sanitise video_valid minimax userID body db_up w in
  snd (fst r) = w
  ∨ ∃ g, generations (snd (fst r)) = <[next_generation w := g]> (generations w)
         ∧ sanitised_by sanitise g.
Proof.
  unfold GenerateVideo.
  destruct body as [req|]; [|left; reflexivity].
  destruct (negb (video_valid req)); [left; reflexivity|].
  destruct (db_First_user userID w) as [user|]; [|left; reflexivity].
  destruct (models.Credits user <? _); [left; reflexivity|].
  match goal with
  | |- context [if ?b && ?c then _ else _] =>
      destruct (b && c); [left; reflexivity|]
  end.
  destruct (negb db_up); [left; reflexivity|].
  right. cbn [db_Create_generation].
  destruct (negb (services.IsConfigured minimax)); cbv beta iota zeta;
    Jobs.rows; autorewrite with row; eexists;
    (split; [first [reflexivity|apply insert_insert_eq]|]);
    unfold sanitised_by, texts;
    repeat (apply Forall_cons; split;
            [first [left; reflexivity | right; eexists; reflexivity]|]);
    constructor.
Qed.

(** In every state the service reaches, each text of each stored job
    is empty or came out of the sanitiser the handlers were given. *)
Lemma reachable_sanitised credits redis s :
  reachable sanitise music_valid video_valid minimax (init credits redis) s →
  ∀ id g, generations (world s) !! id = Some g → sanitised_by sanitise g.
Proof.
  intros H.
  apply (rtc_ind_r (R := step sanitise music_valid video_valid minimax)
           (fun s => ∀ id g, generations (world s) !! id = Some g →
                             sanitised_by sanitise g)
           (init credits redis)); [| |exact H].
  { intros id g Hg. cbn in Hg. rewrite lookup_empty in Hg. discriminate. }
  intros y z Hy Hyz IH id g.
  assert (Hsubmit : ∀ r,
            (snd (fst r) = world y
             ∨ ∃ g0, generations (snd (fst r))
                     = <[next_generation (world y) := g0]> (generations (world y))
                     ∧ sanitised_by sanitise g0) →
            generations (world (after_handler r (tasks y))) !! id = Some g →
            sanitised_by sanitise g).
  { intros r [Hw | (g0 & Hg0 & Hs)]; unfold after_handler; cbn [world].
    - rewrite Hw. apply IH.
    - rewrite Hg0. destruct (decide (next_generation (world y) = id)) as [<-|Hne].
      + rewrite lookup_insert_eq. intros [= <-]. exact Hs.
      + rewrite lookup_insert_ne by exact Hne. apply IH. }
  destruct Hyz as [s0 userID body db_up | s0 userID body db_up
                   | w pre t post menv venv].
  - apply Hsubmit, GenerateMusic_texts.
  - apply Hsubmit, GenerateVideo_texts.
  - clear Hsubmit. cbn [world] in *.
    pose proof (Jobs.reachable_Audit sanitise music_valid video_valid minimax
                  credits redis _ Hy) as HA.
    destruct (audit_task _ HA t) as [Hstored _];
      [cbn [tasks]; apply elem_of_app; right; left|].
    cbn [world] in Hstored.
    destruct (Jobs.run_rewritten minimax t menv venv w)
      as [[-> | (g' & -> & Hsame)] _]; [apply IH|].
    destruct (decide (task_id t = id)) as [<-|Hne].
    + rewrite lookup_insert_eq. intros [= <-].
      unfold sanitised_by. rewrite (identity_texts _ _ Hsame).
      apply (IH _ _ Hstored).
    + rewrite lookup_insert_ne by exact Hne. apply IH.
Qed.

End Handlers.

(** X17: with the handlers sanitising through [SanitizeInput], in every
    state the service reaches, whatever the requests held and however
    the goroutines ended, the title, prompt, lyrics, narration and style
    of every stored job hold no angle bracket, no double or single quote
    and no NUL byte. *)
Theorem stored_texts_carry_no_markup music_valid video_valid minimax credits
    redis s id g :
  reachable SanitizeInput music_valid video_valid minimax
    (init credits redis) s →
  generations (world s) !! id = Some g →
  Forall clean (texts g).
Proof.
  intros Hreach Hg.
  pose proof (reachable_sanitised SanitizeInput music_valid video_valid minimax
                credits redis s Hreach id g Hg) as Hs.
  unfold sanitised_by in Hs. eapply Forall_impl; [exact Hs|].
  intros x [-> | (y & ->)]; [constructor|apply SanitizeInput_clean].
Qed.

Lemma stored_texts_carry_no_markup_witness :
  reachable SanitizeInput runs.any_music runs.any_video runs.configured
    runs.ten_credits tagged_waiting
  ∧ ∃ g, generations (world tagged_waiting) !! 1%N = Some g
         ∧ models.Title g = "&lt;b&gt;Calm&lt;/b&gt;"
         ∧ models.Style g = "piano &amp; strings"
         ∧ Forall clean (texts g).
Proof.
  assert (Hreach : reachable SanitizeInput runs.any_music runs.any_video
                     runs.configured runs.ten_credits tagged_waiting).
  { apply (Ledger.schedule_reachable _ _ _ _
             [MusicRequest 1 (Some tagged_song) true]).
    vm_compute. reflexivity. }
  split; [exact Hreach|].
  assert (Hg : ∃ g, generations (world tagged_waiting) !! 1%N = Some g
                    ∧ models.Title g = "&lt;b&gt;Calm&lt;/b&gt;"
                    ∧ models.Style g = "piano &amp; strings")
    by (eexists; repeat split; vm_compute; reflexivity).
  destruct Hg as (g & Hg & Ht & Hs).
  exists g. repeat (split; [assumption|]).
  exact (stored_texts_carry_no_markup runs.any_music runs.any_video
           runs.configured {[ 1%N := 10 ]} true tagged_waiting 1%N g Hreach Hg).
Defined.

(** X16: whatever the input, the text [SanitizeInput] returns holds no
    angle bracket, no double or single quote and no NUL byte. *)
Theorem SanitizeInput_leaves_no_markup input :
  Forall (fun c => markup c = false)
    (list_ascii_of_string (SanitizeInput input)).
Proof. apply SanitizeInput_clean. Qed.

End Sanitize.

(* ===================================================================== *)
(** ** Job keys in decimal *)
(* ===================================================================== *)

Module Keys.
Import strconv.

Lemma digit_pretty_N_char d :
  (d < 10)%N → digit (pretty_N_char d) = Some d.
Proof.
  intros H.
  assert (d = 0 ∨ d = 1 ∨ d = 2 ∨ d = 3 ∨ d = 4 ∨ d = 5 ∨ d = 6 ∨ d = 7
          ∨ d = 8 ∨ d = 9)%N as Hd by lia.
  repeat (destruct Hd as [->|Hd]; [reflexivity|]). subst d. reflexivity.
Qed.

Lemma parse_loop_pretty_N_go maxVal x :
  ∀ s, parse_loop maxVal 0 (list_ascii_of_string (pretty_N_go x s))
       = if (x <=? maxVal)%N
         then parse_loop maxVal x (list_ascii_of_string s) else None.
Proof.
  induction (N.lt_wf_0 x) as [x _ IH]. intros s.
  destruct (N.eq_dec x 0%N) as [->|Hne];
    [destruct (N.leb_spec 0 maxVal); [reflexivity|lia]|].
  rewrite pretty_N_go_step by lia.
  rewrite IH by (apply N.div_lt; lia).
  assert (Hdiv : (x `div` 10 * 10 + x `mod` 10 = x)%N)
    by (rewrite (N.div_mod x 10) at 3; lia).
  destruct (N.leb_spec (x `div` 10) maxVal) as [Hq|Hq].
  - cbn [list_ascii_of_string parse_loop].
    rewrite digit_pretty_N_char by (apply N.mod_lt; lia).
    cbv zeta. rewrite Hdiv.
    destruct (N.ltb_spec maxVal x), (N.leb_spec x maxVal); try lia; reflexivity.
  - destruct (N.leb_spec x maxVal); [|reflexivity].
    assert (x `div` 10 <= x)%N by (apply N.Div0.div_le_upper_bound; lia). lia.
Qed.

Lemma pretty_N_go_nonempty x : ∀ s, s ≠ "" → pretty_N_go x s ≠ "".
Proof.
  induction (N.lt_wf_0 x) as [x _ IH]. intros s Hs.
  destruct (N.eq_dec x 0%N) as [->|Hne]; [exact Hs|].
  rewrite pretty_N_go_step by lia.
  apply IH; [apply N.div_lt; lia|discriminate].
Qed.

Lemma pretty_N_nonempty (n : N) : pretty n ≠ "".
Proof.
  unfold pretty, pretty_N. destruct (decide (n = 0%N)); [discriminate|].
  rewrite pretty_N_go_step by lia. apply pretty_N_go_nonempty. discriminate.
Qed.

Lemma parse_loop_bound maxVal s : ∀ n m,
  (n <= maxVal)%N → parse_loop maxVal n s = Some m → (m <= maxVal)%N.
Proof.
  induction s as [|c s IH]; intros n m Hn; cbn [parse_loop].
  - intros [= <-]. exact Hn.
  - destruct (digit c) as [d|]; [|discriminate]. cbv zeta.
    destruct (N.ltb_spec maxVal (n * 10 + d)); [discriminate|].
    apply IH. assumption.
Qed.

Lemma ParseUint_pretty (n bitSize : N) :
  ParseUint (pretty n) bitSize
  = if (n <? 2 ^ bitSize)%N then Some n else None.
Proof.
  assert (Hpos : (0 < 2 ^ bitSize)%N) by (apply N.neq_0_lt_0, N.pow_nonzero; lia).
  unfold ParseUint.
  destruct (String.eqb_spec (pretty n) "") as [E|_];
    [destruct (pretty_N_nonempty n E)|].
  unfold pretty, pretty_N. destruct (decide (n = 0%N)) as [->|Hne].
  - cbn [list_ascii_of_string parse_loop].
    change (digit "0") with (Some 0%N). cbv beta iota zeta.
    change (0 * 10 + 0)%N with 0%N.
    destruct (N.ltb_spec (2 ^ bitSize - 1) 0), (N.ltb_spec 0 (2 ^ bitSize));
      try lia; reflexivity.
  - rewrite parse_loop_pretty_N_go. cbn [list_ascii_of_string parse_loop].
    destruct (N.leb_spec n (2 ^ bitSize - 1)), (N.ltb_spec n (2 ^ bitSize));
      try lia; reflexivity.
Qed.

(** X18: the decimal form of a key parses back to the key exactly when
    the key is below 2^32: [ParseUint(_, 10, 32)] accepts the decimal
    form of every such key and gives the key back, and it refuses the
    decimal form of every larger one; whatever it accepts is below
    2^32, and it refuses the empty text. *)
Theorem ParseUint_reads_back_keys_below_2_32 :
  (∀ n : N, (n < 2 ^ 32)%N → ParseUint (pretty n) 32 = Some n)
  ∧ (∀ n : N, (2 ^ 32 <= n)%N → ParseUint (pretty n) 32 = None)
  ∧ (∀ s n, ParseUint s 32 = Some n → (n < 2 ^ 32)%N)
  ∧ ParseUint "" 32 = None.
Proof.
  split; [|split; [|split; [|reflexivity]]].
  - intros n Hn. rewrite ParseUint_pretty.
    destruct (N.ltb_spec n (2 ^ 32)); [reflexivity|lia].
  - intros n Hn. rewrite ParseUint_pretty.
    destruct (N.ltb_spec n (2 ^ 32)); [lia|reflexivity].
  - intros s n. unfold ParseUint. destruct (String.eqb s ""); [discriminate|].
    intros H. apply parse_loop_bound in H; lia.
Qed.

End Keys.

(* ===================================================================== *)
(** ** Listing, reading and deleting jobs *)
(* ===================================================================== *)

Module Library.
Import handlers system audit library.

Lemma ToResponse_idem g :
  models.ToResponse (models.ToResponse g) = models.ToResponse g.
Proof. destruct g; reflexivity. Qed.

Lemma UserID_ToResponse g : models.UserID (models.ToResponse g) = models.UserID g.
Proof. destruct g; reflexivity. Qed.

Lemma db_First_owned_Some id userID w g :
  db_First_owned id userID w = Some g
  ↔ generations w !! id = Some g ∧ models.UserID g = userID.
Proof.
  unfold db_First_owned. destruct (generations w !! id) as [g0|].
  - destruct (N.eqb_spec (models.UserID g0) userID) as [Hu|Hu]; split.
    + intros [= <-]. auto.
    + intros [[= <-] _]. reflexivity.
    + discriminate.
    + intros [[= <-] H]. contradiction.
  - split; [discriminate|intros [H _]; discriminate].
Qed.

(** What [DeleteGeneration] does to the world: nothing, or it takes out
    the one row the caller owns under the key parsed. *)
Lemma DeleteGeneration_effect userID param db_up w :
  keyed w →
  snd (DeleteGeneration userID param db_up w) = w
  ∨ ∃ id g, strconv.ParseUint param 32 = Some id
            ∧ generations w !! id = Some g ∧ models.UserID g = userID
            ∧ db_up = true
            ∧ fst (DeleteGeneration userID param db_up w)
              = MessageReply "Generation deleted"
            ∧ snd (DeleteGeneration userID param db_up w)
              = {| users := users w;
                   generations := delete id (generations w);
                   next_generation := next_generation w;
                   credit_transactions := credit_transactions w;
                   cache := cache w; sent := sent w |}.
Proof.
  intros Hk. unfold DeleteGeneration.
  destruct (strconv.ParseUint param 32) as [id|]; [|left; reflexivity].
  destruct (db_First_owned id userID w) as [g|] eqn:E; [|left; reflexivity].
  apply db_First_owned_Some in E as [Hg Hu].
  destruct db_up; [|left; reflexivity].
  right. exists id, g. cbn [negb fst snd]. unfold db_Delete_generation.
  rewrite (Hk id g Hg). auto 7.
Qed.

(** X19: reading and deleting go by ownership. A job [GetGeneration]
    returns is stored under the key asked for and belongs to the caller;
    [DeleteGeneration] leaves balances, ledger, cache, notifications and
    the next key as they were (a deleted job is not refunded), adds no
    row, and leaves every job of every other user in place. *)
Theorem reads_and_deletes_go_by_owner userID param w :
  keyed w →
  (∀ g, GetGeneration userID param w = GenerationReply g →
        models.UserID g = userID
        ∧ ∃ id g0, strconv.ParseUint param 32 = Some id
                   ∧ generations w !! id = Some g0
                   ∧ g = models.ToResponse g0)
  ∧ (∀ db_up,
       let w' := snd (DeleteGeneration userID param db_up w) in
       users w' = users w
       ∧ credit_transactions w' = credit_transactions w
       ∧ cache w' = cache w ∧ sent w' = sent w
       ∧ next_generation w' = next_generation w
       ∧ (∀ id g, generations w' !! id = Some g →
                  generations w !! id = Some g)
       ∧ (∀ id g, generations w !! id = Some g →
                  models.UserID g ≠ userID →
                  generations w' !! id = Some g)).
Proof.
  intros Hk. split.
  - intros g. unfold GetGeneration.
    destruct (strconv.ParseUint param 32) as [id|]; [|discriminate].
    destruct (db_First_owned id userID w) as [g0|] eqn:E; [|discriminate].
    apply db_First_owned_Some in E as [Hg Hu]. intros [= <-].
    rewrite UserID_ToResponse. split; [exact Hu|]. exists id, g0. auto.
  - intros db_up w'. subst w'.
    destruct (DeleteGeneration_effect userID param db_up w Hk)
      as [-> | (id & g & _ & Hg & Hu & _ & _ & ->)];
      [repeat split; auto|].
    cbn [users credit_transactions cache sent next_generation generations].
    repeat split; try reflexivity.
    + intros id' g'. rewrite lookup_delete_Some. intros [_ H]. exact H.
    + intros id' g' Hg' Hne. rewrite lookup_delete_ne; [exact Hg'|].
      intros <-. rewrite Hg in Hg'. injection Hg' as <-. contradiction.
Qed.

(** X20: a deleted job is gone for its owner: after [DeleteGeneration]
    answered "Generation deleted", reading the same key and deleting it
    again both answer 404, and the second delete changes nothing. *)
Theorem deleted_job_is_gone userID param w :
  keyed w →
  fst (DeleteGeneration userID param true w) = MessageReply "Generation deleted" →
  let w' := snd (DeleteGeneration userID param true w) in
  keyed w'
  ∧ GetGeneration userID param w'
    = Failure 404 "Not Found" "Generation not found"
  ∧ ∀ db_up, DeleteGeneration userID param db_up w'
             = (Failure 404 "Not Found" "Generation not found", w').
Proof.
  intros Hk Hreply w'. subst w'. revert Hreply. unfold DeleteGeneration.
  destruct (strconv.ParseUint param 32) as [id|] eqn:Hp; [|discriminate].
  destruct (db_First_owned id userID w) as [g|] eqn:E; [|discriminate].
  apply db_First_owned_Some in E as [Hg Hu].
  cbn [negb fst snd]. intros _. unfold db_Delete_generation.
  rewrite (Hk id g Hg).
  assert (Hgone : db_First_owned id userID
                    {| users := users w;
                       generations := delete id (generations w);
                       next_generation := next_generation w;
                       credit_transactions := credit_transactions w;
                       cache := cache w; sent := sent w |} = None).
  { unfold db_First_owned. cbn [generations].
    rewrite lookup_delete_eq. reflexivity. }
  split; [|split].
  - intros id' g'. cbn [generations]. rewrite lookup_delete_Some.
    intros [_ H]. apply (Hk _ _ H).
  - unfold GetGeneration. rewrite Hp, Hgone. reflexivity.
  - intros db_up. rewrite Hgone. reflexivity.
Qed.

Section Handlers.

Variable SanitizeInput : string → string.
Variable music_valid : models.GenerateMusicRequest → bool.
Variable video_valid : models.GenerateVideoRequest → bool.
Variable minimax : services.MiniMaxService.

Lemma told_job_can_be_read userID w r :
  (next_generation w < 2 ^ 32)%N →
  reply_tells minimax userID w r →
  ∀ msg g, body (fst (fst r)) = GenerationBody msg g →
    GetGeneration userID (pretty (models.ID g)) (snd (fst r))
    = GenerationReply g.
Proof.
  intros Hnext Htells msg g Hbody. destruct r as [[resp w'] t].
  cbn [fst snd] in *. unfold reply_tells in Htells.
  destruct Htells as [[Href _] | (msg0 & g0 & Hb & Hg & Hid & Hu & _)].
  - unfold refused in Href. rewrite Hbody in Href. contradiction.
  - rewrite Hb in Hbody. injection Hbody as _ <-.
    rewrite Pipelines.ID_ToResponse, Hid. unfold GetGeneration.
    rewrite Keys.ParseUint_pretty.
    destruct (N.ltb_spec (next_generation w) (2 ^ 32)); [|lia].
    assert (E : db_First_owned (next_generation w) userID w' = Some g0).
    { apply db_First_owned_Some. rewrite Hg, lookup_insert_eq. auto. }
    rewrite E. reflexivity.
Qed.

(** X21: a job a generation handler answers with can be read back at
    once: as long as keys stay below 2^32, [GetGeneration], called by
    the same user with the decimal form of the key in the reply, returns
    the very job the reply carried. *)
Theorem created_job_can_be_read userID w :
  (next_generation w < 2 ^ 32)%N →
  (∀ body db_up msg g,
     let r := GenerateMusic SanitizeInput music_valid minimax userID body
                db_up w in
     handlers.body (fst (fst r)) = GenerationBody msg g →
     GetGeneration userID (pretty (models.ID g)) (snd (fst r))
     = GenerationReply g)
  ∧ (∀ body db_up msg g,
       let r := GenerateVideo SanitizeInput video_valid minimax userID body
                  db_up w in
       handlers.body (fst (fst r)) = GenerationBody msg g →
       GetGeneration userID (pretty (models.ID g)) (snd (fst r))
       = GenerationReply g).
Proof.
  intros Hnext. split; intros body db_up msg g r; subst r;
    apply (told_job_can_be_read userID w); try exact Hnext.
  - apply Pipelines.GenerateMusic_reply_tells.
  - apply Pipelines.GenerateVideo_reply_tells.
Qed.

End Handlers.

Lemma reachable_keyed SanitizeInput music_valid video_valid minimax credits
    redis s :
  reachable SanitizeInput music_valid video_valid minimax
    (init credits redis) s →
  keyed (world s).
Proof.
  intros H id g Hg.
  apply (books.inv_key _ _
           (Ledger.reachable_Inv SanitizeInput music_valid video_valid minimax
              credits redis s H) id g Hg).
Qed.

Lemma two_songs_keyed : keyed (world runs.two_songs).
Proof.
  apply (reachable_keyed runs.keep runs.any_music runs.any_video
           runs.configured {[ 1%N := 10 ]} true).
  exact Runs.two_songs_reachable.
Qed.

Lemma reads_and_deletes_go_by_owner_witness :
  keyed (world runs.two_songs)
  ∧ (∃ g, GetGeneration 1 "1" (world runs.two_songs) = GenerationReply g
          ∧ models.UserID g = 1%N)
  ∧ GetGeneration 2 "1" (world runs.two_songs)
    = Failure 404 "Not Found" "Generation not found"
  ∧ users (snd (DeleteGeneration 1 "1" true (world runs.two_songs)))
    = users (world runs.two_songs).
Proof.
  split; [exact two_songs_keyed|].
  destruct (reads_and_deletes_go_by_owner 1%N "1" (world runs.two_songs)
              two_songs_keyed) as [Hget Hdel].
  split; [|split].
  - assert (Hg : ∃ g, GetGeneration 1 "1" (world runs.two_songs)
                      = GenerationReply g)
      by (eexists; vm_compute; reflexivity).
    destruct Hg as (g & Hg). exists g. split; [exact Hg|].
    apply (Hget g Hg).
  - vm_compute. reflexivity.
  - apply (Hdel true).
Defined.

Lemma deleted_job_is_gone_witness :
  keyed (world runs.two_songs)
  ∧ fst (DeleteGeneration 1 "1" true (world runs.two_songs))
    = MessageReply "Generation deleted"
  ∧ GetGeneration 1 "1" (snd (DeleteGeneration 1 "1" true (world runs.two_songs)))
    = Failure 404 "Not Found" "Generation not found".
Proof.
  assert (Hr : fst (DeleteGeneration 1 "1" true (world runs.two_songs))
               = MessageReply "Generation deleted")
    by (vm_compute; reflexivity).
  split; [exact two_songs_keyed|]. split; [exact Hr|].
  apply (deleted_job_is_gone 1%N "1" (world runs.two_songs) two_songs_keyed Hr).
Defined.

Lemma created_job_can_be_read_witness :
  (next_generation (world runs.ten_credits) < 2 ^ 32)%N
  ∧ ∃ msg g,
      body (fst (fst (GenerateMusic runs.keep runs.any_music runs.configured 1
                        (Some runs.song) true (world runs.ten_credits))))
      = GenerationBody msg g
      ∧ GetGeneration 1 "1"
          (snd (fst (GenerateMusic runs.keep runs.any_music runs.configured 1
                       (Some runs.song) true (world runs.ten_credits))))
        = GenerationReply g.
Proof.
  assert (Hn : (next_generation (world runs.ten_credits) < 2 ^ 32)%N)
    by (vm_compute; reflexivity).
  split; [exact Hn|].
  assert (Hb : ∃ msg g,
             body (fst (fst (GenerateMusic runs.keep runs.any_music
                               runs.configured 1 (Some runs.song) true
                               (world runs.ten_credits))))
             = GenerationBody msg g ∧ pretty (models.ID g) = "1")
    by (eexists _, _; split; vm_compute; reflexivity).
  destruct Hb as (msg & g & Hb & Hid).
  exists msg, g. split; [exact Hb|]. rewrite <- Hid.
  destruct (created_job_can_be_read runs.keep runs.any_music runs.any_video
              runs.configured 1%N (world runs.ten_credits) Hn) as [Hm _].
  apply (Hm (Some runs.song) true msg g Hb).
Defined.

(** *** Pages *)

Lemma pages_tile (L : nat) : (0 < L)%nat →
  ∀ n (l : list models.Generation), (length l <= n * L)%nat →
    flat_map (fun k => take L (drop (k * L) l)) (seq 0 n) = l.
Proof.
  intros HL. induction n as [|n IH]; intros l Hlen.
  - destruct l; [reflexivity|cbn in Hlen; lia].
  - cbn [seq flat_map]. rewrite <- seq_shift, flat_map_concat_map, map_map.
    rewrite <- flat_map_concat_map. cbn [Nat.mul drop].
    rewrite (flat_map_ext _ (fun k => take L (drop (k * L) (drop L l))));
      [|intros k; rewrite drop_drop; f_equal; f_equal; lia].
    rewrite IH; [apply take_drop|]. rewrite length_drop. lia.
Qed.

Lemma flat_map_seq_ext (f g : nat → list models.Generation) a n :
  (∀ k, (a <= k < a + n)%nat → f k = g k) →
  flat_map f (seq a n) = flat_map g (seq a n).
Proof.
  revert a. induction n as [|n IH]; intros a H; [reflexivity|].
  cbn [seq flat_map]. rewrite H by lia. f_equal. apply IH.
  intros k Hk. apply H. lia.
Qed.

(** What a listing read past the cache holds, for a page within
    reach. *)
Lemma GetGenerations_page userID limit genType status table (p : Z) :
  Z.of_nat (length table) < 2 ^ 55 → 1 <= p < 2 ^ 55 →
  let L := if (limit <? 1) || (100 <? limit) then 20 else limit in
  let rows := matching userID genType status table in
  GetGenerations userID p limit genType status None table true
  = (ListingReply
       {| listed := map models.ToResponse
                      (take (Z.to_nat L)
                         (drop (Z.to_nat (p - 1) * Z.to_nat L) rows));
          pagination :=
            {| page := p; limit := L; total := Z.of_nat (length rows);
               total_pages := (Z.of_nat (length rows) + L - 1) / L |} |},
     None)
  ∧ 1 <= L <= 100 ∧ Z.of_nat (length rows) < 2 ^ 55.
Proof.
  intros Htable Hp L rows.
  assert (HL : 1 <= L <= 100).
  { subst L. destruct (Z.ltb_spec limit 1); cbn [orb]; [lia|].
    destruct (Z.ltb_spec 100 limit); lia. }
  assert (Hrows : Z.of_nat (length rows) < 2 ^ 55).
  { subst rows. unfold matching.
    pose proof (length_filter (fun g => matches userID genType status g = true)
                  table). lia. }
  split; [|split; assumption].
  unfold GetGenerations. fold L. fold (matching userID genType status table).
  fold rows. destruct (Z.ltb_spec p 1); [lia|]. cbn [negb].
  rewrite !RateLimit.wrap_small
    by (rewrite ?RateLimit.wrap_small;
        unfold F64.min_int64, F64.max_int64; nia).
  rewrite Z.quot_div_nonneg by lia.
  rewrite Z2Nat.inj_mul by lia.
  reflexivity.
Qed.

Lemma flat_map_map_out (h : models.Generation → models.Generation)
    (g : nat → list models.Generation) l :
  flat_map (fun k => map h (g k)) l = map h (flat_map g l).
Proof.
  induction l as [|k l IH]; [reflexivity|].
  cbn [flat_map]. rewrite map_app, IH. reflexivity.
Qed.

(** X22: the pages of a listing tile the result. For a table of fewer
    than 2^55 rows and any [limit] parameter, the first page reports as
    total the number of the caller's jobs that pass the filters; reading
    the pages 1 to total_pages past the cache and putting them one after
    the other gives every such job exactly once, in the table's order;
    and every later page numbered below 2^55 is empty (far beyond, the
    64-bit offset wraps around). *)
Theorem pages_tile_the_listing userID limit genType status table :
  Z.of_nat (length table) < 2 ^ 55 →
  ∃ result,
    fst (GetGenerations userID 1 limit genType status None table true)
    = ListingReply result
    ∧ total (pagination result)
      = Z.of_nat (length (matching userID genType status table))
    ∧ flat_map (page_rows userID limit genType status table)
        (seq 1 (Z.to_nat (total_pages (pagination result))))
      = map models.ToResponse (matching userID genType status table)
    ∧ ∀ p, (Z.to_nat (total_pages (pagination result)) < p)%nat →
           Z.of_nat p < 2 ^ 55 →
           page_rows userID limit genType status table p = [].
Proof.
  intros Htable.
  destruct (GetGenerations_page userID limit genType status table 1 Htable)
    as (Hfirst & HL & Hrows); [lia|].
  set (L := if (limit <? 1) || (100 <? limit) then 20 else limit) in *.
  set (rows := matching userID genType status table) in *.
  set (t := Z.of_nat (length rows)) in *.
  eexists. rewrite Hfirst. split; [reflexivity|]. cbn [pagination total total_pages].
  split; [reflexivity|].
  assert (Hn : t <= (t + L - 1) / L * L ∧ 0 <= (t + L - 1) / L <= t).
  { pose proof (Z.div_mod (t + L - 1) L ltac:(lia)) as Hd.
    pose proof (Z.mod_pos_bound (t + L - 1) L ltac:(lia)) as Hm.
    assert (0 <= t) by (subst t; lia).
    split; [nia|]. split; [apply Z.div_pos; lia|].
    destruct (decide (t = 0)) as [->|Hne].
    - rewrite Z.div_small; lia.
    - apply Z.div_le_upper_bound; nia. }
  assert (Hpage : ∀ k, (1 <= k)%nat → Z.of_nat k < 2 ^ 55 →
            page_rows userID limit genType status table k
            = map models.ToResponse
                (take (Z.to_nat L) (drop ((k - 1) * Z.to_nat L) rows))).
  { intros k Hk Hk'. unfold page_rows.
    destruct (GetGenerations_page userID limit genType status table
                (Z.of_nat k) Htable) as (Hp & _); [lia|].
    rewrite Hp. cbn [rows_of fst listed]. fold L. fold rows.
    replace (Z.to_nat (Z.of_nat k - 1)) with (k - 1)%nat by lia.
    reflexivity. }
  split.
  - rewrite (flat_map_seq_ext _
               (fun k => map models.ToResponse
                           (take (Z.to_nat L)
                              (drop ((k - 1) * Z.to_nat L) rows))));
      [|intros k Hk; apply Hpage; lia].
    rewrite flat_map_map_out. f_equal.
    rewrite <- seq_shift, flat_map_concat_map, map_map,
      <- flat_map_concat_map.
    rewrite (flat_map_ext _
               (fun k => take (Z.to_nat L) (drop (k * Z.to_nat L) rows)));
      [|intros k; do 3 f_equal; lia].
    apply pages_tile; [lia|]. fold t. nia.
  - intros p Hp Hp'. rewrite Hpage by lia.
    rewrite drop_ge; [rewrite take_nil; reflexivity|]. fold t. nia.
Qed.

Lemma pages_tile_the_listing_witness :
  Z.of_nat (length shelf) < 2 ^ 55
  ∧ page_rows 1 2 "" "" shelf 1 ++ page_rows 1 2 "" "" shelf 2
    = map models.ToResponse
        [job 4 1 models.TypeMusic; job 2 1 models.TypeVideo;
         job 1 1 models.TypeMusic].
Proof.
  assert (H : Z.of_nat (length shelf) < 2 ^ 55) by (vm_compute; reflexivity).
  split; [exact H|].
  destruct (pages_tile_the_listing 1%N 2 "" "" shelf H)
    as (result & Hfirst & _ & Hall & _).
  assert (Hn : Z.to_nat (total_pages (pagination result)) = 2%nat).
  { revert Hfirst. vm_compute. intros [= <-]. reflexivity. }
  rewrite Hn in Hall. cbn [seq flat_map] in Hall.
  rewrite app_nil_r in Hall. rewrite Hall. vm_compute. reflexivity.
Defined.

(** X23: a listing read past the cache shows the caller's own jobs
    only: every row on the page is the response form of a job in the
    table that belongs to the caller and passes the type and status
    filters given; a page holds at most 100 rows; without a cache
    nothing is cached. *)
Theorem listing_shows_own_matching_jobs userID page limit genType status
    table db_up :
  let r := GetGenerations userID page limit genType status None table db_up in
  Forall (shown_from userID genType status table) (rows_of r)
  ∧ (length (rows_of r) <= 100)%nat
  ∧ snd r = None.
Proof.
  intros r. subst r. unfold GetGenerations, rows_of.
  set (L := if (limit <? 1) || (100 <? limit) then 20 else limit).
  assert (HL : 1 <= L <= 100).
  { subst L. destruct (Z.ltb_spec limit 1); cbn [orb]; [lia|].
    destruct (Z.ltb_spec 100 limit); lia. }
  destruct db_up; cbn [negb fst snd listed];
    [|split; [constructor|split; [cbn; lia|reflexivity]]].
  split; [|split; [|reflexivity]].
  - apply Forall_forall. intros g Hg.
    apply list_elem_of_fmap in Hg as (g0 & -> & Hg0).
    apply subseteq_take, subseteq_drop in Hg0.
    apply list_elem_of_filter in Hg0 as [Hm Hin].
    exists g0. split; [exact Hin|]. split; [reflexivity|].
    unfold matches in Hm.
    apply andb_true_iff in Hm as [Hm Hst].
    apply andb_true_iff in Hm as [Hu Hty].
    split; [apply N.eqb_eq, Hu|]. split.
    + apply orb_true_iff in Hty as [H|H];
        [left|right]; apply String.eqb_eq, H.
    + apply orb_true_iff in Hst as [H|H];
        [left|right]; apply String.eqb_eq, H.
  - rewrite length_map, length_take. lia.
Qed.

(** *** Cache keys *)

Lemma append_cons c a b : String c a +:+ b = String c (a +:+ b).
Proof. reflexivity. Qed.

Lemma list_ascii_of_string_append a b :
  list_ascii_of_string (a +:+ b)
  = list_ascii_of_string a ++ list_ascii_of_string b.
Proof.
  induction a as [|c a IH]; [reflexivity|].
  rewrite append_cons. cbn [list_ascii_of_string app]. rewrite IH. reflexivity.
Qed.

Lemma append_assoc a b c : (a +:+ b) +:+ c = a +:+ (b +:+ c).
Proof.
  induction a as [|x a IH]; [reflexivity|].
  rewrite !append_cons, IH. reflexivity.
Qed.

Lemma prefix_append a b : String.prefix a (a +:+ b) = true.
Proof.
  induction a as [|c a IH]; [destruct b; reflexivity|].
  rewrite append_cons. cbn [String.prefix].
  destruct (ascii_dec c c); [exact IH|contradiction].
Qed.

Lemma prefix_append_same s a b :
  String.prefix (s +:+ a) (s +:+ b) = String.prefix a b.
Proof.
  induction s as [|c s IH]; [reflexivity|].
  rewrite !append_cons. cbn [String.prefix].
  destruct (ascii_dec c c); [exact IH|contradiction].
Qed.

Lemma digit_pretty_N_go x : ∀ s, digits s → digits (pretty_N_go x s).
Proof.
  induction (N.lt_wf_0 x) as [x _ IH]. intros s Hs.
  destruct (N.eq_dec x 0%N) as [->|Hne]; [exact Hs|].
  rewrite pretty_N_go_step by lia.
  apply IH; [apply N.div_lt; lia|].
  unfold digits. cbn [list_ascii_of_string]. constructor; [|exact Hs].
  rewrite Keys.digit_pretty_N_char by (apply N.mod_lt; lia). eexists.
  reflexivity.
Qed.

Lemma digits_pretty (n : N) : digits (pretty n).
Proof.
  unfold pretty, pretty_N. destruct (decide (n = 0%N)).
  - repeat constructor. eexists. reflexivity.
  - apply digit_pretty_N_go. constructor.
Qed.

(** Two runs of digits, each closed by a colon: one begins the other
    only if they are the same. *)
Lemma digits_colon_prefix a :
  digits a → ∀ b y, digits b →
    String.prefix (a +:+ ":") (b +:+ ":" +:+ y) = true → a = b.
Proof.
  unfold digits.
  induction a as [|c a IH]; intros Ha b y Hb Hp.
  - destruct b as [|c' b]; [reflexivity|]. exfalso.
    change ("" +:+ ":") with (String ":" "") in Hp.
    rewrite append_cons in Hp. cbn [String.prefix] in Hp.
    destruct (ascii_dec ":" c') as [<-|]; [|discriminate].
    cbn [list_ascii_of_string] in Hb. apply Forall_cons in Hb as [[d Hd] _].
    discriminate Hd.
  - cbn [list_ascii_of_string] in Ha. apply Forall_cons in Ha as [[d Hd] Ha].
    destruct b as [|c' b].
    + exfalso. rewrite append_cons in Hp.
      change ("" +:+ ":" +:+ y) with (String ":" y) in Hp.
      cbn [String.prefix] in Hp.
      destruct (ascii_dec c ":") as [->|]; [discriminate Hd|discriminate].
    + rewrite !append_cons in Hp. cbn [String.prefix] in Hp.
      destruct (ascii_dec c c') as [<-|]; [|discriminate].
      cbn [list_ascii_of_string] in Hb. apply Forall_cons in Hb as [_ Hb].
      f_equal. apply (IH Ha b y Hb Hp).
Qed.

Lemma selects_listing_pattern userID key :
  selects (listing_pattern userID) key
  = String.prefix ("generations:" +:+ pretty userID +:+ ":") key.
Proof.
  unfold selects, listing_pattern.
  replace ("generations:" +:+ pretty userID +:+ ":*")
    with (("generations:" +:+ pretty userID +:+ ":") +:+ "*")
    by (rewrite !append_assoc; reflexivity).
  rewrite list_ascii_of_string_append, rev_app_distr.
  cbn [list_ascii_of_string rev app].
  rewrite rev_involutive, string_of_list_ascii_of_string. reflexivity.
Qed.

Lemma selects_cacheKey u u' page limit genType status :
  selects (listing_pattern u') (cacheKey u page limit genType status) = true
  ↔ u = u'.
Proof.
  rewrite selects_listing_pattern. unfold cacheKey.
  rewrite prefix_append_same. split.
  - intros H. symmetry.
    apply (inj pretty). 
    apply (digits_colon_prefix _ (digits_pretty u') _ _ (digits_pretty u) H).
  - intros ->.
    replace (pretty u' +:+ ":" +:+ pretty page +:+ ":" +:+ pretty limit
             +:+ ":" +:+ genType +:+ ":" +:+ status)
      with ((pretty u' +:+ ":") +:+ pretty page +:+ ":" +:+ pretty limit
            +:+ ":" +:+ genType +:+ ":" +:+ status)
      by (rewrite append_assoc; reflexivity).
    apply prefix_append.
Qed.

(** X24: listings are cached per user. The entry [GetGenerations] puts
    in the cache is the listing it replied with, under a key of the
    caller; and the pattern the pipelines hand to [DeletePattern] for a
    user selects every listing key of that user, whatever the page, the
    limit and the filters, and no listing key of any other user. *)
Theorem listing_keys_are_per_user :
  (∀ userID w,
     cache (invalidate userID w)
     = (fun deleted => deleted ++ [listing_pattern userID]) <$> cache w)
  ∧ (∀ u u' page limit genType status,
       selects (listing_pattern u') (cacheKey u page limit genType status)
       = true ↔ u = u')
  ∧ (∀ userID page limit genType status cached table db_up key result,
       snd (GetGenerations userID page limit genType status cached table db_up)
       = Some (key, result) →
       fst (GetGenerations userID page limit genType status cached table db_up)
       = ListingReply result
       ∧ ∃ p l, key = cacheKey userID p l genType status).
Proof.
  split; [|split].
  - intros userID w. unfold invalidate, listing_pattern. cbn [cache].
    destruct (cache w); reflexivity.
  - apply selects_cacheKey.
  - intros userID page limit genType status cached table db_up key result.
    unfold GetGenerations.
    destruct cached as [get|].
    + destruct (get _) as [hit|]; [discriminate|].
      destruct db_up; cbn [negb fst snd]; [|discriminate].
      intros [= <- <-]. split; [reflexivity|]. eexists _, _. reflexivity.
    + destruct db_up; cbn [negb fst snd]; discriminate.
Qed.

End Library.

(* ===================================================================== *)
(** ** Balances and ledger rows when jobs are deleted *)
(* ===================================================================== *)

Module Accounts.
Import handlers system books audit library service Jobs.


(** *** What a run writes *)






(** *** The invariant that deleting keeps *)










Section Reachable.

Variable SanitizeInput : string → string.
Variable music_valid : models.GenerateMusicRequest → bool.
Variable video_valid : models.GenerateVideoRequest → bool.
Variable minimax : services.MiniMaxService.

Let step := service.step SanitizeInput music_valid video_valid minimax.
Let reachable := service.reachable SanitizeInput music_valid video_valid minimax.
Let configured := services.IsConfigured minimax.










(** *** What the ledger adds up to *)







End Reachable.




End Accounts.
